(** * Hugine: a shallow embedding of the search and move-generation core

    The definitions below follow [hugine.cpp] (Hugine 2.0): bitboards are
    64-bit words held in [Z], the mailbox and the piece bitboards are lists
    indexed the way the C++ arrays are laid out, and the functions that
    mutate a [Position] in place return the new position. *)

From Stdlib Require Import String Ascii ZArith List Bool Lia.
Import ListNotations.
Open Scope Z_scope.

(** ** Arrays

    C++ arrays are lists; an index outside the array (undefined behaviour in
    the source) reads the default and writes nothing. *)

Fixpoint upd {A : Type} (n : nat) (v : A) (l : list A) : list A :=
  match l, n with
  | [], _ => []
  | _ :: t, O => v :: t
  | h :: t, S n' => h :: upd n' v t
  end.

Definition aget {A : Type} (d : A) (l : list A) (i : Z) : A :=
  if i <? 0 then d else nth (Z.to_nat i) l d.

Definition aset {A : Type} (l : list A) (i : Z) (v : A) : list A :=
  if i <? 0 then l else upd (Z.to_nat i) v l.

(** ** Types, enums and constants *)

Inductive Color := WHITE | BLACK.

Definition color_z (c : Color) : Z := match c with WHITE => 0 | BLACK => 1 end.
(** [Color(c ^ 1)] *)
Definition flip (c : Color) : Color := match c with WHITE => BLACK | BLACK => WHITE end.
(** [Color(pc >> 3)] for a mailbox code *)
Definition color_of_z (z : Z) : Color := if z =? 0 then WHITE else BLACK.

Definition color_eqb (a b : Color) : bool :=
  match a, b with WHITE, WHITE | BLACK, BLACK => true | _, _ => false end.

Definition NO_PIECE := 0.
Definition PAWN := 1.
Definition KNIGHT := 2.
Definition BISHOP := 3.
Definition ROOK := 4.
Definition QUEEN := 5.
Definition KING := 6.

Inductive Bound := BOUND_NONE | BOUND_UPPER | BOUND_LOWER | BOUND_EXACT.

Definition NO_SQUARE := -1.
Definition NO_MOVE := 0.
Definition NULL_MOVE := 4294967295.
Definition MAX_PLY := 128.
Definition MAX_QSEARCH_DEPTH := 8.
Definition MATE_SCORE := 32000.
Definition INF := 32001.
Definition MATE_OFFSET := 20000.
Definition RAZOR_MARGIN_D1 := 300.
Definition RAZOR_MARGIN_D2 := 400.
Definition RAZOR_MARGIN_D3 := 600.
Definition FUTILITY_MARGIN_FACTOR := 200.
Definition LMR_BASE := 1.
Definition LMR_DIV := 2.
Definition NULL_MOVE_R := 2.
Definition IID_DEPTH := 5.
Definition IID_REDUCTION := 2.
Definition SEE_QUIET_MARGIN := -80.
Definition SINGULAR_EXTENSION_DEPTH := 8.
Definition SINGULAR_MARGIN := 50.
Definition PROBCUT_DEPTH := 5.
Definition PROBCUT_MARGIN_BASE := 100.
Definition PROBCUT_MARGIN_PER_DEPTH := 20.
Definition LMP_BASE := 3.
Definition LMP_FACTOR := 2.

Definition PIECE_VALUES : list Z := [0; 100; 320; 330; 500; 900; 0].
Definition PHASE_KNIGHT := 1.
Definition PHASE_BISHOP := 1.
Definition PHASE_ROOK := 2.
Definition PHASE_QUEEN := 4.
Definition TOTAL_PHASE := 24.

(** ** Squares and moves *)

Definition make_square (f r : Z) : Z := r * 8 + f.
Definition file_of (s : Z) : Z := Z.land s 7.
Definition rank_of (s : Z) : Z := Z.shiftr s 3.
Definition from_sq (m : Z) : Z := Z.land (Z.shiftr m 6) 63.
Definition to_sq (m : Z) : Z := Z.land m 63.
(** [make_move(from, to)], the free function that packs a move *)
Definition mk_move (from to : Z) : Z := Z.lor (Z.shiftl from 6) to.

Definition PROMO_MASK := 61440.
Definition PROMO_KNIGHT := 4096.
Definition PROMO_BISHOP := 8192.
Definition PROMO_ROOK := 12288.
Definition PROMO_QUEEN := 16384.
Definition CASTLE_FLAG := 20480.
Definition ENPASSANT_FLAG := 24576.

Definition make_promotion (from to pt : Z) : Z :=
  if pt =? KNIGHT then Z.lor (mk_move from to) PROMO_KNIGHT
  else if pt =? BISHOP then Z.lor (mk_move from to) PROMO_BISHOP
  else if pt =? ROOK then Z.lor (mk_move from to) PROMO_ROOK
  else Z.lor (mk_move from to) PROMO_QUEEN.

Definition promotion_type (m : Z) : Z :=
  let flag := Z.land m PROMO_MASK in
  if flag =? PROMO_KNIGHT then KNIGHT
  else if flag =? PROMO_BISHOP then BISHOP
  else if flag =? PROMO_ROOK then ROOK
  else if flag =? PROMO_QUEEN then QUEEN
  else NO_PIECE.

Definition is_castling (m : Z) : bool := Z.land m PROMO_MASK =? CASTLE_FLAG.
Definition is_en_passant (m : Z) : bool := Z.land m PROMO_MASK =? ENPASSANT_FLAG.

(** ** Bitboards *)

(** [1ULL << s] *)
Definition bit (s : Z) : Z := Z.shiftl 1 s.
(** [~b] on a 64-bit word *)
Definition not64 (b : Z) : Z := Z.land (Z.lnot b) (Z.ones 64).
(** [b & bit] as a truth value *)
Definition has (b m : Z) : bool := negb (Z.land b m =? 0).

Fixpoint ctz_from (n : nat) (i : Z) (b : Z) : Z :=
  match n with
  | O => i
  | S n' => if Z.testbit b i then i else ctz_from n' (i + 1) b
  end.

(** [__builtin_ctzll]: index of the lowest set bit (the source asserts
    [b != 0]; the model answers 64 on the empty board). *)
Definition lsb (b : Z) : Z := ctz_from 64 0 b.

(** [pop_lsb]: the square returned and the board left *)
Definition pop_lsb (b : Z) : Z * Z := (lsb b, Z.land b (b - 1)).

Fixpoint popcount_pos (p : positive) : Z :=
  match p with
  | xH => 1
  | xO q => popcount_pos q
  | xI q => 1 + popcount_pos q
  end.

Definition popcount (b : Z) : Z :=
  match b with Zpos p => popcount_pos p | _ => 0 end.

Fixpoint squares_loop (n : nat) (b : Z) : list Z :=
  match n with
  | O => []
  | S n' =>
      if b =? 0 then []
      else let '(s, b') := pop_lsb b in s :: squares_loop n' b'
  end.

(** The squares visited by [while (b) { s = pop_lsb(b); ... }], in order.
    A 64-bit word loses one bit per round, so 64 rounds empty it. *)
Definition squares (b : Z) : list Z := squares_loop 64 b.

(** ** Attack tables ([Bitboards::init]) and sliding attacks *)

Definition on_board (f r : Z) : bool :=
  (0 <=? f) && (f <? 8) && (0 <=? r) && (r <? 8).

Definition add_target (f r : Z) (acc : Z) (d : Z * Z) : Z :=
  let nf := f + fst d in
  let nr := r + snd d in
  if on_board nf nr then Z.lor acc (bit (make_square nf nr)) else acc.

Definition knight_deltas : list (Z * Z) :=
  [(-2, -1); (-2, 1); (-1, -2); (-1, 2); (1, -2); (1, 2); (2, -1); (2, 1)].

Definition king_deltas : list (Z * Z) :=
  [(-1, -1); (-1, 0); (-1, 1); (0, -1); (0, 1); (1, -1); (1, 0); (1, 1)].

Definition knight_attacks (s : Z) : Z :=
  fold_left (add_target (file_of s) (rank_of s)) knight_deltas 0.

Definition king_attacks (s : Z) : Z :=
  fold_left (add_target (file_of s) (rank_of s)) king_deltas 0.

Definition pawn_attacks (c : Color) (s : Z) : Z :=
  let f := file_of s in
  let r := rank_of s in
  match c with
  | WHITE =>
      if r <? 7 then
        Z.lor (if 0 <? f then bit (make_square (f - 1) (r + 1)) else 0)
              (if f <? 7 then bit (make_square (f + 1) (r + 1)) else 0)
      else 0
  | BLACK =>
      if 0 <? r then
        Z.lor (if 0 <? f then bit (make_square (f - 1) (r - 1)) else 0)
              (if f <? 7 then bit (make_square (f + 1) (r - 1)) else 0)
      else 0
  end.

(** One ray of a classical slider scan: step by [(df, dr)] while on the
    board, add the square, stop after the first occupied one.  Each of the
    eight [for] loops of [rook_attacks_magic] and [bishop_attacks_magic] is
    this loop for its direction. *)
Fixpoint ray (n : nat) (f r df dr occ : Z) : Z :=
  match n with
  | O => 0
  | S n' =>
      let f' := f + df in
      let r' := r + dr in
      if on_board f' r' then
        let b := bit (make_square f' r') in
        if has occ b then b else Z.lor b (ray n' f' r' df dr occ)
      else 0
  end.

Definition rook_attacks_magic (s occ : Z) : Z :=
  let f := file_of s in
  let r := rank_of s in
  Z.lor (Z.lor (Z.lor (ray 7 f r 0 1 occ) (ray 7 f r 0 (-1) occ))
               (ray 7 f r 1 0 occ))
        (ray 7 f r (-1) 0 occ).

Definition bishop_attacks_magic (s occ : Z) : Z :=
  let f := file_of s in
  let r := rank_of s in
  Z.lor (Z.lor (Z.lor (ray 7 f r 1 1 occ) (ray 7 f r (-1) 1 occ))
               (ray 7 f r 1 (-1) occ))
        (ray 7 f r (-1) (-1) occ).

Definition queen_attacks_magic (s occ : Z) : Z :=
  Z.lor (rook_attacks_magic s occ) (bishop_attacks_magic s occ).

(** ** Zobrist keys

    [Zobrist::init] fills the key tables from [std::mt19937_64]; the tables
    are a parameter of the model. *)

Record ZobristKeys := {
  zk_pieces : Z -> Z -> Z -> Z;   (* [c][pt][sq] *)
  zk_side : Z;
  zk_castle : Z -> Z;
  zk_ep : Z -> Z
}.

(** ** Position *)

Record Position := {
  _pieces : list Z;          (* [_pieces[2][7]], flattened: index [7c + pt] *)
  board : list Z;            (* [board[64]] *)
  side : Color;
  occupied : Z;
  fifty : Z;
  ply : Z;
  game_ply : Z;
  ep_square : Z;
  castle_rook_sq : list Z;   (* [castle_rook_sq[2][2]], flattened: [2c + s] *)
  chess960 : bool;
  hash : Z;
  history : list Z           (* oldest first; [push_back] appends *)
}.

Definition pidx (c : Color) (pt : Z) : Z := 7 * color_z c + pt.
Definition cidx (c : Color) (s : Z) : Z := 2 * color_z c + s.

Definition pieces_get (ps : list Z) (c : Color) (pt : Z) : Z := aget 0 ps (pidx c pt).
Definition pieces_xor (ps : list Z) (c : Color) (pt : Z) (b : Z) : list Z :=
  aset ps (pidx c pt) (Z.lxor (pieces_get ps c pt) b).
Definition pieces_or (ps : list Z) (c : Color) (pt : Z) (b : Z) : list Z :=
  aset ps (pidx c pt) (Z.lor (pieces_get ps c pt) b).

Definition bb (p : Position) (c : Color) (pt : Z) : Z := pieces_get (_pieces p) c pt.
Definition side_to_move (p : Position) : Color := side p.
Definition occupied_bb (p : Position) : Z := occupied p.
Definition piece_on (p : Position) (s : Z) : Z := aget 0 (board p) s.
Definition halfmove_clock (p : Position) : Z := fifty p.
Definition fullmove_number (p : Position) : Z := game_ply p.
Definition ep_sq (p : Position) : Z := ep_square p.
Definition castle_rook (p : Position) (c : Color) (s : Z) : Z :=
  aget (-1) (castle_rook_sq p) (cidx c s).
Definition get_hash (p : Position) : Z := hash p.

(** [(c << 3) | pt] *)
Definition piece_code (c : Color) (pt : Z) : Z := Z.lor (Z.shiftl (color_z c) 3) pt.

Definition occupied_of (ps : list Z) : Z :=
  fold_left (fun occ c =>
    fold_left (fun occ pt => Z.lor occ (pieces_get ps c pt))
              [PAWN; KNIGHT; BISHOP; ROOK; QUEEN; KING] occ)
    [WHITE; BLACK] 0.

Definition castle_mask_of (cr : list Z) : Z :=
  let m0 := 0 in
  let m1 := if negb (aget (-1) cr (cidx WHITE 0) =? -1) then Z.lor m0 1 else m0 in
  let m2 := if negb (aget (-1) cr (cidx WHITE 1) =? -1) then Z.lor m1 2 else m1 in
  let m3 := if negb (aget (-1) cr (cidx BLACK 0) =? -1) then Z.lor m2 4 else m2 in
  if negb (aget (-1) cr (cidx BLACK 1) =? -1) then Z.lor m3 8 else m3.

Section Hashing.
Variable zk : ZobristKeys.

(** The value [compute_hash] stores in [hash] *)
Definition hash_of (ps : list Z) (sd : Color) (cr : list Z) (ep : Z) : Z :=
  let h1 :=
    fold_left (fun h c =>
      fold_left (fun h pt =>
        fold_left (fun h sq => Z.lxor h (zk_pieces zk (color_z c) pt sq))
                  (squares (pieces_get ps c pt)) h)
        [PAWN; KNIGHT; BISHOP; ROOK; QUEEN; KING] h)
      [WHITE; BLACK] 0 in
  let h2 := match sd with BLACK => Z.lxor h1 (zk_side zk) | WHITE => h1 end in
  let h3 := Z.lxor h2 (zk_castle zk (castle_mask_of cr)) in
  if negb (ep =? -1) then Z.lxor h3 (zk_ep zk ep) else h3.
End Hashing.

Definition set_hash (p : Position) (h : Z) : Position :=
  {| _pieces := _pieces p; board := board p; side := side p;
     occupied := occupied p; fifty := fifty p; ply := ply p;
     game_ply := game_ply p; ep_square := ep_square p;
     castle_rook_sq := castle_rook_sq p; chess960 := chess960 p;
     hash := h; history := history p |}.

Definition set_history (p : Position) (hs : list Z) : Position :=
  {| _pieces := _pieces p; board := board p; side := side p;
     occupied := occupied p; fifty := fifty p; ply := ply p;
     game_ply := game_ply p; ep_square := ep_square p;
     castle_rook_sq := castle_rook_sq p; chess960 := chess960 p;
     hash := hash p; history := hs |}.

Definition push_hash (p : Position) : Position :=
  set_history p (history p ++ [hash p]).

Definition pop_hash (p : Position) : Position :=
  set_history p (removelast (history p)).

Fixpoint is_repetition_loop (n : nat) (hs : list Z) (h : Z) (i c count : Z) : bool :=
  match n with
  | O => false
  | S n' =>
      if (0 <=? i) && (c <? count) then
        let c' := if aget 0 hs i =? h then c + 1 else c in
        if count <=? c' then true
        else is_repetition_loop n' hs h (i - 2) c' count
      else false
  end.

Definition is_repetition (p : Position) (count : Z) : bool :=
  is_repetition_loop (length (history p)) (history p) (hash p)
                     (Z.of_nat (length (history p)) - 2) 0 count.

Definition attacks_to_occ (p : Position) (s occ : Z) : Z :=
  let a1 := Z.land (pawn_attacks BLACK s) (bb p WHITE PAWN) in
  let a2 := Z.lor a1 (Z.land (pawn_attacks WHITE s) (bb p BLACK PAWN)) in
  let a3 := Z.lor a2 (Z.land (knight_attacks s)
                             (Z.lor (bb p WHITE KNIGHT) (bb p BLACK KNIGHT))) in
  let bishops := Z.lor (Z.lor (Z.lor (bb p WHITE BISHOP) (bb p BLACK BISHOP))
                              (bb p WHITE QUEEN)) (bb p BLACK QUEEN) in
  let a4 := Z.lor a3 (Z.land (bishop_attacks_magic s occ) bishops) in
  let rooks := Z.lor (Z.lor (Z.lor (bb p WHITE ROOK) (bb p BLACK ROOK))
                            (bb p WHITE QUEEN)) (bb p BLACK QUEEN) in
  let a5 := Z.lor a4 (Z.land (rook_attacks_magic s occ) rooks) in
  Z.lor a5 (Z.land (king_attacks s) (Z.lor (bb p WHITE KING) (bb p BLACK KING))).

Definition attacks_to (p : Position) (s : Z) : Z := attacks_to_occ p s (occupied p).

Definition own_pieces (p : Position) (c : Color) : Z :=
  fold_left (fun acc pt => Z.lor acc (bb p c pt))
            [PAWN; KNIGHT; BISHOP; ROOK; QUEEN; KING] 0.

Definition is_check (p : Position) : bool :=
  if bb p (side p) KING =? 0 then false
  else
    let ksq := lsb (bb p (side p) KING) in
    negb (Z.land (attacks_to p ksq) (not64 (own_pieces p (side p))) =? 0).

Definition is_attacked (p : Position) (s : Z) (by_ : Color) : bool :=
  negb (Z.land (attacks_to p s) (own_pieces p by_) =? 0).

Definition game_phase (p : Position) : Z :=
  let phase :=
    fold_left (fun ph c =>
      ph + popcount (bb p c KNIGHT) * PHASE_KNIGHT
         + popcount (bb p c BISHOP) * PHASE_BISHOP
         + popcount (bb p c ROOK) * PHASE_ROOK
         + popcount (bb p c QUEEN) * PHASE_QUEEN) [WHITE; BLACK] 0 in
  Z.min phase TOTAL_PHASE.

Definition is_endgame (p : Position) : bool := game_phase p <? 12.

Definition king_square (p : Position) (c : Color) : Z :=
  if bb p c KING =? 0 then -1 else lsb (bb p c KING).

Definition mover_in_check (p : Position) : bool :=
  let prev := flip (side p) in
  if bb p prev KING =? 0 then false
  else is_attacked p (lsb (bb p prev KING)) (side p).

(** [castling_rights]: four 7-bit slots holding square + 1 *)
Definition enc_slot (sq : Z) : Z := Z.land (sq + 1) 127.
Definition dec_slot (v : Z) : Z := Z.land v 127 - 1.

Definition castling_rights (p : Position) : Z :=
  Z.lor (Z.lor (Z.lor (enc_slot (castle_rook p WHITE 0))
                      (Z.shiftl (enc_slot (castle_rook p WHITE 1)) 7))
               (Z.shiftl (enc_slot (castle_rook p BLACK 0)) 14))
        (Z.shiftl (enc_slot (castle_rook p BLACK 1)) 21).

(** The slots [restore_castling_rights] writes *)
Definition unpack_castling (cr : list Z) (packed : Z) : list Z :=
  let cr1 := aset cr (cidx WHITE 0) (dec_slot packed) in
  let cr2 := aset cr1 (cidx WHITE 1) (dec_slot (Z.shiftr packed 7)) in
  let cr3 := aset cr2 (cidx BLACK 0) (dec_slot (Z.shiftr packed 14)) in
  aset cr3 (cidx BLACK 1) (dec_slot (Z.shiftr packed 21)).

Definition clear_position : Position :=
  {| _pieces := repeat 0 14; board := repeat 0 64; side := WHITE;
     occupied := 0; fifty := 0; ply := 0; game_ply := 0; ep_square := -1;
     castle_rook_sq := repeat (-1) 4; chess960 := false;
     hash := 0; history := [0] |}.

Section PositionOps.
Variable zk : ZobristKeys.

Definition compute_hash (p : Position) : Position :=
  set_hash p (hash_of zk (_pieces p) (side p) (castle_rook_sq p) (ep_square p)).

Definition make_move (p : Position) (m : Z) : Position :=
  if m =? NULL_MOVE then
    let sd := flip (side p) in
    let p1 :=
      {| _pieces := _pieces p; board := board p; side := sd;
         occupied := occupied p; fifty := fifty p; ply := ply p + 1;
         game_ply := (match sd with WHITE => game_ply p + 1 | BLACK => game_ply p end);
         ep_square := ep_square p; castle_rook_sq := castle_rook_sq p;
         chess960 := chess960 p; hash := hash p; history := history p |} in
    compute_hash (push_hash p1)
  else
    let from := from_sq m in
    let to := to_sq m in
    let pc := aget 0 (board p) from in
    let pt := Z.land pc 7 in
    let us := side p in
    let them := flip us in
    let captured := aget 0 (board p) to in
    let ps := pieces_xor (_pieces p) us pt (bit from) in
    let bd := aset (board p) from 0 in
    let cr := castle_rook_sq p in
    let '(ps, bd, cr, captured) :=
      if is_castling m then
        let side_idx := if from <? to then 0 else 1 in
        let rook_sq := aget (-1) cr (cidx us side_idx) in
        let castling_rank_mk := match us with WHITE => 0 | BLACK => 7 end in
        let rook_dest :=
          make_square (if side_idx =? 0 then 5 else 3) castling_rank_mk in
        let ps := pieces_xor ps us ROOK (bit rook_sq) in
        let ps := pieces_or ps us ROOK (bit rook_dest) in
        let bd := aset bd rook_sq 0 in
        let bd := aset bd rook_dest (piece_code us ROOK) in
        let cr := aset cr (cidx us side_idx) (-1) in
        (ps, bd, cr, captured)
      else if is_en_passant m then
        let ep_cap := to + (match us with WHITE => -8 | BLACK => 8 end) in
        let ep_pc := aget 0 bd ep_cap in
        if negb (ep_pc =? 0) then
          (pieces_xor ps them (Z.land ep_pc 7) (bit ep_cap),
           aset bd ep_cap 0, cr, ep_pc)
        else (ps, bd, cr, ep_pc)
      else (ps, bd, cr, captured) in
    let ps := pieces_or ps us pt (bit to) in
    let bd := aset bd to pc in
    let ps :=
      if negb (captured =? 0) && negb (is_en_passant m) && negb (is_castling m)
      then pieces_xor ps them (Z.land captured 7) (bit to) else ps in
    let '(ps, bd) :=
      if negb (promotion_type m =? 0) then
        let prom := promotion_type m in
        let ps := pieces_xor ps us pt (bit to) in
        let ps := pieces_or ps us prom (bit to) in
        (ps, aset bd to (piece_code us prom))
      else (ps, bd) in
    let cr :=
      if pt =? KING then aset (aset cr (cidx us 1) (-1)) (cidx us 0) (-1) else cr in
    let cr :=
      fold_left (fun cr s =>
        let cr := if from =? aget (-1) cr (cidx us s)
                  then aset cr (cidx us s) (-1) else cr in
        if from =? aget (-1) cr (cidx them s)
        then aset cr (cidx them s) (-1) else cr) [0; 1] cr in
    let ep :=
      if (pt =? PAWN) && (Z.abs (to - from) =? 16)
      then (match us with WHITE => from + 8 | BLACK => from - 8 end)
      else -1 in
    let fifty' :=
      if negb (captured =? 0) || (pt =? PAWN) then 0 else fifty p + 1 in
    let p1 :=
      {| _pieces := ps; board := bd; side := them;
         occupied := occupied_of ps; fifty := fifty'; ply := ply p + 1;
         game_ply := (match them with WHITE => game_ply p + 1 | BLACK => game_ply p end);
         ep_square := ep; castle_rook_sq := cr; chess960 := chess960 p;
         hash := hash p; history := history p |} in
    compute_hash (push_hash p1).

Definition undo_null_move (p : Position) : Position :=
  let sd := flip (side p) in
  let p1 :=
    {| _pieces := _pieces p; board := board p; side := sd;
       occupied := occupied p; fifty := fifty p; ply := ply p - 1;
       game_ply := (match sd with BLACK => game_ply p - 1 | WHITE => game_ply p end);
       ep_square := ep_square p; castle_rook_sq := castle_rook_sq p;
       chess960 := chess960 p; hash := hash p; history := history p |} in
  compute_hash (pop_hash p1).

Definition undo_move (p : Position) (m captured old_castle old_ep old_fifty : Z)
  : Position :=
  if m =? NULL_MOVE then undo_null_move p
  else
    let sd := flip (side p) in
    let from := from_sq m in
    let to := to_sq m in
    let pc := aget 0 (board p) to in
    let pt := Z.land pc 7 in
    let us := sd in
    let ps := pieces_xor (_pieces p) us pt (bit to) in
    let bd := aset (board p) to captured in
    let ps := pieces_or ps us pt (bit from) in
    let bd := aset bd from (piece_code us pt) in
    let ps :=
      if negb (captured =? 0) && negb (is_en_passant m) && negb (is_castling m)
      then pieces_or ps (flip us) (Z.land captured 7) (bit to) else ps in
    let '(ps, bd) :=
      if is_castling m then
        let side_idx := if from <? to then 0 else 1 in
        let orig_rook_sq :=
          if side_idx =? 0 then dec_slot old_castle
          else dec_slot (Z.shiftr old_castle 7) in
        let orig_rook_sq :=
          match us with
          | BLACK => if side_idx =? 0 then dec_slot (Z.shiftr old_castle 14)
                     else dec_slot (Z.shiftr old_castle 21)
          | WHITE => orig_rook_sq
          end in
        let castling_rank := match us with WHITE => 0 | BLACK => 7 end in
        let rook_dest :=
          make_square (if side_idx =? 0 then 5 else 3) castling_rank in
        let ps := pieces_xor ps us ROOK (bit rook_dest) in
        let ps := pieces_or ps us ROOK (bit orig_rook_sq) in
        let bd := aset bd rook_dest 0 in
        let bd := aset bd orig_rook_sq (piece_code us ROOK) in
        (ps, bd)
      else if is_en_passant m then
        let ep_cap := to + (match us with WHITE => -8 | BLACK => 8 end) in
        (pieces_or ps (flip us) PAWN (bit ep_cap),
         aset bd ep_cap (piece_code (flip us) PAWN))
      else (ps, bd) in
    let '(ps, bd) :=
      if negb (promotion_type m =? 0) then
        let ps := pieces_xor ps us (promotion_type m) (bit from) in
        let ps := pieces_or ps us PAWN (bit from) in
        (ps, aset bd from (piece_code us PAWN))
      else (ps, bd) in
    let p1 :=
      {| _pieces := ps; board := bd; side := sd;
         occupied := occupied_of ps; fifty := old_fifty; ply := ply p - 1;
         game_ply := (match sd with BLACK => game_ply p - 1 | WHITE => game_ply p end);
         ep_square := old_ep;
         castle_rook_sq := unpack_castling (castle_rook_sq p) old_castle;
         chess960 := chess960 p; hash := hash p; history := history p |} in
    compute_hash (pop_hash p1).

Definition gives_check (p : Position) (m : Z) : bool :=
  is_check (make_move p m).
End PositionOps.

(** ** FEN input ([Position::set_fen]) and the start position *)

Definition code (c : Ascii.ascii) : Z := Z.of_N (Ascii.N_of_ascii c).
Definition isupper (c : Z) : bool := (65 <=? c) && (c <=? 90).
Definition tolower (c : Z) : Z := if isupper c then c + 32 else c.

Fixpoint codes (s : String.string) : list Z :=
  match s with
  | String.EmptyString => []
  | String.String c t => code c :: codes t
  end.

(** [ss >> token]: whitespace-separated words *)
Fixpoint words_aux (cur : list Z) (cs : list Z) : list (list Z) :=
  match cs with
  | [] => match cur with [] => [] | _ => [rev cur] end
  | c :: t =>
      if c =? 32 then
        match cur with [] => words_aux [] t | _ => rev cur :: words_aux [] t end
      else words_aux (c :: cur) t
  end.

Definition words (s : String.string) : list (list Z) := words_aux [] (codes s).

(** [ss >> int] on a word of decimal digits; a failed read leaves 0 *)
Definition parse_int (w : list Z) : Z :=
  if forallb (fun c => (48 <=? c) && (c <=? 57)) w
  then fold_left (fun n c => 10 * n + (c - 48)) w 0 else 0.

Definition piece_of_letter (lc : Z) : Z :=
  if lc =? 112 then PAWN          (* p *)
  else if lc =? 110 then KNIGHT   (* n *)
  else if lc =? 98 then BISHOP    (* b *)
  else if lc =? 114 then ROOK     (* r *)
  else if lc =? 113 then QUEEN    (* q *)
  else if lc =? 107 then KING     (* k *)
  else NO_PIECE.

Definition fen_board_step (st : list Z * list Z * Z) (c : Z) : list Z * list Z * Z :=
  let '(ps, bd, sq) := st in
  if c =? 47 then (ps, bd, sq - 16)
  else if (49 <=? c) && (c <=? 56) then (ps, bd, sq + (c - 48))
  else
    let col := if isupper c then WHITE else BLACK in
    let pt := piece_of_letter (tolower c) in
    if negb (pt =? NO_PIECE) && (0 <=? sq) && (sq <? 64) then
      (pieces_or ps col pt (bit sq), aset bd sq (piece_code col pt), sq + 1)
    else (ps, bd, sq).

(** The first rook on the back rank strictly beyond the king, scanning files
    [f, f + step, ...]; -1 when there is none *)
Fixpoint find_rook_file (n : nat) (ps : list Z) (col : Color) (rank f step : Z) : Z :=
  match n with
  | O => -1
  | S n' =>
      if (0 <=? f) && (f <? 8) then
        if has (pieces_get ps col ROOK) (bit (make_square f rank)) then f
        else find_rook_file n' ps col rank (f + step) step
      else -1
  end.

Definition fen_castle_step (ps : list Z) (cr : list Z) (ch : Z) : list Z :=
  let col := if isupper ch then WHITE else BLACK in
  let rank := match col with WHITE => 0 | BLACK => 7 end in
  let lch := tolower ch in
  let ksq := lsb (pieces_get ps col KING) in
  let file :=
    if lch =? 107 then find_rook_file 8 ps col rank (file_of ksq + 1) 1
    else if lch =? 113 then find_rook_file 8 ps col rank (file_of ksq - 1) (-1)
    else lch - 97 in
  if (file <? 0) || (7 <? file) then cr
  else
    let rook_sq := make_square file rank in
    if Z.land (pieces_get ps col ROOK) (bit rook_sq) =? 0 then cr
    else
      let side_idx := if file_of ksq <? file then 0 else 1 in
      aset cr (cidx col side_idx) rook_sq.

Section Setup.
Variable zk : ZobristKeys.

Definition set_fen (fen : String.string) : Position :=
  let ws := words fen in
  let board_str := nth 0 ws [] in
  let side_str := nth 1 ws [] in
  let castle := nth 2 ws [] in
  let ep := nth 3 ws [] in
  let hmvc := parse_int (nth 4 ws []) in
  let fmvn := parse_int (nth 5 ws []) in
  let '(ps, bd, _) :=
    fold_left fen_board_step board_str (repeat 0 14, repeat 0 64, 56) in
  let sd := match side_str with [119] => WHITE | _ => BLACK end in
  let cr0 := repeat (-1) 4 in
  let cr := match castle with
            | [45] => cr0
            | _ => fold_left (fen_castle_step ps) castle cr0
            end in
  let c960 :=
    negb (aget (-1) cr (cidx WHITE 0) =? make_square 7 0)
    || negb (aget (-1) cr (cidx WHITE 1) =? make_square 0 0)
    || negb (aget (-1) cr (cidx BLACK 0) =? make_square 7 7)
    || negb (aget (-1) cr (cidx BLACK 1) =? make_square 0 7) in
  let eps := match ep with
             | [45] => -1
             | _ => make_square (nth 0 ep 0 - 97) (nth 1 ep 0 - 49)
             end in
  let p :=
    compute_hash zk
      {| _pieces := ps; board := bd; side := sd; occupied := occupied_of ps;
         fifty := hmvc; ply := 0; game_ply := fmvn; ep_square := eps;
         castle_rook_sq := cr; chess960 := c960; hash := 0; history := [0] |} in
  set_history p [hash p].

Definition init_startpos : Position :=
  let back := [ROOK; KNIGHT; BISHOP; QUEEN; KING; BISHOP; KNIGHT; ROOK] in
  let files := [0; 1; 2; 3; 4; 5; 6; 7] in
  let '(ps, bd) :=
    fold_left (fun '(ps, bd) f =>
      (pieces_or (pieces_or ps WHITE PAWN (bit (make_square f 1)))
                 BLACK PAWN (bit (make_square f 6)),
       aset (aset bd (make_square f 1) (piece_code WHITE PAWN))
            (make_square f 6) (piece_code BLACK PAWN)))
      files (repeat 0 14, repeat 0 64) in
  let '(ps, bd) :=
    fold_left (fun '(ps, bd) f =>
      let pt := aget 0 back f in
      (pieces_or (pieces_or ps WHITE pt (bit (make_square f 0)))
                 BLACK pt (bit (make_square f 7)),
       aset (aset bd (make_square f 0) (piece_code WHITE pt))
            (make_square f 7) (piece_code BLACK pt)))
      files (ps, bd) in
  let cr := [make_square 7 0; make_square 0 0; make_square 7 7; make_square 0 7] in
  let p :=
    compute_hash zk
      {| _pieces := ps; board := bd; side := WHITE; occupied := occupied_of ps;
         fifty := 0; ply := 0; game_ply := 1; ep_square := -1;
         castle_rook_sq := cr; chess960 := false; hash := 0; history := [0] |} in
  set_history p [hash p].
End Setup.

(** A sample key table, for running the model on concrete positions. *)
Definition sample_keys : ZobristKeys :=
  {| zk_pieces := fun c pt sq => 1 + 2 * (sq + 64 * (pt + 7 * c));
     zk_side := 4096;
     zk_castle := fun i => 8192 * (1 + i);
     zk_ep := fun s => 262144 * (1 + s) |}.

Definition startpos_fen : String.string :=
  "rnbqkbnr/pppppppp/8/8/8/8/PPPPPPPP/RNBQKBNR w KQkq - 0 1"%string.

(** ** Move generation ([generate_moves])

    The buffer [moves[count++] = m] is the list of moves in the order they
    are written. *)

(** The two inner [while] loops that every piece shares *)
Definition gen_targets (captures_only : bool) (from attacks their_pieces_no_king empty : Z)
  : list Z :=
  let caps := map (mk_move from) (squares (Z.land attacks their_pieces_no_king)) in
  if captures_only then caps
  else caps ++ map (mk_move from) (squares (Z.land attacks empty)).

Definition promotions (from to : Z) : list Z :=
  [make_promotion from to QUEEN; make_promotion from to ROOK;
   make_promotion from to BISHOP; make_promotion from to KNIGHT].

Definition gen_pawn (p : Position) (captures_only : bool) (us : Color)
           (their_pieces_no_king : Z) (from : Z) : list Z :=
  let forward := match us with WHITE => 8 | BLACK => -8 end in
  let promo_rank :=
    match us with WHITE => 18374686479671623680 | BLACK => 255 end in
  let to := from + forward in
  let pushes :=
    if negb captures_only && (0 <=? to) && (to <? 64) && (piece_on p to =? 0) then
      if has promo_rank (bit to) then promotions from to
      else
        mk_move from to ::
        (if match us with
            | WHITE => rank_of from =? 1
            | BLACK => rank_of from =? 6
            end
         then
           let to2 := from + 2 * forward in
           if piece_on p to2 =? 0 then [mk_move from to2] else []
         else [])
    else [] in
  let caps :=
    flat_map (fun to_cap =>
      if has promo_rank (bit to_cap) then promotions from to_cap
      else [mk_move from to_cap])
      (squares (Z.land (pawn_attacks us from) their_pieces_no_king)) in
  let eps :=
    if negb (ep_sq p =? -1) then
      if negb (Z.land (pawn_attacks us from) (bit (ep_sq p)) =? 0)
      then [Z.lor (mk_move from (ep_sq p)) ENPASSANT_FLAG] else []
    else [] in
  pushes ++ caps ++ eps.

Fixpoint king_path_ok (n : nat) (p : Position) (them : Color)
         (rook_sq king_dest step s : Z) : bool :=
  match n with
  | O => false
  | S n' =>
      if s =? king_dest then true
      else if negb (piece_on p s =? 0) && negb (s =? rook_sq) then false
      else if is_attacked p s them then false
      else king_path_ok n' p them rook_sq king_dest step (s + step)
  end.

Fixpoint rook_path_ok (n : nat) (p : Position) (ksq rook_dest step s : Z) : bool :=
  match n with
  | O => false
  | S n' =>
      if s =? rook_dest then true
      else if s =? ksq then rook_path_ok n' p ksq rook_dest step (s + step)
      else if negb (piece_on p s =? 0) then false
      else rook_path_ok n' p ksq rook_dest step (s + step)
  end.

Definition gen_castle (p : Position) (us : Color) (side_idx : Z) : list Z :=
  let them := flip us in
  let rook_sq := castle_rook p us side_idx in
  if rook_sq =? -1 then []
  else
    let ksq := lsb (bb p us KING) in
    if Z.land (bb p us ROOK) (bit rook_sq) =? 0 then []
    else
      let castling_rank_gen := match us with WHITE => 0 | BLACK => 7 end in
      let king_dest := make_square (if side_idx =? 0 then 6 else 2) castling_rank_gen in
      let rook_dest := make_square (if side_idx =? 0 then 5 else 3) castling_rank_gen in
      let rook_on_correct_side :=
        if side_idx =? 0 then ksq <? rook_sq else rook_sq <? ksq in
      if negb rook_on_correct_side then []
      else
        let ok :=
          if negb (king_dest =? ksq) then
            let step := if ksq <? king_dest then 1 else -1 in
            let ok := king_path_ok 64 p them rook_sq king_dest step (ksq + step) in
            let ok :=
              if ok && negb (piece_on p king_dest =? 0) && negb (king_dest =? rook_sq)
              then false else ok in
            if ok && is_attacked p king_dest them then false else ok
          else true in
        let ok :=
          if ok && negb (rook_dest =? rook_sq) then
            let step := if rook_sq <? rook_dest then 1 else -1 in
            rook_path_ok 64 p ksq rook_dest step (rook_sq + step)
          else ok in
        let ok := if ok && is_attacked p ksq them then false else ok in
        if ok then [Z.lor (mk_move ksq king_dest) CASTLE_FLAG] else [].

Definition generate_moves (p : Position) (captures_only : bool) : list Z :=
  let us := side_to_move p in
  let them := flip us in
  let their_pieces_no_king :=
    Z.lor (Z.lor (Z.lor (Z.lor (bb p them PAWN) (bb p them KNIGHT)) (bb p them BISHOP))
                 (bb p them ROOK)) (bb p them QUEEN) in
  let empty := not64 (occupied_bb p) in
  let gen attacks from := gen_targets captures_only from (attacks from) their_pieces_no_king empty in
  let knights := flat_map (gen knight_attacks) (squares (bb p us KNIGHT)) in
  let bishops :=
    flat_map (gen (fun from => bishop_attacks_magic from (occupied_bb p)))
             (squares (bb p us BISHOP)) in
  let rooks :=
    flat_map (gen (fun from => rook_attacks_magic from (occupied_bb p)))
             (squares (bb p us ROOK)) in
  let queens :=
    flat_map (gen (fun from => queen_attacks_magic from (occupied_bb p)))
             (squares (bb p us QUEEN)) in
  let king :=
    if negb (bb p us KING =? 0) then gen king_attacks (lsb (bb p us KING)) else [] in
  let pawns :=
    flat_map (gen_pawn p captures_only us their_pieces_no_king) (squares (bb p us PAWN)) in
  let castles :=
    if negb captures_only && negb (is_check p) && negb (bb p us KING =? 0)
    then flat_map (gen_castle p us) [0; 1] else [] in
  knights ++ bishops ++ rooks ++ queens ++ king ++ pawns ++ castles.

(** ** Transposition table ([TTEntry], [TranspositionTable]) *)

Record TTEntry := {
  e_key : Z;
  e_depth : Z;
  e_score : Z;
  e_bound : Bound;
  e_move : Z;
  e_age : Z;
  e_dtz : Z
}.

(** [TTEntry{}] *)
Definition empty_entry : TTEntry :=
  {| e_key := 0; e_depth := 0; e_score := 0; e_bound := BOUND_NONE;
     e_move := 0; e_age := 0; e_dtz := 0 |}.

Record TranspositionTable := {
  table : list TTEntry;
  size : Z;
  age : Z
}.

(** [sizeof(TTEntry)]: one 8-byte key and six 4-byte fields *)
Definition sizeof_TTEntry := 32.

(** The constructor [TranspositionTable(mb)] *)
Definition new_table (mb : Z) : TranspositionTable :=
  let n := mb * 1024 * 1024 / sizeof_TTEntry in
  {| table := repeat empty_entry (Z.to_nat n); size := n; age := 0 |}.

Definition new_search (tt : TranspositionTable) : TranspositionTable :=
  {| table := table tt; size := size tt; age := age tt + 1 |}.

(** [table[key % size]] *)
Definition bucket (tt : TranspositionTable) (key : Z) : TTEntry :=
  aget empty_entry (table tt) (key mod size tt).

Definition store (tt : TranspositionTable) (key depth score : Z) (bound : Bound)
           (move dtz : Z) : TranspositionTable :=
  let idx := key mod size tt in
  let e := aget empty_entry (table tt) idx in
  if (e_key e =? key) && (depth <? e_depth e) then tt
  else
    {| table := aset (table tt) idx
                  {| e_key := key; e_depth := depth; e_score := score;
                     e_bound := bound; e_move := move; e_age := age tt;
                     e_dtz := dtz |};
       size := size tt; age := age tt |}.

(** The three reference parameters [score], [move], [dtz] of [probe] *)
Record ProbeOut := { o_score : Z; o_move : Z; o_dtz : Z }.

Definition bound_eqb (a b : Bound) : bool :=
  match a, b with
  | BOUND_NONE, BOUND_NONE | BOUND_UPPER, BOUND_UPPER
  | BOUND_LOWER, BOUND_LOWER | BOUND_EXACT, BOUND_EXACT => true
  | _, _ => false
  end.

(** [probe]: the returned flag and the reference parameters after the call *)
Definition probe (tt : TranspositionTable) (key depth alpha beta : Z) (out : ProbeOut)
  : bool * ProbeOut :=
  let idx := key mod size tt in
  let e := aget empty_entry (table tt) idx in
  if negb (e_key e =? key) then (false, out)
  else
    let out' := {| o_score := e_score e; o_move := e_move e; o_dtz := e_dtz e |} in
    if e_depth e >=? depth then
      if bound_eqb (e_bound e) BOUND_EXACT then (true, out')
      else if bound_eqb (e_bound e) BOUND_LOWER && (e_score e >=? beta) then (true, out')
      else if bound_eqb (e_bound e) BOUND_UPPER && (e_score e <=? alpha) then (true, out')
      else (false, out')
    else (false, out').

(** What the specification's replacement rule would keep: a resident of
    strictly greater depth whose age is not newer than the table's. *)
Definition resident_kept_by_spec (tt : TranspositionTable) (key depth : Z) : bool :=
  (depth <? e_depth (bucket tt key)) && (e_age (bucket tt key) <=? age tt).

(** ** Captures, and the data-model invariants of a position *)

(** The square holds a piece of the side not to move *)
Definition enemy_piece_on (p : Position) (s : Z) : bool :=
  let pc := piece_on p s in
  negb (pc =? 0) && color_eqb (color_of_z (Z.shiftr pc 3)) (flip (side_to_move p)).

(** The destination is occupied by an enemy piece, or the move is an
    en-passant capture *)
Definition is_capture (p : Position) (m : Z) : bool :=
  enemy_piece_on p (to_sq m) || is_en_passant m.

Definition all_squares : list Z := map Z.of_nat (seq 0 64).
Definition piece_types : list Z := [PAWN; KNIGHT; BISHOP; ROOK; QUEEN; KING].
Definition colors : list Color := [WHITE; BLACK].

Definition is_u64 (b : Z) : bool := (0 <=? b) && (b <? 2 ^ 64).

(** On square [s] the mailbox and the bitboards agree: [board[s]] is the
    code of [(c, pt)] exactly when bit [s] of [_pieces[c][pt]] is set, and it
    is 0 exactly when bit [s] of [occupied] is clear. *)
Definition square_ok (p : Position) (s : Z) : bool :=
  forallb (fun c =>
    forallb (fun pt =>
      Bool.eqb (Z.testbit (bb p c pt) s) (piece_on p s =? piece_code c pt))
      piece_types) colors
  && Bool.eqb (Z.testbit (occupied_bb p) s) (negb (piece_on p s =? 0)).

(** The first two invariants of the data model, as a check *)
Definition position_ok (p : Position) : bool :=
  forallb (square_ok p) all_squares
  && forallb (fun c => forallb (fun pt => is_u64 (bb p c pt)) piece_types) colors.

(** The start position after 1. e4 a6 2. e5 d5: White may capture en passant
    on d6. *)
Definition en_passant_fen : String.string :=
  "rnbqkbnr/1pp1pppp/p7/3pP3/8/8/PPPP1PPP/RNBQKBNR w KQkq d6 0 3"%string.
Definition en_passant_pos : Position := set_fen sample_keys en_passant_fen.

(** Checks on the move encoding, run over all 64 x 64 square pairs *)
Definition enc_check (f t : Z) : bool :=
  (to_sq (mk_move f t) =? t) && negb (is_en_passant (mk_move f t))
  && forallb (fun pt => (to_sq (make_promotion f t pt) =? t)
                        && negb (is_en_passant (make_promotion f t pt)))
             [QUEEN; ROOK; BISHOP; KNIGHT]
  && (to_sq (Z.lor (mk_move f t) CASTLE_FLAG) =? t)
  && negb (is_en_passant (Z.lor (mk_move f t) CASTLE_FLAG))
  && is_en_passant (Z.lor (mk_move f t) ENPASSANT_FLAG).

(** Checks on one origin square: the pawn attack sets are 64-bit words and a
    double push from the second (seventh) rank stays on the board *)
Definition origin_check (f : Z) : bool :=
  is_u64 (pawn_attacks WHITE f) && is_u64 (pawn_attacks BLACK f)
  && implb (rank_of f =? 1) ((0 <=? f + 16) && (f + 16 <? 64))
  && implb (rank_of f =? 6) ((0 <=? f - 16) && (f - 16 <? 64)).

(** A 64-bit word: no bit set at position 64 or above *)
Definition U64 (b : Z) : Prop := 0 <= b /\ forall i, 64 <= i -> Z.testbit b i = false.

(** Equality of positions, as a check *)
Fixpoint zlist_eqb (a b : list Z) : bool :=
  match a, b with
  | [], [] => true
  | x :: a', y :: b' => (x =? y) && zlist_eqb a' b'
  | _, _ => false
  end.

Definition position_eqb (a b : Position) : bool :=
  zlist_eqb (_pieces a) (_pieces b) && zlist_eqb (board a) (board b)
  && color_eqb (side a) (side b) && (occupied a =? occupied b)
  && (fifty a =? fifty b) && (ply a =? ply b) && (game_ply a =? game_ply b)
  && (ep_square a =? ep_square b)
  && zlist_eqb (castle_rook_sq a) (castle_rook_sq b)
  && Bool.eqb (chess960 a) (chess960 b) && (hash a =? hash b)
  && zlist_eqb (history a) (history b).

(** The index of the lowest set bit of a positive number *)
Fixpoint low_pos (p : positive) : Z :=
  match p with
  | xO q => 1 + low_pos q
  | _ => 0
  end.

(** [m, m+1, ..., m+n-1] *)
Fixpoint upfrom (n : nat) (m : Z) : list Z :=
  match n with
  | O => []
  | S n' => m :: upfrom n' (m + 1)
  end.

(** ** Static exchange evaluation ([Position::see]) *)

Fixpoint first_attacker (p : Position) (stm : Color) (occ to : Z) (pts : list Z)
  : option (Z * Z) :=
  match pts with
  | [] => None
  | pt :: rest =>
      let attackers := Z.land (Z.land (bb p stm pt) occ) (attacks_to_occ p to occ) in
      if negb (attackers =? 0) then Some (pt, lsb attackers)
      else first_attacker p stm occ to rest
  end.

(** The capture loop of [see]; the gain stack is kept newest first. *)
Fixpoint see_loop (n : nat) (p : Position) (to occ : Z) (stm : Color)
         (piece_on_sq : Z) (gain : list Z) : list Z :=
  match n with
  | O => gain
  | S n' =>
      match first_attacker p stm occ to piece_types with
      | None => gain
      | Some (best_att_type, best_sq) =>
          let g := aget 0 PIECE_VALUES piece_on_sq - hd 0 gain in
          see_loop n' p to (Z.land occ (not64 (bit best_sq))) (flip stm)
                   best_att_type (g :: gain)
      end
  end.

(** [while (d > 0) { gain[d-1] = -max(-gain[d-1], gain[d]); d--; }] *)
Fixpoint see_rollup (top : Z) (below : list Z) : Z :=
  match below with
  | [] => top
  | gprev :: rest => see_rollup (- Z.max (- gprev) top) rest
  end.

Definition see (p : Position) (m : Z) : Z :=
  if m =? NULL_MOVE then 0
  else
    let from := from_sq m in
    let to := to_sq m in
    let us := side p in
    let ep := is_en_passant m in
    let promo := negb (promotion_type m =? NO_PIECE) in
    let occ := Z.land (occupied p) (not64 (bit from)) in
    let '(victim_type, occ) :=
      if ep then
        let ep_cap := to + (match us with WHITE => -8 | BLACK => 8 end) in
        (PAWN, Z.land occ (not64 (bit ep_cap)))
      else
        let captured := piece_on p to in
        if negb (captured =? 0)
        then (Z.land captured 7, Z.land occ (not64 (bit to)))
        else (0, occ) in
    let piece_on_sq := if promo then promotion_type m else Z.land (piece_on p from) 7 in
    let occ := Z.lor occ (bit to) in
    if victim_type =? 0 then 0
    else
      match see_loop 32 p to occ (flip us) piece_on_sq
                     [aget 0 PIECE_VALUES victim_type] with
      | [] => 0
      | top :: below => see_rollup top below
      end.

(** ** Sorting

    [std::sort] with a "greater score first" comparison; the order it gives
    to moves of equal score is unspecified, the model keeps them in their
    original order. *)

Fixpoint insert_desc {A : Type} (key : A -> Z) (x : A) (l : list A) : list A :=
  match l with
  | [] => [x]
  | y :: t => if key y <? key x then x :: y :: t else y :: insert_desc key x t
  end.

Definition sort_desc {A : Type} (key : A -> Z) (l : list A) : list A :=
  fold_right (insert_desc key) [] l.

(** ** Search state *)

Record Stack := {
  killers0 : Z;
  killers1 : Z;
  counter : Z;
  stack_ply : Z;
  static_eval : Z;
  in_check : bool;
  current_move : Z;
  captured_piece : Z;
  excluded_move : Z;
  current_piece_idx : Z
}.

Definition initial_frame (i : Z) : Stack :=
  {| killers0 := NO_MOVE; killers1 := NO_MOVE; counter := NO_MOVE; stack_ply := i;
     static_eval := 0; in_check := false; current_move := NO_MOVE;
     captured_piece := 0; excluded_move := -1; current_piece_idx := -1 |}.

Record ScoredMove := { sm_move : Z; sm_score : Z }.

(** The history arrays of [SearchThread] *)
Inductive HistoryArray :=
| history_ | butterfly_history | correction_history | cont_history
| counter_moves | follow_up_moves | capture_history.

Definition array_eqb (a b : HistoryArray) : bool :=
  match a, b with
  | history_, history_ | butterfly_history, butterfly_history
  | correction_history, correction_history | cont_history, cont_history
  | counter_moves, counter_moves | follow_up_moves, follow_up_moves
  | capture_history, capture_history => true
  | _, _ => false
  end.

(** Every array with its flattened index; all entries start at 0. *)
Definition Tables := HistoryArray -> Z -> Z.
Definition empty_tables : Tables := fun _ _ => 0.
Definition tset (t : Tables) (a : HistoryArray) (i v : Z) : Tables :=
  fun a' i' => if array_eqb a a' && (i =? i') then v else t a' i'.

Definition idx3 (a b c : Z) : Z := (a * 64 + b) * 64 + c.          (* [2][64][64] *)
Definition idx2 (a b : Z) : Z := a * 64 + b.                        (* [..][64] *)
Definition idx_cont (a b c d : Z) : Z := ((a * 64 + b) * 12 + c) * 64 + d.
Definition idx_cap (a b c : Z) : Z := (a * 6 + b) * 64 + c.         (* [12][6][64] *)

Record Search := {
  tt : TranspositionTable;
  nodes : Z;
  stop_search : bool;
  tb_hits : Z;
  stack : list Stack;
  tables : Tables
}.

Definition set_tt (s : Search) (t : TranspositionTable) : Search :=
  {| tt := t; nodes := nodes s; stop_search := stop_search s; tb_hits := tb_hits s;
     stack := stack s; tables := tables s |}.
Definition set_nodes (s : Search) (n : Z) : Search :=
  {| tt := tt s; nodes := n; stop_search := stop_search s; tb_hits := tb_hits s;
     stack := stack s; tables := tables s |}.
Definition set_stop (s : Search) (b : bool) : Search :=
  {| tt := tt s; nodes := nodes s; stop_search := b; tb_hits := tb_hits s;
     stack := stack s; tables := tables s |}.
Definition set_tb_hits (s : Search) (n : Z) : Search :=
  {| tt := tt s; nodes := nodes s; stop_search := stop_search s; tb_hits := n;
     stack := stack s; tables := tables s |}.
Definition set_stack (s : Search) (k : list Stack) : Search :=
  {| tt := tt s; nodes := nodes s; stop_search := stop_search s; tb_hits := tb_hits s;
     stack := k; tables := tables s |}.
Definition set_tables (s : Search) (t : Tables) : Search :=
  {| tt := tt s; nodes := nodes s; stop_search := stop_search s; tb_hits := tb_hits s;
     stack := stack s; tables := t |}.

Definition frame (s : Search) (ply : Z) : Stack := aget (initial_frame ply) (stack s) ply.

Definition set_frame (s : Search) (ply : Z) (f : Stack) : Search :=
  set_stack s (aset (stack s) ply f).

(** [stack[ply].static_eval = e; stack[ply].in_check = c;] *)
Definition note_eval (s : Search) (ply e : Z) (c : bool) : Search :=
  let f := frame s ply in
  set_frame s ply
    {| killers0 := killers0 f; killers1 := killers1 f; counter := counter f;
       stack_ply := stack_ply f; static_eval := e; in_check := c;
       current_move := current_move f; captured_piece := captured_piece f;
       excluded_move := excluded_move f; current_piece_idx := current_piece_idx f |}.

(** [stack[ply].captured_piece], [.current_move], [.current_piece_idx] after
    a move is made *)
Definition note_move (s : Search) (ply captured m piece_idx : Z) : Search :=
  let f := frame s ply in
  set_frame s ply
    {| killers0 := killers0 f; killers1 := killers1 f; counter := counter f;
       stack_ply := stack_ply f; static_eval := static_eval f; in_check := in_check f;
       current_move := m; captured_piece := captured;
       excluded_move := excluded_move f; current_piece_idx := piece_idx |}.

Definition note_killer (s : Search) (ply m : Z) : Search :=
  let f := frame s ply in
  if negb (killers0 f =? m) then
    set_frame s ply
      {| killers0 := m; killers1 := killers0 f; counter := counter f;
         stack_ply := stack_ply f; static_eval := static_eval f; in_check := in_check f;
         current_move := current_move f; captured_piece := captured_piece f;
         excluded_move := excluded_move f; current_piece_idx := current_piece_idx f |}
  else s.

(** [SearchThread]'s constructor state, with the shared table *)
Definition new_search_thread (t : TranspositionTable) : Search :=
  {| tt := t; nodes := 0; stop_search := false; tb_hits := 0;
     stack := map (fun i => initial_frame (Z.of_nat i)) (seq 0 (Z.to_nat MAX_PLY));
     tables := empty_tables |}.

Definition MAX_HISTORY := 16384.

(** [h += delta - h * abs(delta) / MAX_HISTORY] (good) or
    [h -= delta + h * abs(delta) / MAX_HISTORY], then the clamp *)
Definition gravity (h delta : Z) (good : bool) : Z :=
  let h' :=
    if good then h + (delta - Z.quot (h * Z.abs delta) MAX_HISTORY)
    else h - (delta + Z.quot (h * Z.abs delta) MAX_HISTORY) in
  Z.max (- MAX_HISTORY) (Z.min MAX_HISTORY h').

Definition bump (t : Tables) (a : HistoryArray) (i delta : Z) (good : bool) : Tables :=
  tset t a i (gravity (t a i) delta good).

Definition update_history (s : Search) (m depth : Z) (good captured : bool)
           (pos : Position) : Search :=
  let from := from_sq m in
  let to := to_sq m in
  let us := color_z (side_to_move pos) in
  let pt := Z.land (piece_on pos from) 7 in
  let piece_idx := us * 6 + (pt - 1) in
  let delta := depth * depth in
  let t := bump (tables s) history_ (idx3 us from to) delta good in
  let t :=
    if captured then
      let cap_pc := piece_on pos to in
      if negb (cap_pc =? 0) then
        let cap_pt := Z.land cap_pc 7 - 1 in
        if (0 <=? cap_pt) && (cap_pt <? 6)
        then bump t capture_history (idx_cap piece_idx cap_pt to) delta good
        else t
      else t
    else bump t butterfly_history (idx2 piece_idx to) delta good in
  set_tables s t.

Definition update_correction (s : Search) (m depth : Z) (good : bool) (us : Color)
  : Search :=
  set_tables s
    (bump (tables s) correction_history
          (idx3 (color_z us) (from_sq m) (to_sq m)) (depth * depth) good).

Definition update_continuation (s : Search) (m depth : Z) (good : bool)
           (pos : Position) (ply : Z) : Search :=
  if ply <=? 0 then s
  else
    let to := to_sq m in
    let us := color_z (side_to_move pos) in
    let pt := Z.land (piece_on pos (from_sq m)) 7 in
    let cur_piece_idx := us * 6 + (pt - 1) in
    let prev_piece_idx := current_piece_idx (frame s (ply - 1)) in
    if prev_piece_idx =? -1 then s
    else
      let prev_to := to_sq (current_move (frame s (ply - 1))) in
      set_tables s
        (bump (tables s) cont_history
              (idx_cont prev_piece_idx prev_to cur_piece_idx to) (depth * depth) good).

Definition reduction (improving : bool) (depth move_idx move_score : Z)
           (capture check : bool) : Z :=
  let r := LMR_BASE + Z.quot move_idx LMR_DIV in
  let r := if depth <? 3 then 0 else r in
  let r := if negb improving then r + 1 else r in
  let r := if capture then r - 1 else r in
  let r := if check then r - 1 else r in
  let r := if move_score <? 200000 then r + 1 else r in
  Z.max 0 (Z.min r (depth - 2)).

(** [lo, lo+1, ..., hi] *)
Definition zrange (lo hi : Z) : list Z :=
  map (fun i => lo + Z.of_nat i) (seq 0 (Z.to_nat (hi - lo + 1))).

(** [Evaluation::is_passed_pawn] *)
Definition is_passed_pawn (p : Position) (sq : Z) (c : Color) : bool :=
  let f := file_of sq in
  let r := rank_of sq in
  forallb (fun df =>
    let nf := f + df in
    if (nf <? 0) || (7 <? nf) then true
    else
      let start := match c with WHITE => r + 1 | BLACK => 0 end in
      let end_ := match c with WHITE => 7 | BLACK => r - 1 end in
      forallb (fun nr =>
        let pc := piece_on p (make_square nf nr) in
        negb (negb (pc =? 0) && (Z.land pc 7 =? PAWN)
              && negb (Z.shiftr pc 3 =? color_z c)))
        (zrange start end_))
    [-1; 0; 1].

Definition TB_RESULT_FAILED := 4294967295.
Definition TB_WIN := 2.
Definition TB_LOSS := 0.
Definition TB_DRAW := 1.
Definition TB_CURSED_WIN := 3.
Definition TB_BLESSED_LOSS := -1.

Definition wdl_to_score (wdl ply : Z) : Z :=
  if wdl =? TB_WIN then MATE_SCORE - ply - 1
  else if wdl =? TB_LOSS then - MATE_SCORE + ply + 1
  else if wdl =? TB_DRAW then 0
  else if wdl =? TB_CURSED_WIN then 1
  else if wdl =? TB_BLESSED_LOSS then -1
  else 0.

(** A search function either returns at once or goes on with a value. *)
Inductive Flow (A : Type) : Type :=
| Ret (r : Search * Position * Z)
| Go (a : A).
Arguments Ret {A} r.
Arguments Go {A} a.

(** The king may not be captured: [piece_on(to) && (piece_on(to) & 7) == KING] *)
Definition takes_king (pos : Position) (m : Z) : bool :=
  negb (piece_on pos (to_sq m) =? 0) && (Z.land (piece_on pos (to_sq m)) 7 =? KING).

(** [cur_piece_idx] as the move loops compute it *)
Definition moving_piece_idx (pos : Position) (m : Z) : Z :=
  let moving_pt := Z.land (piece_on pos (from_sq m)) 7 in
  let moving_pt := if negb (promotion_type m =? NO_PIECE) then promotion_type m
                   else moving_pt in
  color_z (side_to_move pos) * 6 + (moving_pt - 1).

Section SearchThread.
(** What the search consults outside the repository's own state: the key
    tables, the evaluator ([eval.evaluate]), the learning table, the clock of
    the time manager (asked at a node count), the node limit and the Syzygy
    probes.  The model is of one search thread ([Threads] = 1): the YBWC
    split, taken only when [total_threads > 1], is left out, and so is the
    principal variation, which is output only. *)
Variable zk : ZobristKeys.
Variable eval_evaluate : Position -> Z.
Variable learning_probe : Z -> Z.
Variable tm_stop_early : Z -> bool.
Variable node_limit : Z.
Variable tb_can_probe : Position -> bool.
Variable tb_probe_wdl : Position -> Z.
Variable tb_probe_dtz : Position -> Z * bool.

Definition NegamaxFn : Type :=
  Search -> Position -> Z -> Z -> Z -> Z -> bool -> Z -> Search * Position * Z.
Definition QuiescenceFn : Type :=
  Search -> Position -> Z -> Z -> Z -> Z -> Search * Position * Z.

(** [eval.evaluate(pos) + learning.probe(pos.get_hash())] *)
Definition static_evaluation (pos : Position) : Z :=
  eval_evaluate pos + learning_probe (get_hash pos).

(** The poll every 256 nodes: [Some] is "return 0" with the state to keep *)
Definition poll (st : Search) : option Search :=
  if nodes st mod 256 =? 0 then
    if stop_search st then Some st
    else if tm_stop_early (nodes st) then Some (set_stop st true)
    else None
  else None.

Definition over_node_limit (st : Search) : bool :=
  (0 <? node_limit) && (node_limit <=? nodes st).

Definition dtz_score (dtz ply : Z) : Z :=
  let dist := Z.abs dtz in
  if 0 <? dtz then MATE_SCORE - dist - ply else - MATE_SCORE + dist + ply.

Definition score_move (st : Search) (m ply tt_move : Z) (pos : Position)
           (idx : Z) (captured : bool) : Z :=
  let s := 0 in
  let s := if m =? tt_move then s + 1000000 else s in
  let s :=
    if ply <? MAX_PLY then
      if m =? killers0 (frame st ply) then s + 900000
      else if m =? killers1 (frame st ply) then s + 800000 else s
    else s in
  let s :=
    if 0 <? ply then
      let last := current_move (frame st (ply - 1)) in
      if m =? tables st counter_moves (idx2 (from_sq last) (to_sq last))
      then s + 700000 else s
    else s in
  let s :=
    if 1 <? ply then
      let last2 := current_move (frame st (ply - 2)) in
      if m =? tables st follow_up_moves (idx2 (from_sq last2) (to_sq last2))
      then s + 600000 else s
    else s in
  let us := color_z (side_to_move pos) in
  let from := from_sq m in
  let to := to_sq m in
  let pt := Z.land (piece_on pos from) 7 in
  let piece_idx := us * 6 + (pt - 1) in
  let s := s + tables st history_ (idx3 us from to) in
  let s := s + Z.quot (tables st butterfly_history (idx2 piece_idx to)) 4 in
  let s := s + Z.quot (tables st correction_history (idx3 us from to)) 8 in
  let s :=
    if 0 <? ply then
      let prev_piece_idx := current_piece_idx (frame st (ply - 1)) in
      if negb (prev_piece_idx =? -1) then
        let prev_to := to_sq (current_move (frame st (ply - 1))) in
        s + Z.quot (tables st cont_history
                      (idx_cont prev_piece_idx prev_to piece_idx to)) 8
      else s
    else s in
  let s :=
    if negb (piece_on pos to =? 0) then
      let cap_pt := Z.land (piece_on pos to) 7 - 1 in
      let s := if (0 <=? cap_pt) && (cap_pt <? 6)
               then s + Z.quot (tables st capture_history (idx_cap piece_idx cap_pt to)) 4
               else s in
      s + 500000 + see pos m * 100
    else s in
  let s := if gives_check zk pos m then s + 400000 else s in
  if (ply <? 5) && ((idx <? 3) || captured) then
    let child := make_move zk pos m in
    let '(hit, out) :=
      probe (tt st) (get_hash child) 0 (- INF) INF
            {| o_score := 0; o_move := 0; o_dtz := 0 |} in
    if hit && negb (o_dtz out =? 0) then
      if 0 <? o_dtz out then s + (5000 - o_dtz out * 100)
      else s + (3000 + o_dtz out * 100)
    else s
  else s.

(** *** Quiescence *)

(** One round of the move loop of [quiescence]; [Ret] is the [return beta]. *)
Definition quiescence_move (qrec : QuiescenceFn) (in_check_ : bool)
           (stand_pat beta ply q_depth : Z)
           (acc : Flow (Search * Position * Z * Z)) (m : Z)
  : Flow (Search * Position * Z * Z) :=
  match acc with
  | Ret r => Ret r
  | Go (st, pos, alpha, legal_count) =>
      if takes_king pos m then acc
      else if negb in_check_ && (see pos m + 200 + stand_pat <? alpha) then acc
      else
        let captured := piece_on pos (to_sq m) in
        let cur_piece_idx := moving_piece_idx pos m in
        let old_castle := castling_rights pos in
        let old_ep := ep_sq pos in
        let old_fifty := halfmove_clock pos in
        let pos1 := make_move zk pos m in
        let st := note_move st ply captured m cur_piece_idx in
        if mover_in_check pos1 then
          Go (st, undo_move zk pos1 m captured old_castle old_ep old_fifty,
              alpha, legal_count)
        else
          let '(st, pos2, v) := qrec st pos1 (- beta) (- alpha) (ply + 1) (q_depth + 1) in
          let score := - v in
          let pos3 := undo_move zk pos2 m captured old_castle old_ep old_fifty in
          if beta <=? score then Ret (st, pos3, beta)
          else Go (st, pos3, (if alpha <? score then score else alpha), legal_count + 1)
  end.

Definition quiescence_body (qrec : QuiescenceFn) (st : Search) (pos : Position)
           (alpha beta ply q_depth : Z) : Search * Position * Z :=
  let st := set_nodes st (nodes st + 1) in
  match poll st with
  | Some st' => (st', pos, 0)
  | None =>
      if over_node_limit st then (set_stop st true, pos, 0)
      else if is_repetition pos 2 then (st, pos, 0)
      else if tb_can_probe pos && snd (tb_probe_dtz pos)
      then (st, pos, dtz_score (fst (tb_probe_dtz pos)) ply)
      else
        let in_check_ := is_check pos in
        let stand_pat := static_evaluation pos in
        if negb in_check_ && (beta <=? stand_pat) then (st, pos, beta)
        else
          let alpha :=
            if negb in_check_ && (alpha <? stand_pat) then stand_pat else alpha in
          let moves := if in_check_ then generate_moves pos false
                       else generate_moves pos true in
          let moves := sort_desc (see pos) moves in
          match fold_left (quiescence_move qrec in_check_ stand_pat beta ply q_depth)
                          moves (Go (st, pos, alpha, 0)) with
          | Ret r => r
          | Go (st, pos, alpha, legal_count) =>
              if in_check_ && (legal_count =? 0) then (st, pos, - MATE_SCORE + ply)
              else (st, pos, alpha)
          end
  end.

(** [quiescence]: the recursion stops when [q_depth] reaches
    [MAX_QSEARCH_DEPTH], so the rounds left are counted down from there. *)
Fixpoint quiescence_rounds (n : nat) (st : Search) (pos : Position)
         (alpha beta ply q_depth : Z) : Search * Position * Z :=
  match n with
  | O => (st, pos, static_evaluation pos)
  | S n' =>
      if MAX_PLY <=? ply then (st, pos, static_evaluation pos)
      else quiescence_body (quiescence_rounds n') st pos alpha beta ply q_depth
  end.

Definition quiescence (st : Search) (pos : Position) (alpha beta ply q_depth : Z)
  : Search * Position * Z :=
  quiescence_rounds (Z.to_nat (MAX_QSEARCH_DEPTH - q_depth)) st pos alpha beta ply q_depth.
(** *** ProbCut *)

Definition probcut_move (nrec : NegamaxFn) (depth alpha beta ply margin : Z)
           (acc : Flow (Search * Position * Z)) (m : Z) : Flow (Search * Position * Z) :=
  match acc with
  | Ret r => Ret r
  | Go (st, pos, best) =>
      if takes_king pos m then acc
      else
        let captured := piece_on pos (to_sq m) in
        if captured =? 0 then acc
        else
          let victim := Z.land captured 7 in
          let attacker := Z.land (piece_on pos (from_sq m)) 7 in
          let gain := aget 0 PIECE_VALUES victim - aget 0 PIECE_VALUES attacker in
          if gain + margin <? alpha then acc
          else
            let cur_piece_idx := moving_piece_idx pos m in
            let old_castle := castling_rights pos in
            let old_ep := ep_sq pos in
            let old_fifty := halfmove_clock pos in
            let pos1 := make_move zk pos m in
            let st := note_move st ply captured m cur_piece_idx in
            let st := set_nodes st (nodes st + 1) in
            let '(st, pos2, v) :=
              nrec st pos1 (depth - 4) (- alpha - margin) (- alpha + margin)
                   (ply + 1) true NO_MOVE in
            let score := - v in
            let pos3 := undo_move zk pos2 m captured old_castle old_ep old_fifty in
            let best := if best <? score then score else best in
            if beta <=? score then Ret (st, pos3, score) else Go (st, pos3, best)
  end.

Definition probcut (nrec : NegamaxFn) (st : Search) (pos : Position)
           (depth alpha beta ply : Z) : Search * Position * Z :=
  if depth <? PROBCUT_DEPTH then (st, pos, - INF)
  else
    let moves := generate_moves pos true in
    let margin := PROBCUT_MARGIN_BASE + PROBCUT_MARGIN_PER_DEPTH * depth in
    match fold_left (probcut_move nrec depth alpha beta ply margin) moves
                    (Go (st, pos, - INF)) with
    | Ret r => r
    | Go (st, pos, best) => (st, pos, if beta <=? best then best else - INF)
    end.

(** *** Negamax, block by block *)

(** Early exits, up to mate-distance pruning; goes on with the clamped window *)
Definition negamax_entry (st : Search) (pos : Position) (depth alpha beta ply : Z)
  : Flow (Search * Z * Z) :=
  if MAX_PLY <=? ply then Ret (st, pos, static_evaluation pos)
  else
    match poll st with
    | Some st' => Ret (st', pos, 0)
    | None =>
        if over_node_limit st then Ret (set_stop st true, pos, 0)
        else if is_repetition pos 2 then Ret (st, pos, 0)
        else if tb_can_probe pos && (depth <=? 0)
                && negb (tb_probe_wdl pos =? TB_RESULT_FAILED)
        then Ret (set_tb_hits st (tb_hits st + 1), pos,
                  wdl_to_score (tb_probe_wdl pos) ply)
        else
          let alpha := Z.max alpha (- MATE_SCORE + ply) in
          let beta := Z.min beta (MATE_SCORE - ply - 1) in
          if beta <=? alpha then Ret (st, pos, alpha) else Go (st, alpha, beta)
    end.

(** What the later blocks read from the transposition stage *)
Record Probed := {
  pr_in_check : bool;
  pr_static_eval : Z;
  pr_key : Z;
  pr_tt_hit : bool;
  pr_tt_score : Z;
  pr_tt_move : Z;
  pr_tt_dtz : Z
}.

(** The transposition probe, the return on a hit, the tablebase store and DTZ
    pruning *)
Definition negamax_probe (st : Search) (pos : Position) (depth alpha beta ply : Z)
  : Flow (Search * Probed) :=
  let in_check_ := is_check pos in
  let static_eval_ := static_evaluation pos in
  let st := note_eval st ply static_eval_ in_check_ in
  let key := get_hash pos in
  let tt_move := NO_MOVE in
  let tt_score := static_eval_ in
  let tt_dtz := 0 in
  let '(tt_hit, out) :=
    probe (tt st) key depth alpha beta
          {| o_score := tt_score; o_move := tt_move; o_dtz := tt_dtz |} in
  let tt_score := o_score out in
  let tt_move := o_move out in
  let tt_dtz := o_dtz out in
  if tt_hit then
    if negb (tt_dtz =? 0) then Ret (st, pos, dtz_score tt_dtz ply)
    else if MATE_OFFSET <? tt_score
    then Ret (st, pos, Z.min (tt_score - ply) (MATE_SCORE - 1))
    else if tt_score <? - MATE_OFFSET
    then Ret (st, pos, Z.max (tt_score + ply) (- MATE_SCORE + 1))
    else Ret (st, pos, tt_score)
  else
    let st :=
      if tb_can_probe pos && (depth <=? 3) && (tt_dtz =? 0) && negb tt_hit
         && snd (tb_probe_dtz pos)
      then set_tt st (store (tt st) key depth 0 BOUND_NONE NO_MOVE (fst (tb_probe_dtz pos)))
      else st in
    if negb (tt_dtz =? 0) && (Z.abs tt_dtz <=? depth) && (0 <? tt_dtz)
    then Ret (st, pos, MATE_SCORE - tt_dtz - ply - 1)
    else
      Go (st, {| pr_in_check := in_check_; pr_static_eval := static_eval_;
                 pr_key := key; pr_tt_hit := tt_hit; pr_tt_score := tt_score;
                 pr_tt_move := tt_move; pr_tt_dtz := tt_dtz |}).

(** The singular-extension block: the state, the position and the depth the
    search goes on with *)
Definition negamax_singular (nrec : NegamaxFn) (st : Search) (pos : Position)
           (depth ply excluded : Z) (pr : Probed) : Search * Position * Z :=
  if pr_tt_hit pr && (SINGULAR_EXTENSION_DEPTH <=? depth)
     && negb (pr_tt_move pr =? NO_MOVE) && (excluded =? NO_MOVE)
     && negb (pr_in_check pr) && (Z.abs (pr_tt_score pr) <? MATE_SCORE - MAX_PLY)
  then
    let singular_beta := Z.max (pr_tt_score pr - SINGULAR_MARGIN) (- INF) in
    let singular_depth := Z.quot depth 2 in
    let '(st, pos, v) :=
      nrec st pos singular_depth (- singular_beta) (- singular_beta + 1) ply false
           (pr_tt_move pr) in
    let singular_score := - v in
    if singular_score <=? singular_beta then (st, pos, depth + 1) else (st, pos, depth)
  else (st, pos, depth).

(** Lines from the probe to the end of the singular block, as one step *)
Definition negamax_probe_and_singular (nrec : NegamaxFn) (st : Search) (pos : Position)
           (depth alpha beta ply excluded : Z) : Flow (Search * Position * Z * Probed) :=
  match negamax_probe st pos depth alpha beta ply with
  | Ret r => Ret r
  | Go (st, pr) =>
      let '(st, pos, depth) := negamax_singular nrec st pos depth ply excluded pr in
      Go (st, pos, depth, pr)
  end.

Definition has_non_pawn (pos : Position) (c : Color) : bool :=
  existsb (fun pt => negb (bb pos c pt =? 0)) [KNIGHT; BISHOP; ROOK; QUEEN].

(** Quiescence drop, ProbCut, null move, razoring, static null move and
    full-node futility *)
Definition negamax_pruning (nrec : NegamaxFn) (st : Search) (pos : Position)
           (depth alpha beta ply : Z) (cut : bool) (pr : Probed)
  : Flow (Search * Position) :=
  let in_check_ := pr_in_check pr in
  let static_eval_ := pr_static_eval pr in
  if depth <=? 0 then Ret (quiescence st pos alpha beta ply 0)
  else
    let after_probcut : Flow (Search * Position) :=
      if (PROBCUT_DEPTH <=? depth) && negb in_check_ && (Z.abs beta <? MATE_SCORE - 1000)
      then
        let '(st, pos, pc_score) := probcut nrec st pos depth alpha beta ply in
        if negb (pc_score =? - INF) then Ret (st, pos, pc_score) else Go (st, pos)
      else Go (st, pos) in
    match after_probcut with
    | Ret r => Ret r
    | Go (st, pos) =>
    let after_null : Flow (Search * Position) :=
      if negb in_check_ && (2 <=? depth) && cut
         && has_non_pawn pos (side_to_move pos)
         && (has_non_pawn pos WHITE || has_non_pawn pos BLACK)
      then
        let pos1 := make_move zk pos NULL_MOVE in
        let R := NULL_MOVE_R + Z.quot depth 6 in
        let '(st, pos2, v) :=
          nrec st pos1 (depth - R - 1) (- beta) (- beta + 1) (ply + 1) false NO_MOVE in
        let score := - v in
        let pos3 := undo_null_move zk pos2 in
        if beta <=? score then Ret (st, pos3, beta) else Go (st, pos3)
      else Go (st, pos) in
    match after_null with
    | Ret r => Ret r
    | Go (st, pos) =>
    let after_razor : Flow (Search * Position) :=
      if negb in_check_ && (depth <=? 6) then
        let razor_margin :=
          if depth <=? 1 then RAZOR_MARGIN_D1
          else if depth =? 2 then RAZOR_MARGIN_D2
          else if depth =? 3 then RAZOR_MARGIN_D3
          else RAZOR_MARGIN_D3 + 50 * (depth - 3) in
        if static_eval_ + razor_margin <? alpha then
          if depth <=? 3 then
            let '(st, pos, rscore) :=
              quiescence st pos alpha (alpha + 1) ply 0 in
            if rscore <=? alpha then Ret (st, pos, rscore) else Go (st, pos)
          else
            let '(st, pos, v) :=
              nrec st pos (depth - 4) (- alpha - 1) (- alpha) ply false NO_MOVE in
            let rscore := - v in
            if rscore <=? alpha then Ret (st, pos, rscore) else Go (st, pos)
        else Go (st, pos)
      else Go (st, pos) in
    match after_razor with
    | Ret r => Ret r
    | Go (st, pos) =>
        if negb in_check_ && (7 <? depth) && (beta <=? static_eval_ - 200)
        then Ret (st, pos, static_eval_)
        else if negb in_check_ && (depth <=? 7)
                && (beta <=? static_eval_ - FUTILITY_MARGIN_FACTOR * depth)
        then Ret (st, pos, static_eval_)
        else Go (st, pos)
    end end end.
(** [i, x] for every element, as the index-based [for] loops see them *)
Definition indexed {A : Type} (l : list A) : list (Z * A) :=
  combine (map Z.of_nat (seq 0 (length l))) l.

(** The scored move list: every generated move but [excluded], with its
    ordering score, sorted best first *)
Definition score_moves (st : Search) (pos : Position) (moves : list Z)
           (ply tt_move excluded : Z) : list ScoredMove :=
  let scored :=
    flat_map (fun '(i, m) =>
      if m =? excluded then []
      else
        let captured := negb (piece_on pos (to_sq m) =? 0) in
        [{| sm_move := m; sm_score := score_move st m ply tt_move pos i captured |}])
      (indexed moves) in
  sort_desc sm_score scored.

(** Multi-cut: one of the first three moves; the count of fail-highs *)
Definition multi_cut_move (nrec : NegamaxFn) (pos : Position)
           (depth beta ply tt_move : Z)
           (acc : Flow (Search * Z)) (sm : ScoredMove) : Flow (Search * Z) :=
  match acc with
  | Ret r => Ret r
  | Go (st, mc_count) =>
      let m := sm_move sm in
      if m =? tt_move then acc
      else if takes_king pos m then acc
      else
        let pos2 := make_move zk pos m in
        if mover_in_check pos2 then acc
        else
          let '(st, _, v) :=
            nrec st pos2 (Z.quot depth 2) (- beta) (- beta + 1) (ply + 1) false NO_MOVE in
          let score := - v in
          if beta <=? score then
            if 2 <=? mc_count + 1 then Ret (st, pos, beta) else Go (st, mc_count + 1)
          else Go (st, mc_count)
  end.

(** Generation, the empty-list exit, ordering, multi-cut and internal
    iterative deepening; goes on with the scored moves *)
Definition negamax_ordering (nrec : NegamaxFn) (st : Search) (pos : Position)
           (depth alpha beta ply : Z) (cut : bool) (excluded : Z) (pr : Probed)
  : Flow (Search * Position * list ScoredMove) :=
  let in_check_ := pr_in_check pr in
  let tt_move := pr_tt_move pr in
  let moves := generate_moves pos false in
  match moves with
  | [] => Ret (st, pos, if in_check_ then - MATE_SCORE + ply else 0)
  | _ =>
      let scored := score_moves st pos moves ply tt_move excluded in
      let after_multi_cut : Flow (Search * Z) :=
        if (6 <=? depth) && negb in_check_ && cut && negb (tt_move =? NO_MOVE)
        then fold_left (multi_cut_move nrec pos depth beta ply tt_move)
                       (firstn 3 scored) (Go (st, 0))
        else Go (st, 0) in
      match after_multi_cut with
      | Ret r => Ret r
      | Go (st, _) =>
          if (tt_move =? NO_MOVE) && (IID_DEPTH <=? depth) then
            let '(st, pos, _) :=
              nrec st pos (depth - IID_REDUCTION) alpha beta ply false NO_MOVE in
            Go (st, pos, scored)
          else Go (st, pos, scored)
      end
  end.

(** The variables the move loop carries from round to round *)
Record Loop := {
  l_st : Search;
  l_pos : Position;
  l_alpha : Z;
  l_best_score : Z;
  l_best_move : Z;
  l_bound : Bound;
  l_break : bool
}.

(** The table updates at a beta cutoff by move [m], the [i]-th of [scored] *)
Definition on_cutoff (st : Search) (pos : Position) (scored : list ScoredMove)
           (i m depth ply captured : Z) (us : Color) : Search :=
  let earlier := map sm_move (firstn (Z.to_nat i) scored) in
  if captured =? 0 then
    let st := note_killer st ply m in
    let st := update_history st m depth true false pos in
    let st := update_correction st m depth true us in
    let st := update_continuation st m depth true pos ply in
    let st :=
      fold_left (fun st mj =>
        if piece_on pos (to_sq mj) =? 0 then
          let st := update_history st mj depth false false pos in
          let st := update_correction st mj depth false us in
          update_continuation st mj depth false pos ply
        else st) earlier st in
    let st :=
      if 0 <? ply then
        let last := current_move (frame st (ply - 1)) in
        set_tables st (tset (tables st) counter_moves
                            (idx2 (from_sq last) (to_sq last)) m)
      else st in
    if 1 <? ply then
      let last2 := current_move (frame st (ply - 2)) in
      set_tables st (tset (tables st) follow_up_moves
                          (idx2 (from_sq last2) (to_sq last2)) m)
    else st
  else
    let st := update_history st m depth true true pos in
    fold_left (fun st mj =>
      if negb (piece_on pos (to_sq mj) =? 0)
      then update_history st mj depth false true pos else st) earlier st.

(** One round of the normal move loop; [Ret] is the [return 0] on stop. *)
Definition negamax_move (nrec : NegamaxFn) (scored : list ScoredMove)
           (depth beta ply : Z) (in_check_ : bool) (static_eval_ : Z) (improving : bool)
           (acc : Flow Loop) (ism : Z * ScoredMove) : Flow Loop :=
  match acc with
  | Ret r => Ret r
  | Go l =>
      if l_break l then acc
      else
        let '(i, sm) := ism in
        let m := sm_move sm in
        let st := l_st l in
        let pos := l_pos l in
        let alpha := l_alpha l in
        if takes_king pos m then acc
        else if (depth <=? 3) && negb in_check_ && (piece_on pos (to_sq m) =? 0)
                && (static_eval_
                    + (SEE_QUIET_MARGIN + depth * 50
                       + (if sm_score sm <? 500000 then 4 * depth else 0)) <=? alpha)
        then acc
        else if (piece_on pos (to_sq m) =? 0) && negb in_check_ && (depth <=? 7)
                && (LMP_BASE + depth * LMP_FACTOR <=? i)
                && (negb improving || (LMP_BASE + depth * LMP_FACTOR * 2 <=? i))
        then acc
        else
          let captured := piece_on pos (to_sq m) in
          let us := side_to_move pos in
          let gives_check_ := gives_check zk pos m in
          let was_promotion := negb (promotion_type m =? NO_PIECE) in
          let moving_pt :=
            if was_promotion then promotion_type m
            else Z.land (piece_on pos (from_sq m)) 7 in
          let old_castle := castling_rights pos in
          let old_ep := ep_sq pos in
          let old_fifty := halfmove_clock pos in
          let pos1 := make_move zk pos m in
          let st := note_move st ply captured m (moving_piece_idx pos m) in
          if mover_in_check pos1 then
            Go {| l_st := st;
                  l_pos := undo_move zk pos1 m captured old_castle old_ep old_fifty;
                  l_alpha := alpha; l_best_score := l_best_score l;
                  l_best_move := l_best_move l; l_bound := l_bound l;
                  l_break := false |}
          else
            let st := set_nodes st (nodes st + 1) in
            let new_depth := depth - 1 in
            let new_depth := if in_check_ then new_depth + 1 else new_depth in
            let extension :=
              if (0 <? ply) && negb (captured_piece (frame st (ply - 1)) =? 0)
                 && (to_sq m =? to_sq (current_move (frame st (ply - 1))))
              then 1
              else if (moving_pt =? PAWN)
                      && is_passed_pawn pos1 (from_sq m) us
                      && (match us with
                          | WHITE => rank_of (from_sq m) <? rank_of (to_sq m)
                          | BLACK => rank_of (to_sq m) <? rank_of (from_sq m)
                          end)
              then 1 else 0 in
            let extension := if gives_check_ then extension + 1 else extension in
            let new_depth := Z.min (new_depth + extension) (depth + 2) in
            let '(st, pos2, score) :=
              if i =? 0 then
                let '(st, pos2, v) :=
                  nrec st pos1 new_depth (- beta) (- alpha) (ply + 1) true NO_MOVE in
                (st, pos2, - v)
              else
                let red :=
                  if negb (captured =? 0) then 0
                  else reduction improving depth i (sm_score sm)
                                 (negb (captured =? 0)) gives_check_ in
                let '(st, pos2, v) :=
                  nrec st pos1 (new_depth - red) (- alpha - 1) (- alpha) (ply + 1)
                       true NO_MOVE in
                if (alpha <? - v) && (- v <? beta) then
                  let '(st, pos2, v) :=
                    nrec st pos2 new_depth (- beta) (- alpha) (ply + 1) true NO_MOVE in
                  (st, pos2, - v)
                else (st, pos2, - v) in
            let pos3 := undo_move zk pos2 m captured old_castle old_ep old_fifty in
            if stop_search st then Ret (st, pos3, 0)
            else if l_best_score l <? score then
              if alpha <? score then
                if beta <=? score then
                  Go {| l_st := on_cutoff st pos3 scored i m depth ply captured us;
                        l_pos := pos3; l_alpha := score; l_best_score := score;
                        l_best_move := m; l_bound := BOUND_LOWER; l_break := true |}
                else
                  Go {| l_st := st; l_pos := pos3; l_alpha := score;
                        l_best_score := score; l_best_move := m;
                        l_bound := BOUND_EXACT; l_break := false |}
              else
                Go {| l_st := st; l_pos := pos3; l_alpha := alpha;
                      l_best_score := score; l_best_move := m;
                      l_bound := l_bound l; l_break := false |}
            else
              Go {| l_st := st; l_pos := pos3; l_alpha := alpha;
                    l_best_score := l_best_score l; l_best_move := l_best_move l;
                    l_bound := l_bound l; l_break := false |}
  end.

(** After the loop: mate or stalemate when no move was searched, then the
    store into the transposition table and the return *)
Definition negamax_finish (l : Loop) (depth ply key : Z) (in_check_ : bool)
  : Search * Position * Z :=
  let '(best_score, bound, best_move) :=
    if l_best_score l =? - INF
    then ((if in_check_ then - MATE_SCORE + ply else 0), BOUND_EXACT, NO_MOVE)
    else (l_best_score l, l_bound l, l_best_move l) in
  let store_score :=
    if MATE_SCORE - MAX_PLY <? best_score then best_score + ply
    else if best_score <? - MATE_SCORE + MAX_PLY then best_score - ply
    else best_score in
  (set_tt (l_st l) (store (tt (l_st l)) key depth store_score bound best_move 0),
   l_pos l, best_score).

(** The normal move loop and what follows it *)
Definition negamax_search_moves (nrec : NegamaxFn) (st : Search) (pos : Position)
           (scored : list ScoredMove) (depth alpha beta ply : Z) (pr : Probed)
  : Search * Position * Z :=
  let in_check_ := pr_in_check pr in
  let static_eval_ := pr_static_eval pr in
  let improving :=
    (2 <=? ply) && (static_eval (frame st (ply - 2)) <? static_eval_) in
  match fold_left (negamax_move nrec scored depth beta ply in_check_ static_eval_ improving)
                  (indexed scored)
                  (Go {| l_st := st; l_pos := pos; l_alpha := alpha;
                         l_best_score := - INF; l_best_move := NO_MOVE;
                         l_bound := BOUND_UPPER; l_break := false |}) with
  | Ret r => r
  | Go l => negamax_finish l depth ply (pr_key pr) in_check_
  end.

Definition negamax_body (nrec : NegamaxFn) (st : Search) (pos : Position)
           (depth alpha beta ply : Z) (cut : bool) (excluded : Z)
  : Search * Position * Z :=
  match negamax_entry st pos depth alpha beta ply with
  | Ret r => r
  | Go (st, alpha, beta) =>
  match negamax_probe_and_singular nrec st pos depth alpha beta ply excluded with
  | Ret r => r
  | Go (st, pos, depth, pr) =>
  match negamax_pruning nrec st pos depth alpha beta ply cut pr with
  | Ret r => r
  | Go (st, pos) =>
  match negamax_ordering nrec st pos depth alpha beta ply cut excluded pr with
  | Ret r => r
  | Go (st, pos, scored) =>
      negamax_search_moves nrec st pos scored depth alpha beta ply pr
  end end end end.

(** [negamax]: the recursion goes to a deeper ply, or stays at the ply with a
    smaller depth; [fuel] bounds its nesting. *)
Fixpoint negamax (fuel : nat) (st : Search) (pos : Position)
         (depth alpha beta ply : Z) (cut : bool) (excluded : Z)
  : Search * Position * Z :=
  match fuel with
  | O => (st, pos, 0)
  | S fuel' => negamax_body (negamax fuel') st pos depth alpha beta ply cut excluded
  end.
End SearchThread.

(** ** Classical evaluation ([Evaluation]), built without NNUE *)

Definition PST_PAWN : list Z :=
  [0;0;0;0;0;0;0;0; 50;50;50;50;50;50;50;50;
   10;10;20;30;30;20;10;10; 5;5;10;25;25;10;5;5;
   0;0;0;20;20;0;0;0; 5;-5;-10;0;0;-10;-5;5;
   5;10;10;-20;-20;10;10;5; 0;0;0;0;0;0;0;0].
Definition PST_KNIGHT : list Z :=
  [-50;-40;-30;-30;-30;-30;-40;-50; -40;-20;0;5;5;0;-20;-40;
   -30;5;10;15;15;10;5;-30; -30;0;15;20;20;15;0;-30;
   -30;5;15;20;20;15;5;-30; -30;0;10;15;15;10;0;-30;
   -40;-20;0;5;5;0;-20;-40; -50;-40;-30;-30;-30;-30;-40;-50].
Definition PST_BISHOP : list Z :=
  [-20;-10;-10;-10;-10;-10;-10;-20; -10;5;0;0;0;0;5;-10;
   -10;10;10;10;10;10;10;-10; -10;0;10;10;10;10;0;-10;
   -10;5;5;10;10;5;5;-10; -10;0;5;10;10;5;0;-10;
   -10;0;0;0;0;0;0;-10; -20;-10;-10;-10;-10;-10;-10;-20].
Definition PST_ROOK : list Z :=
  [0;0;0;5;5;0;0;0; -5;0;0;0;0;0;0;-5; -5;0;0;0;0;0;0;-5;
   -5;0;0;0;0;0;0;-5; -5;0;0;0;0;0;0;-5; -5;0;0;0;0;0;0;-5;
   5;10;10;10;10;10;10;5; 0;0;0;0;0;0;0;0].
Definition PST_QUEEN : list Z :=
  [-20;-10;-10;-5;-5;-10;-10;-20; -10;0;5;0;0;0;0;-10;
   -10;5;5;5;5;5;0;-10; 0;0;5;5;5;5;0;-5;
   -5;0;5;5;5;5;0;-5; -10;0;5;5;5;5;0;-10;
   -10;0;0;0;0;0;0;-10; -20;-10;-10;-5;-5;-10;-10;-20].
Definition PST_KING_MG : list Z :=
  [20;30;10;0;0;10;30;20; 20;20;0;0;0;0;20;20;
   -10;-20;-20;-20;-20;-20;-20;-10; -20;-30;-30;-40;-40;-30;-30;-20;
   -30;-40;-40;-50;-50;-40;-40;-30; -30;-40;-40;-50;-50;-40;-40;-30;
   -30;-40;-40;-50;-50;-40;-40;-30; -30;-40;-40;-50;-50;-40;-40;-30].
Definition PST_KING_EG : list Z :=
  [-50;-30;-30;-30;-30;-30;-30;-50; -30;-30;0;0;0;0;-30;-30;
   -30;-10;20;30;30;20;-10;-30; -30;-10;30;40;40;30;-10;-30;
   -30;-10;30;40;40;30;-10;-30; -30;-10;20;30;30;20;-10;-30;
   -30;-20;-10;0;0;-10;-20;-30; -50;-40;-30;-20;-20;-30;-40;-50].

(** [sum += f(sq)] over [while (b) { sq = pop_lsb(b); ... }] *)
Definition sum_over (b : Z) (f : Z -> Z) : Z :=
  fold_left (fun acc sq => acc + f sq) (squares b) 0.

(** [acc |= f(sq)] over the same loop *)
Definition union_over (b : Z) (f : Z -> Z) : Z :=
  fold_left (fun acc sq => Z.lor acc (f sq)) (squares b) 0.

(** [+x] for White, [-x] for Black *)
Definition signed (c : Color) (x : Z) : Z := match c with WHITE => x | BLACK => - x end.

(** [0x0101010101010101ULL << f] *)
Definition file_mask (f : Z) : Z := Z.shiftl 72340172838076673 f.

Definition mobility_table : list (list Z) :=
  [[0;0;0;0;0;0;0]; [0;5;10;15;20;25;30]; [0;10;20;30;40;50;60];
   [0;8;16;24;32;40;48]; [0;6;12;18;24;30;36]; [0;4;8;12;16;20;24]; [0;0;0;0;0;0;0]].

Definition mobility_bonus (pt cnt : Z) : Z :=
  aget 0 (aget [] mobility_table pt) (Z.min cnt 6).

(** The king of colour [c], or [NO_SQUARE] *)
Definition king_or_none (p : Position) (c : Color) : Z :=
  if negb (bb p c KING =? 0) then lsb (bb p c KING) else NO_SQUARE.

Definition outpost_bonus (p : Position) (sq : Z) (c : Color) : Z :=
  if Z.land (pawn_attacks c sq) (bb p c PAWN) =? 0 then 0
  else
    let safe := Z.land (pawn_attacks (flip c) sq) (bb p (flip c) PAWN) =? 0 in
    let r := rank_of sq in
    let base := 20 in
    let rank_bonus :=
      match c with
      | WHITE => Z.max 0 (r - 4) * 5
      | BLACK => Z.max 0 (3 - r) * 5
      end in
    let safety := if safe then 10 else 0 in
    let ksq := king_or_none p (flip c) in
    let king_dist :=
      if negb (ksq =? NO_SQUARE) then
        if Z.max (Z.abs (file_of ksq - file_of sq)) (Z.abs (rank_of ksq - r)) <=? 2
        then 5 else 0
      else 0 in
    base + rank_bonus + safety + king_dist.

Definition king_safety (p : Position) (c : Color) : Z :=
  if bb p c KING =? 0 then 0
  else
    let ksq := king_square p c in
    let kf := file_of ksq in
    let kr := rank_of ksq in
    let shield :=
      fold_left (fun safety df =>
        let f := kf + df in
        if (f <? 0) || (7 <? f) then safety
        else
          fold_left (fun safety dr =>
            let r := match c with WHITE => kr + dr | BLACK => kr - dr end in
            if (r <? 0) || (7 <? r) then safety
            else
              let pc := piece_on p (make_square f r) in
              if negb (pc =? 0) && (Z.land pc 7 =? PAWN) && (Z.shiftr pc 3 =? color_z c)
              then safety + (20 - dr * 5) else safety) [1; 2] safety) [-1; 0; 1] 0 in
    let storm :=
      sum_over (bb p (flip c) PAWN) (fun s =>
        let sf := file_of s in
        let sr := rank_of s in
        if (Z.abs (sf - kf) <=? 1) && (Z.abs (sr - kr) <=? 3)
        then - ((4 - Z.abs (sr - kr)) * 5) else 0) in
    let open_files :=
      fold_left (fun safety df =>
        let f := kf + df in
        if (f <? 0) || (7 <? f) then safety
        else if Z.land (bb p c PAWN) (file_mask f) =? 0 then safety - 15
        else safety) [-1; 0; 1] 0 in
    shield + storm + open_files.

(** The attack set of the piece standing on [s], by its mailbox type *)
Definition attacks_by_type (pt s occ : Z) : Z :=
  if pt =? KNIGHT then knight_attacks s
  else if pt =? BISHOP then bishop_attacks_magic s occ
  else if pt =? ROOK then rook_attacks_magic s occ
  else if pt =? QUEEN then queen_attacks_magic s occ
  else 0.

Definition space_bonus (p : Position) (c : Color) : Z :=
  let half := match c with WHITE => 18446744069414584320 | BLACK => 4294967295 end in
  let occ := occupied_bb p in
  let enemy_pawn_att := union_over (bb p (flip c) PAWN) (pawn_attacks (flip c)) in
  let our_pieces :=
    Z.lor (Z.lor (Z.lor (bb p c KNIGHT) (bb p c BISHOP)) (bb p c ROOK)) (bb p c QUEEN) in
  let our_att :=
    union_over our_pieces (fun s => attacks_by_type (Z.land (piece_on p s) 7) s occ) in
  popcount (Z.land (Z.land our_att half) (not64 enemy_pawn_att)) * 10.

Definition imbalance (p : Position) : Z :=
  let wm := popcount (bb p WHITE KNIGHT) + popcount (bb p WHITE BISHOP) in
  let bm := popcount (bb p BLACK KNIGHT) + popcount (bb p BLACK BISHOP) in
  let wr := popcount (bb p WHITE ROOK) in
  let br := popcount (bb p BLACK ROOK) in
  let wq := popcount (bb p WHITE QUEEN) in
  let bq := popcount (bb p BLACK QUEEN) in
  (wm - bm) * 15 + (wr - br) * 20 + (wq - bq) * 40.

Definition non_pawn_pieces (p : Position) (c : Color) : Z :=
  Z.lor (Z.lor (Z.lor (bb p c KNIGHT) (bb p c BISHOP)) (bb p c ROOK)) (bb p c QUEEN).

Definition pawn_attacks_of (p : Position) (c : Color) : Z :=
  union_over (bb p c PAWN) (pawn_attacks c).

Definition minor_attacks_of (p : Position) (c : Color) : Z :=
  Z.lor (union_over (bb p c KNIGHT) knight_attacks)
        (union_over (bb p c BISHOP) (fun s => bishop_attacks_magic s (occupied_bb p))).

Definition all_attacks_of (p : Position) (c : Color) : Z :=
  Z.lor (Z.lor (Z.lor (pawn_attacks_of p c) (minor_attacks_of p c))
               (union_over (bb p c ROOK) (fun s => rook_attacks_magic s (occupied_bb p))))
        (union_over (bb p c QUEEN) (fun s => queen_attacks_magic s (occupied_bb p))).

(** Rooks of [c] on files without own pawns: 15 when the file has no enemy
    pawn either, 10 otherwise *)
Definition rook_files (p : Position) (c : Color) : Z :=
  sum_over (bb p c ROOK) (fun s =>
    let fm := file_mask (file_of s) in
    if Z.land (bb p c PAWN) fm =? 0 then
      if Z.land (bb p (flip c) PAWN) fm =? 0 then 15 else 10
    else 0).

Definition threats (p : Position) : Z :=
  let value_on (d : Z) (s : Z) := Z.quot (aget 0 PIECE_VALUES (Z.land (piece_on p s) 7)) d in
  let white_pieces := non_pawn_pieces p WHITE in
  let black_pieces := non_pawn_pieces p BLACK in
  let score := 0 in
  let score := score - sum_over (Z.land white_pieces (pawn_attacks_of p BLACK)) (value_on 2) in
  let score := score + sum_over (Z.land black_pieces (pawn_attacks_of p WHITE)) (value_on 2) in
  let score := score - sum_over (Z.land white_pieces (minor_attacks_of p BLACK)) (value_on 4) in
  let score := score + sum_over (Z.land black_pieces (minor_attacks_of p WHITE)) (value_on 4) in
  let undefended_white := Z.land white_pieces (not64 (all_attacks_of p WHITE)) in
  let undefended_black := Z.land black_pieces (not64 (all_attacks_of p BLACK)) in
  let white_threats := Z.land (all_attacks_of p BLACK) undefended_white in
  let black_threats := Z.land (all_attacks_of p WHITE) undefended_black in
  let score := score + popcount white_threats * 10 in
  let score := score - popcount black_threats * 10 in
  let score :=
    if negb (Z.land (bb p WHITE QUEEN) (all_attacks_of p BLACK) =? 0)
    then score - 50 else score in
  let score :=
    if negb (Z.land (bb p BLACK QUEEN) (all_attacks_of p WHITE) =? 0)
    then score + 50 else score in
  let score := score + rook_files p WHITE in
  let score := score - rook_files p BLACK in
  Z.quot (score * game_phase p) TOTAL_PHASE.

(** The piece-square value of a piece of type [pt] at table index [idx],
    tapered by the phase *)
Definition pst_value (pt idx mg_w eg_w : Z) : Z :=
  let '(mg, eg) :=
    if pt =? PAWN then (aget 0 PST_PAWN idx, aget 0 PST_PAWN idx)
    else if pt =? KNIGHT then (aget 0 PST_KNIGHT idx, aget 0 PST_KNIGHT idx)
    else if pt =? BISHOP then (aget 0 PST_BISHOP idx, aget 0 PST_BISHOP idx)
    else if pt =? ROOK then (aget 0 PST_ROOK idx, aget 0 PST_ROOK idx)
    else if pt =? QUEEN then (aget 0 PST_QUEEN idx, aget 0 PST_QUEEN idx)
    else if pt =? KING then (aget 0 PST_KING_MG idx, aget 0 PST_KING_EG idx)
    else (0, 0) in
  Z.quot (mg * mg_w + eg * eg_w) TOTAL_PHASE.

(** Material and piece-square tables: the first loop of [evaluate] *)
Definition material_pst (p : Position) : Z :=
  let phase := game_phase p in
  fold_left (fun score c =>
    fold_left (fun score pt =>
      score + sum_over (bb p c pt) (fun sq =>
        let idx := match c with WHITE => sq | BLACK => 63 - sq end in
        signed c (pst_value pt idx phase (TOTAL_PHASE - phase)
                  + aget 0 PIECE_VALUES pt)))
      piece_types score) colors 0.

Definition mobility_of (p : Position) (c : Color) : Z :=
  fold_left (fun mob pt =>
    mob + sum_over (bb p c pt) (fun from =>
      let attacks :=
        if pt =? KNIGHT then knight_attacks from
        else if pt =? BISHOP then bishop_attacks_magic from (occupied_bb p)
        else if pt =? ROOK then rook_attacks_magic from (occupied_bb p)
        else queen_attacks_magic from (occupied_bb p) in
      mobility_bonus pt (popcount (Z.land attacks (not64 (occupied_bb p))))))
    [KNIGHT; BISHOP; ROOK; QUEEN] 0.

Definition files : list Z := [0; 1; 2; 3; 4; 5; 6; 7].

(** The pawn terms of colour [c], seen from White *)
Definition pawn_structure (p : Position) (c : Color) : Z :=
  let pawns := bb p c PAWN in
  let doubled :=
    fold_left (fun score f =>
      let cnt := popcount (Z.land pawns (file_mask f)) in
      if 1 <? cnt then score - signed c ((cnt - 1) * 20) else score) files 0 in
  let isolated :=
    sum_over pawns (fun sq =>
      let f := file_of sq in
      let iso :=
        negb (((0 <? f) && negb (Z.land pawns (file_mask (f - 1)) =? 0))
              || ((f <? 7) && negb (Z.land pawns (file_mask (f + 1)) =? 0))) in
      if iso then - signed c 15 else 0) in
  let backward :=
    sum_over pawns (fun sq =>
      let r := rank_of sq in
      match c with
      | WHITE =>
          if r <? 6 then
            let ahead := make_square (file_of sq) (r + 1) in
            if (piece_on p ahead =? 0)
               && negb (Z.land (pawn_attacks BLACK ahead) (bb p BLACK PAWN) =? 0)
            then -20 else 0
          else 0
      | BLACK =>
          if 1 <? r then
            let ahead := make_square (file_of sq) (r - 1) in
            if (piece_on p ahead =? 0)
               && negb (Z.land (pawn_attacks WHITE ahead) (bb p WHITE PAWN) =? 0)
            then 20 else 0
          else 0
      end) in
  let connected :=
    sum_over pawns (fun sq =>
      if negb (Z.land (pawn_attacks c sq) pawns =? 0) then signed c 10 else 0) in
  let paired :=
    fold_left (fun score f =>
      let cnt := popcount (Z.land pawns (file_mask f)) in
      if 2 <=? cnt then score + signed c 15 else score) files 0 in
  let passed :=
    sum_over pawns (fun sq =>
      if is_passed_pawn p sq c then
        let r := rank_of sq in
        let adv := match c with WHITE => r | BLACK => 7 - r end in
        let bonus := 30 + adv * adv * 4 in
        let bonus := if (file_of sq =? 0) || (file_of sq =? 7) then bonus + 15 else bonus in
        let bonus :=
          if match c with WHITE => r =? 6 | BLACK => r =? 1 end
          then bonus + 30 else bonus in
        let ksq := king_or_none p (flip c) in
        let bonus :=
          if negb (ksq =? NO_SQUARE) then
            if Z.max (Z.abs (file_of ksq - file_of sq)) (Z.abs (rank_of ksq - r)) <? 3
            then bonus + 10 else bonus
          else bonus in
        signed c bonus
      else 0) in
  doubled + isolated + backward + connected + paired + passed.

Definition outposts (p : Position) (c : Color) : Z :=
  signed c (sum_over (bb p c KNIGHT) (fun sq => outpost_bonus p sq c)
            + sum_over (bb p c BISHOP) (fun sq => outpost_bonus p sq c)).

Definition knights_on_rim (p : Position) (c : Color) : Z :=
  sum_over (bb p c KNIGHT) (fun sq =>
    if (file_of sq =? 0) || (file_of sq =? 7)
    then - signed c (Z.quot (20 * game_phase p) TOTAL_PHASE) else 0).

Definition long_diagonal_bishops (p : Position) (c : Color) : Z :=
  sum_over (bb p c BISHOP) (fun sq =>
    let f := file_of sq in
    let r := rank_of sq in
    if (f =? r) || (f + r =? 7) then
      let pawns := Z.lor (bb p WHITE PAWN) (bb p BLACK PAWN) in
      let blockers := popcount (Z.land (bishop_attacks_magic sq pawns) pawns) in
      let b := Z.quot ((20 - 5 * blockers) * game_phase p) TOTAL_PHASE in
      if 0 <? b then signed c b else 0
    else 0).

Definition queens_on_open_files (p : Position) (c : Color) : Z :=
  sum_over (bb p c QUEEN) (fun sq =>
    if Z.land (Z.lor (bb p WHITE PAWN) (bb p BLACK PAWN)) (file_mask (file_of sq)) =? 0
    then signed c (Z.quot (10 * game_phase p) TOTAL_PHASE) else 0).

Definition bishop_pair (p : Position) : Z :=
  (if 2 <=? popcount (bb p WHITE BISHOP) then 50 else 0)
  - (if 2 <=? popcount (bb p BLACK BISHOP) then 50 else 0).

Definition rooks_on_seventh (p : Position) : Z :=
  let seventh :=
    match side_to_move p with
    | WHITE => Z.shiftl 255 48
    | BLACK => Z.shiftl 255 8
    end in
  popcount (Z.land (bb p WHITE ROOK) seventh) * 30
  - popcount (Z.land (bb p BLACK ROOK) seventh) * 30.

(** The attack sets of the weak/strong-square term (kings included, pawns not) *)
Definition square_control (p : Position) (c : Color) : Z :=
  let att := union_over (bb p c KNIGHT) knight_attacks in
  let att :=
    Z.lor att (union_over (Z.lor (bb p c BISHOP) (bb p c QUEEN))
                          (fun s => bishop_attacks_magic s (occupied_bb p))) in
  let att :=
    Z.lor att (union_over (bb p c ROOK) (fun s => rook_attacks_magic s (occupied_bb p))) in
  Z.lor att (if negb (bb p c KING =? 0) then king_attacks (king_square p c) else 0).

Definition weak_strong_squares (p : Position) : Z :=
  let w_att := square_control p WHITE in
  let b_att := square_control p BLACK in
  let empty := not64 (occupied_bb p) in
  let weak_w := Z.land (Z.land b_att (not64 w_att)) empty in
  let weak_b := Z.land (Z.land w_att (not64 b_att)) empty in
  let strong_w := Z.land (Z.land w_att (not64 b_att)) empty in
  let strong_b := Z.land (Z.land b_att (not64 w_att)) empty in
  let central :=
    Z.lor (Z.lor (Z.lor (bit (make_square 3 3)) (bit (make_square 4 3)))
                 (bit (make_square 3 4))) (bit (make_square 4 4)) in
  let ws :=
    popcount (Z.land weak_w central) * 20 + popcount (Z.land weak_w (not64 central)) * 5
    - (popcount (Z.land weak_b central) * 20
       + popcount (Z.land weak_b (not64 central)) * 5) in
  let ss :=
    popcount (Z.land strong_w central) * 15 + popcount (Z.land strong_w (not64 central)) * 3
    - (popcount (Z.land strong_b central) * 15
       + popcount (Z.land strong_b (not64 central)) * 3) in
  Z.quot ((ws + ss) * game_phase p) TOTAL_PHASE.

Definition initiative (p : Position) : Z :=
  if negb (is_endgame p) then
    let our := popcount (non_pawn_pieces p WHITE) in
    let their := popcount (non_pawn_pieces p BLACK) in
    if Z.abs (our - their) <=? 1 then
      let ks_w := king_safety p WHITE in
      let ks_b := king_safety p BLACK in
      let ks_diff :=
        match side_to_move p with WHITE => ks_w - ks_b | BLACK => ks_b - ks_w end in
      if 0 <? ks_diff then Z.quot ks_diff 2 else 0
    else 0
  else 0.

Definition trapped_bishops (p : Position) : Z :=
  let t := Z.quot (50 * game_phase p) TOTAL_PHASE in
  let wpawns := bb p WHITE PAWN in
  let bpawns := bb p BLACK PAWN in
  (if has (bb p WHITE BISHOP) (bit (make_square 0 1)) && has wpawns (bit (make_square 1 2))
   then - t else 0)
  + (if has (bb p WHITE BISHOP) (bit (make_square 7 1)) && has wpawns (bit (make_square 6 2))
     then - t else 0)
  + (if has (bb p BLACK BISHOP) (bit (make_square 0 6)) && has bpawns (bit (make_square 1 5))
     then t else 0)
  + (if has (bb p BLACK BISHOP) (bit (make_square 7 6)) && has bpawns (bit (make_square 6 5))
     then t else 0).

(** The draws [evaluate] recognises before scoring *)
Definition trivial_draw (p : Position) : bool :=
  (100 <=? halfmove_clock p) || is_repetition p 2
  || (let pieces := popcount (occupied_bb p) in
      (pieces =? 2)
      || ((pieces =? 3)
          && ((popcount (Z.lor (bb p WHITE BISHOP) (bb p BLACK BISHOP)) =? 1)
              || (popcount (Z.lor (bb p WHITE KNIGHT) (bb p BLACK KNIGHT)) =? 1)))).

(** The score from White's side, before contempt *)
Definition white_score (p : Position) : Z :=
  material_pst p
  + (mobility_of p WHITE - mobility_of p BLACK)
  + (pawn_structure p WHITE + pawn_structure p BLACK)
  + (outposts p WHITE + outposts p BLACK)
  + (knights_on_rim p WHITE + knights_on_rim p BLACK)
  + (long_diagonal_bishops p WHITE + long_diagonal_bishops p BLACK)
  + (queens_on_open_files p WHITE + queens_on_open_files p BLACK)
  + bishop_pair p
  + rooks_on_seventh p
  + (if negb (is_endgame p) then king_safety p WHITE - king_safety p BLACK else 0)
  + Z.quot ((space_bonus p WHITE - space_bonus p BLACK) * game_phase p) TOTAL_PHASE
  + imbalance p
  + weak_strong_squares p
  + initiative p
  + trapped_bishops p
  + threats p.

(** [Evaluation::evaluate]; [contempt] is the evaluator's option (0 unless set) *)
Definition evaluate (contempt : Z) (p : Position) : Z :=
  if trivial_draw p then 0
  else
    let score := white_score p in
    let dyn_contempt := Z.quot (contempt * (24 - game_phase p)) 24 in
    let score :=
      if negb (dyn_contempt =? 0) && negb (is_endgame p) && (Z.abs score <? 200)
      then score + dyn_contempt else score in
    match side_to_move p with WHITE => score | BLACK => - score end.

(** ** Concrete positions and tables used below *)

(** White queen h1, black rook h8 with Black's king-side right on it. *)
Definition queen_takes_rook_fen : String.string :=
  "4k2r/8/8/8/8/8/8/4K2Q w k - 0 1"%string.
Definition queen_takes_rook_pos : Position := set_fen sample_keys queen_takes_rook_fen.
(** Qh1xh8 *)
Definition queen_takes_rook_move : Z := mk_move 7 63.

(** White king f1 and rook h1, king-side castling available: the king goes to
    g1 and the rook lands on f1, the king's own square. *)
Definition castle_f1_fen : String.string := "4k3/8/8/8/8/8/8/5K1R w K - 0 1"%string.
Definition castle_f1_pos : Position := set_fen sample_keys castle_f1_fen.
Definition castle_f1_move : Z := Z.lor (mk_move 5 6) CASTLE_FLAG.

(** The start position after 1. e4: the en-passant square is e3. *)
Definition after_e4_pos : Position :=
  make_move sample_keys (init_startpos sample_keys) (mk_move 12 28).

(** The same after a null move: White is to move again, as in null-move
    pruning at a node reached by 1. e4. *)
Definition after_e4_null_pos : Position :=
  make_move sample_keys after_e4_pos NULL_MOVE.

(** d2xe3 as an en-passant capture *)
Definition d2_takes_e3_ep : Z := Z.lor (mk_move 11 20) ENPASSANT_FLAG.

(** What a caller does around a move: save, [make_move], [undo_move]. *)
Definition make_then_undo (zk : ZobristKeys) (p : Position) (m : Z) : Position :=
  let captured := piece_on p (to_sq m) in
  let old_castle := castling_rights p in
  let old_ep := ep_sq p in
  let old_fifty := halfmove_clock p in
  undo_move zk (make_move zk p m) m captured old_castle old_ep old_fifty.

(** A 1 MB table holding one deep entry written during the previous search. *)
Definition aged_table : TranspositionTable :=
  new_search (store (new_table 1) 5 10 100 BOUND_EXACT 77 0).

(** A 1 MB table holding one deep entry written during the current search. *)
Definition fresh_table : TranspositionTable :=
  store (new_table 1) 5 10 100 BOUND_EXACT 77 0.

Definition tt_ok (tt : TranspositionTable) : bool :=
  (0 <? size tt) && (size tt =? Z.of_nat (length (table tt))).

(** ** Terminal nodes *)

(** The search never plays [m]: it would capture a king, or it leaves the
    mover's king attacked. *)
Definition move_is_illegal (zk : ZobristKeys) (pos : Position) (m : Z) : bool :=
  takes_king pos m || mover_in_check (make_move zk pos m).

(** No generated move is legal, and taking each one back restores the
    position *)
Definition no_legal_move (zk : ZobristKeys) (pos : Position) : bool :=
  forallb (fun m => move_is_illegal zk pos m
                    && position_eqb (make_then_undo zk pos m) pos)
          (generate_moves pos false).

(** The razoring margin of [negamax] at a depth *)
Definition razor_margin (depth : Z) : Z :=
  if depth <=? 1 then RAZOR_MARGIN_D1
  else if depth =? 2 then RAZOR_MARGIN_D2
  else if depth =? 3 then RAZOR_MARGIN_D3
  else RAZOR_MARGIN_D3 + 50 * (depth - 3).

(** None of the forward-pruning blocks of [negamax] applies at a node that is
    not in check: ProbCut has no capture to try (or the depth is below
    [PROBCUT_DEPTH]), the null move is not tried, and the guards of razoring,
    static null move and futility pruning are false. *)
Definition no_forward_pruning (pos : Position) (depth alpha beta : Z) (cut : bool)
           (static_eval_ : Z) : bool :=
  ((depth <? PROBCUT_DEPTH)
   || match generate_moves pos true with [] => true | _ => false end)
  && negb ((2 <=? depth) && cut && has_non_pawn pos (side_to_move pos))
  && negb ((depth <=? 6) && (static_eval_ + razor_margin depth <? alpha))
  && negb ((7 <? depth) && (beta <=? static_eval_ - 200))
  && negb ((depth <=? 7) && (beta <=? static_eval_ - FUTILITY_MARGIN_FACTOR * depth)).

(** Black is mated: king d8, white queen d7 guarded by the king on d6. *)
Definition mate_fen : String.string := "3k4/3Q4/3K4/8/8/8/8/8 b - - 0 1"%string.
Definition mate_pos : Position := set_fen sample_keys mate_fen.

(** Black is stalemated: king h8, white queen f7, white king g6. *)
Definition stalemate_fen : String.string := "7k/5Q2/6K1/8/8/8/8/8 b - - 0 1"%string.
Definition stalemate_pos : Position := set_fen sample_keys stalemate_fen.

(** A build without Syzygy ([tb_init] fails, nothing can be probed), with
    learning disabled, searching in [infinite] mode with no node limit. *)
Definition no_learning (h : Z) : Z := 0.
Definition never_stop (n : Z) : bool := false.
Definition no_tablebase (p : Position) : bool := false.
Definition no_wdl (p : Position) : Z := TB_RESULT_FAILED.
Definition no_dtz (p : Position) : Z * bool := (0, false).

(** A search thread on a fresh 1 MB table *)
Definition fresh_thread : Search := new_search_thread (new_table 1).

(** A table that holds, for the start position, an exact entry of depth 10
    with score 30 and best move e2e4 *)
Definition startpos_table : TranspositionTable :=
  store (new_table 1) (get_hash (init_startpos sample_keys)) 10 30 BOUND_EXACT
        (mk_move 12 28) 0.

(** ** The mirrored position

    The engine has no mirror function; this is the transformation the
    symmetry property of the evaluator speaks about: every piece changes
    colour, the board is reflected top to bottom (rank [r] becomes rank
    [7 - r]), and the other side is to move. *)

(** The bitboard of the squares that satisfy [f] *)
Definition bb_of (f : Z -> bool) : Z :=
  fold_left (fun acc s => if f s then Z.lor acc (bit s) else acc) all_squares 0.

(** [s ^ 56]: the same file on the reflected rank *)
Definition flip_sq (s : Z) : Z := Z.lxor s 56.

(** A bitboard reflected top to bottom *)
Definition vflip (b : Z) : Z := bb_of (fun s => Z.testbit b (flip_sq s)).

(** A mailbox code with the colour bit toggled; 0 stays "no piece" *)
Definition recolor (pc : Z) : Z := if pc =? 0 then 0 else Z.lxor pc 8.

Definition mirror_sq (s : Z) : Z := if s =? -1 then -1 else flip_sq s.

Definition mirror_pieces (ps : list Z) : list Z :=
  flat_map (fun c => map (fun pt => vflip (pieces_get ps (flip c) pt)) [0; 1; 2; 3; 4; 5; 6])
           colors.

Definition mirror_board (bd : list Z) : list Z :=
  map (fun s => recolor (aget 0 bd (flip_sq s))) all_squares.

Definition mirror_castle (cr : list Z) : list Z :=
  flat_map (fun c => map (fun s => mirror_sq (aget (-1) cr (cidx (flip c) s))) [0; 1]) colors.

Definition mirror (zk : ZobristKeys) (p : Position) : Position :=
  let q :=
    compute_hash zk
      {| _pieces := mirror_pieces (_pieces p); board := mirror_board (board p);
         side := flip (side p); occupied := vflip (occupied p);
         fifty := fifty p; ply := ply p; game_ply := game_ply p;
         ep_square := mirror_sq (ep_square p);
         castle_rook_sq := mirror_castle (castle_rook_sq p);
         chess960 := chess960 p; hash := 0; history := [0] |} in
  set_history q [hash q].


(** White king e1 and rook c2 against the bare black king on e8. *)
Definition rook_ending_fen : String.string := "4k3/8/8/8/8/8/2R5/4K3 w - - 0 1"%string.
Definition rook_ending_pos : Position := set_fen sample_keys rook_ending_fen.

(** The same with a queen on c2. *)
Definition queen_ending_fen : String.string := "4k3/8/8/8/8/8/2Q5/4K3 w - - 0 1"%string.
Definition queen_ending_pos : Position := set_fen sample_keys queen_ending_fen.

(** 1 for a set bit, 0 for a clear one *)
Definition b2z (b : bool) : Z := if b then 1 else 0.

(** Checks on one square: the leaper and pawn attack sets of the reflected
    square are the reflected attack sets (pawns with the colours swapped) *)
Definition attack_flip_check (s : Z) : bool :=
  (knight_attacks (flip_sq s) =? vflip (knight_attacks s))
  && (king_attacks (flip_sq s) =? vflip (king_attacks s))
  && (pawn_attacks WHITE (flip_sq s) =? vflip (pawn_attacks BLACK s))
  && (pawn_attacks BLACK (flip_sq s) =? vflip (pawn_attacks WHITE s))
  && is_u64 (knight_attacks s) && is_u64 (king_attacks s).

(** Checks on one square: in every piece-square table but the queen's, the
    entry White reads on the reflected square is the entry Black reads on
    the square, and the other way round *)
Definition pst_flip_check (s : Z) : bool :=
  forallb (fun T => (aget 0 T (flip_sq s) =? aget 0 T (63 - s))
                    && (aget 0 T (63 - flip_sq s) =? aget 0 T s))
          [PST_PAWN; PST_KNIGHT; PST_BISHOP; PST_ROOK; PST_KING_MG; PST_KING_EG].

(** The mailbox codes: empty, or [(c << 3) | pt] for a piece type 1..6 *)
Definition valid_codes : list Z := [0; 1; 2; 3; 4; 5; 6; 9; 10; 11; 12; 13; 14].

(** d4, e4, d5, e5 *)
Definition central_squares : Z :=
  Z.lor (Z.lor (Z.lor (bit (make_square 3 3)) (bit (make_square 4 3)))
               (bit (make_square 3 4))) (bit (make_square 4 4)).

(** A middlegame without queens: both sides developed, kings not yet castled. *)
Definition queenless_fen : String.string :=
  "r3k2r/pb1nbppp/1p2pn2/2pp4/3P1B2/2PBPN2/PP1N1PPP/R3K2R w KQkq - 0 1"%string.
Definition queenless_pos : Position := set_fen sample_keys queenless_fen.

(** Checks on the move encoding of one pair of squares: the fields read back
    what was packed, a plain move carries no promotion, castling or
    en-passant flag, and a promotion reads back its piece type *)
Definition codec_check (f t : Z) : bool :=
  (from_sq (mk_move f t) =? f) && (to_sq (mk_move f t) =? t)
  && (promotion_type (mk_move f t) =? NO_PIECE)
  && negb (is_castling (mk_move f t)) && negb (is_en_passant (mk_move f t))
  && forallb (fun pt =>
       (from_sq (make_promotion f t pt) =? f) && (to_sq (make_promotion f t pt) =? t)
       && (promotion_type (make_promotion f t pt) =? pt)
       && negb (is_castling (make_promotion f t pt))
       && negb (is_en_passant (make_promotion f t pt)))
     [KNIGHT; BISHOP; ROOK; QUEEN]
  && (from_sq (Z.lor (mk_move f t) CASTLE_FLAG) =? f)
  && (to_sq (Z.lor (mk_move f t) CASTLE_FLAG) =? t)
  && is_castling (Z.lor (mk_move f t) CASTLE_FLAG)
  && (promotion_type (Z.lor (mk_move f t) CASTLE_FLAG) =? NO_PIECE)
  && (from_sq (Z.lor (mk_move f t) ENPASSANT_FLAG) =? f)
  && (to_sq (Z.lor (mk_move f t) ENPASSANT_FLAG) =? t)
  && (promotion_type (Z.lor (mk_move f t) ENPASSANT_FLAG) =? NO_PIECE).

(** The hit flag [probe] gives for an entry of the asked key *)
Definition bound_allows (bound : Bound) (score alpha beta : Z) : bool :=
  bound_eqb bound BOUND_EXACT
  || (bound_eqb bound BOUND_LOWER && (score >=? beta))
  || (bound_eqb bound BOUND_UPPER && (score <=? alpha)).

(** The stored hash is the hash of the position *)
Definition hash_ok (zk : ZobristKeys) (p : Position) : bool :=
  hash p =? hash_of zk (_pieces p) (side p) (castle_rook_sq p) (ep_square p).

(** * Properties *)

(** [set_fen] on the standard start position agrees with [init_startpos]. *)
Example set_fen_startpos : set_fen sample_keys startpos_fen = init_startpos sample_keys.
Proof. vm_compute. reflexivity. Qed.

(** ** Position: castling slots, round trip, null move *)

(** C1 (code defect): the claim asks that after [make_move] every slot that
    is not -1 names a square holding a rook of that colour, a capture of the
    rook on an opponent's slot clearing the slot.  [make_move] compares the
    opponent's slots with [from], not with [to]: in the position
    [queen_takes_rook_fen] the generated, legal capture Qh1xh8 leaves Black's
    king-side slot at h8 although the black rook is gone and a white queen
    stands there. *)
Theorem make_move_capture_leaves_stale_slot :
  In queen_takes_rook_move (generate_moves queen_takes_rook_pos false)
  /\ mover_in_check (make_move sample_keys queen_takes_rook_pos queen_takes_rook_move) = false
  /\ castle_rook queen_takes_rook_pos BLACK 0 = 63
  /\ piece_on queen_takes_rook_pos 63 = piece_code BLACK ROOK
  /\ castle_rook (make_move sample_keys queen_takes_rook_pos queen_takes_rook_move) BLACK 0 = 63
  /\ piece_on (make_move sample_keys queen_takes_rook_pos queen_takes_rook_move) 63
     = piece_code WHITE QUEEN
  /\ bb (make_move sample_keys queen_takes_rook_pos queen_takes_rook_move) BLACK ROOK = 0.
Proof. vm_compute. repeat split; try reflexivity. left; reflexivity. Qed.

(** C2 (code defect): the claim asks that [undo_move] after [make_move]
    restores the position exactly.  On the Chess960 position [castle_f1_fen]
    the generated, legal castling move Kf1-g1 puts the rook on f1; [undo_move]
    first puts the king back on f1 and then clears the rook's landing square
    in the mailbox, so [board[f1]] ends empty while the king bitboard holds
    f1: the position is not restored. *)
Theorem undo_castle_clears_king_square :
  In castle_f1_move (generate_moves castle_f1_pos false)
  /\ mover_in_check (make_move sample_keys castle_f1_pos castle_f1_move) = false
  /\ piece_on castle_f1_pos 5 = piece_code WHITE KING
  /\ piece_on (make_then_undo sample_keys castle_f1_pos castle_f1_move) 5 = 0
  /\ bb (make_then_undo sample_keys castle_f1_pos castle_f1_move) WHITE KING = bit 5.
Proof. vm_compute. repeat split; try reflexivity. do 13 right. left. reflexivity. Qed.

(** [make_move(NULL_MOVE)] touches the side to move, the ply, the history and
    the hash, and nothing else: the en-passant square, the board, the
    bitboards, the castling slots and the halfmove clock stay as they were. *)
Lemma null_move_effect (zk : ZobristKeys) (p : Position) :
  side (make_move zk p NULL_MOVE) = flip (side p)
  /\ ep_square (make_move zk p NULL_MOVE) = ep_square p
  /\ history (make_move zk p NULL_MOVE) = history p ++ [hash p]
  /\ hash (make_move zk p NULL_MOVE)
     = hash_of zk (_pieces p) (flip (side p)) (castle_rook_sq p) (ep_square p)
  /\ board (make_move zk p NULL_MOVE) = board p
  /\ _pieces (make_move zk p NULL_MOVE) = _pieces p
  /\ occupied (make_move zk p NULL_MOVE) = occupied p
  /\ castle_rook_sq (make_move zk p NULL_MOVE) = castle_rook_sq p
  /\ fifty (make_move zk p NULL_MOVE) = fifty p
  /\ ply (make_move zk p NULL_MOVE) = ply p + 1.
Proof.
  unfold make_move. rewrite Z.eqb_refl.
  repeat split; reflexivity.
Qed.

(** C4 (code defect): the claim asks that a null move clears the en-passant
    square to -1.  The null branch of [make_move] never writes [ep_square],
    so on every position the square survives the null move.  After 1. e4 and
    a null move White is to move with the en-passant square still e3 (20):
    [generate_moves] then offers d2xe3 as an en-passant capture although e2,
    where the captured pawn would stand, is empty; the move leaves no king in
    check, so the search plays it, and [undo_move] puts a black pawn on e2
    that was never there: 33 pieces instead of 32, nine black pawns. *)
Theorem null_move_leaves_en_passant_square :
  (forall (zk : ZobristKeys) (p : Position),
     ep_sq (make_move zk p NULL_MOVE) = ep_sq p)
  /\ ep_sq after_e4_pos = 20
  /\ ep_sq after_e4_null_pos = 20
  /\ side_to_move after_e4_null_pos = WHITE
  /\ existsb (Z.eqb d2_takes_e3_ep) (generate_moves after_e4_null_pos false) = true
  /\ piece_on after_e4_null_pos 12 = 0
  /\ takes_king after_e4_null_pos d2_takes_e3_ep = false
  /\ mover_in_check (make_move sample_keys after_e4_null_pos d2_takes_e3_ep) = false
  /\ piece_on (make_then_undo sample_keys after_e4_null_pos d2_takes_e3_ep) 12
     = piece_code BLACK PAWN
  /\ popcount (occupied_bb after_e4_null_pos) = 32
  /\ popcount (occupied_bb (make_then_undo sample_keys after_e4_null_pos d2_takes_e3_ep))
     = 33
  /\ popcount (bb (make_then_undo sample_keys after_e4_null_pos d2_takes_e3_ep)
                  BLACK PAWN) = 9.
Proof.
  split.
  - intros zk p. unfold ep_sq, make_move. rewrite Z.eqb_refl. reflexivity.
  - vm_compute. repeat split; reflexivity.
Qed.

(** ** Transposition table *)

Lemma aget_upd_same {A : Type} (d v : A) (l : list A) (i : Z) :
  0 <= i < Z.of_nat (length l) -> aget d (aset l i v) i = v.
Proof.
  intros [H0 H1]. unfold aget, aset.
  destruct (i <? 0) eqn:E; [apply Z.ltb_lt in E; lia|].
  assert (Hn : (Z.to_nat i < length l)%nat) by lia.
  clear E H0 H1. revert l Hn.
  induction (Z.to_nat i) as [|n IH]; intros [|h t] Hn; simpl in *; try lia.
  - reflexivity.
  - apply IH. lia.
Qed.

Lemma nth_upd_other {A : Type} (d v : A) (l : list A) (n k : nat) :
  n <> k -> nth k (upd n v l) d = nth k l d.
Proof.
  revert l k. induction n as [|n IH]; intros [|h t] [|k] Hne; simpl; try reflexivity.
  - congruence.
  - apply IH. congruence.
Qed.

Lemma aget_upd_other {A : Type} (d v : A) (l : list A) (i j : Z) :
  i <> j -> aget d (aset l i v) j = aget d l j.
Proof.
  intros Hne. unfold aget, aset.
  destruct (j <? 0) eqn:Ej; [reflexivity|].
  destruct (i <? 0) eqn:Ei; [reflexivity|].
  apply Z.ltb_ge in Ej, Ei.
  apply nth_upd_other. intro H. apply Hne. lia.
Qed.

Lemma length_upd {A : Type} (v : A) (l : list A) (n : nat) :
  length (upd n v l) = length l.
Proof.
  revert l. induction n as [|n IH]; intros [|h t]; simpl; try reflexivity.
  now rewrite IH.
Qed.

Lemma length_aset {A : Type} (v : A) (l : list A) (i : Z) :
  length (aset l i v) = length l.
Proof. unfold aset. destruct (i <? 0); [reflexivity|apply length_upd]. Qed.

(** C5, counterexample: in [aged_table] the resident of bucket 5 has depth 10
    and was written at age 0, the table's age is 1; storing key 5 at depth 3
    leaves it in place, although it is older than the current search.  In
    [fresh_table] the same resident, of the current age, is overwritten by an
    entry of another key that maps to its bucket, although it is deeper. *)
Lemma store_ignores_age :
  (e_depth (bucket aged_table 5) = 10
   /\ e_age (bucket aged_table 5) = 0 /\ age aged_table = 1
   /\ store aged_table 5 3 50 BOUND_LOWER 88 0 = aged_table)
  /\ (resident_kept_by_spec fresh_table (5 + size fresh_table) 3 = true
      /\ e_key (bucket (store fresh_table (5 + size fresh_table) 3 50 BOUND_LOWER 88 0) 5)
         = 5 + size fresh_table).
Proof.
  assert (E : (e_key (bucket aged_table 5) =? 5) && (3 <? e_depth (bucket aged_table 5))
              = true) by (vm_compute; reflexivity).
  split; [|split; vm_compute; reflexivity].
  split; [vm_compute; reflexivity|].
  split; [vm_compute; reflexivity|].
  split; [vm_compute; reflexivity|].
  unfold store. unfold bucket in E. rewrite E. reflexivity.
Qed.

(** C5, as amended: [store] replaces the entry of bucket [key mod N] unless
    the resident has the same key and strictly greater depth, whatever its
    age; the entry written carries the table's current age, and no other
    bucket changes. *)
Theorem store_replaces_unless_same_key_deeper
        (tt : TranspositionTable) (key depth score : Z) (bound : Bound) (move dtz : Z) :
  tt_ok tt = true ->
  let e := bucket tt key in
  let tt' := store tt key depth score bound move dtz in
  if (e_key e =? key) && (depth <? e_depth e) then tt' = tt
  else
    bucket tt' key =
      {| e_key := key; e_depth := depth; e_score := score; e_bound := bound;
         e_move := move; e_age := age tt; e_dtz := dtz |}
    /\ size tt' = size tt /\ age tt' = age tt
    /\ forall i, i <> key mod size tt ->
         aget empty_entry (table tt') i = aget empty_entry (table tt) i.
Proof.
  intros Hok e tt'. subst e tt'. unfold store, bucket.
  destruct ((e_key (aget empty_entry (table tt) (key mod size tt)) =? key)
            && (depth <? e_depth (aget empty_entry (table tt) (key mod size tt)))) eqn:E.
  - reflexivity.
  - unfold tt_ok in Hok. apply andb_true_iff in Hok as [Hs Hl].
    apply Z.ltb_lt in Hs. apply Z.eqb_eq in Hl.
    cbn [table size age]. repeat split.
    + apply aget_upd_same. pose proof (Z.mod_pos_bound key (size tt) Hs). lia.
    + intros i Hi. apply aget_upd_other. congruence.
Qed.

Lemma store_replaces_witness :
  tt_ok aged_table = true
  /\ (if (e_key (bucket aged_table 9) =? 9) && (3 <? e_depth (bucket aged_table 9))
      then store aged_table 9 3 50 BOUND_LOWER 88 0 = aged_table
      else
        bucket (store aged_table 9 3 50 BOUND_LOWER 88 0) 9 =
          {| e_key := 9; e_depth := 3; e_score := 50; e_bound := BOUND_LOWER;
             e_move := 88; e_age := age aged_table; e_dtz := 0 |}
        /\ size (store aged_table 9 3 50 BOUND_LOWER 88 0) = size aged_table
        /\ age (store aged_table 9 3 50 BOUND_LOWER 88 0) = age aged_table
        /\ forall i, i <> 9 mod size aged_table ->
             aget empty_entry (table (store aged_table 9 3 50 BOUND_LOWER 88 0)) i
             = aget empty_entry (table aged_table) i).
Proof.
  split.
  - vm_compute. reflexivity.
  - apply (store_replaces_unless_same_key_deeper aged_table 9 3 50 BOUND_LOWER 88 0).
    vm_compute. reflexivity.
Defined.

Lemma bound_eqb_eq (a b : Bound) : bound_eqb a b = true <-> a = b.
Proof. destruct a, b; simpl; split; intro H; try reflexivity; discriminate. Qed.

(** C6: [probe] returns [true] exactly when the resident's key equals the
    key, its depth is at least the requested depth and its bound fits the
    window (EXACT always, LOWER when its score is at least beta, UPPER when
    its score is at most alpha); and whenever the key matches, hit or not,
    the stored score, move and dtz are written to the reference parameters. *)
Theorem probe_hit_exactly
        (tt : TranspositionTable) (key depth alpha beta : Z) (out : ProbeOut) :
  (fst (probe tt key depth alpha beta out) = true <->
     e_key (bucket tt key) = key
     /\ depth <= e_depth (bucket tt key)
     /\ (e_bound (bucket tt key) = BOUND_EXACT
         \/ (e_bound (bucket tt key) = BOUND_LOWER /\ beta <= e_score (bucket tt key))
         \/ (e_bound (bucket tt key) = BOUND_UPPER /\ e_score (bucket tt key) <= alpha)))
  /\ (e_key (bucket tt key) = key ->
      snd (probe tt key depth alpha beta out) =
        {| o_score := e_score (bucket tt key); o_move := e_move (bucket tt key);
           o_dtz := e_dtz (bucket tt key) |}).
Proof.
  unfold probe, bucket.
  set (e := aget empty_entry (table tt) (key mod size tt)).
  destruct (e_key e =? key) eqn:Ek; cbn [negb].
  - apply Z.eqb_eq in Ek. split.
    + destruct (e_depth e >=? depth) eqn:Ed.
      * assert (Hd : depth <= e_depth e) by (apply Z.geb_le in Ed; lia).
        destruct (e_bound e) eqn:Eb; cbn [bound_eqb andb].
        -- split; [discriminate|]. intros (_ & _ & [H|[[H _]|[H _]]]); discriminate.
        -- destruct (e_score e <=? alpha) eqn:Es; cbn [fst].
           ++ apply Z.leb_le in Es. split; [|reflexivity].
              intros _. repeat split; auto.
           ++ apply Z.leb_gt in Es. split; [discriminate|].
              intros (_ & _ & [H|[[H _]|[_ H]]]); try discriminate. lia.
        -- destruct (e_score e >=? beta) eqn:Es; cbn [fst].
           ++ assert (beta <= e_score e) by (apply Z.geb_le in Es; lia).
              split; [|reflexivity]. intros _. repeat split; auto.
           ++ assert (e_score e < beta).
              { rewrite Z.geb_leb in Es. apply Z.leb_gt in Es. lia. }
              split; [discriminate|].
              intros (_ & _ & [H0|[[_ H0]|[H0 _]]]); try discriminate. lia.
        -- split; [|reflexivity]. intros _. repeat split; auto.
      * assert (Hd : e_depth e < depth).
        { rewrite Z.geb_leb in Ed. apply Z.leb_gt in Ed. lia. }
        cbn [fst]. split; [discriminate|]. intros (_ & H & _). lia.
    + intros _.
      destruct (e_depth e >=? depth); [|reflexivity].
      destruct (bound_eqb (e_bound e) BOUND_EXACT); [reflexivity|].
      destruct (bound_eqb (e_bound e) BOUND_LOWER && (e_score e >=? beta)); [reflexivity|].
      destruct (bound_eqb (e_bound e) BOUND_UPPER && (e_score e <=? alpha)); reflexivity.
  - apply Z.eqb_neq in Ek. cbn [fst snd]. split.
    + split; [discriminate|]. intros (H & _). contradiction.
    + intros H. contradiction.
Qed.

(** ** Bitboards as sets of squares *)

Lemma is_u64_U64 (b : Z) : is_u64 b = true -> U64 b.
Proof.
  unfold is_u64. intros H. apply andb_true_iff in H as [H0 H1].
  apply Z.leb_le in H0. apply Z.ltb_lt in H1. split; [exact H0|].
  intros i Hi. destruct (Z.eq_dec b 0) as [->|Hne]; [apply Z.bits_0|].
  apply Z.bits_above_log2; [lia|].
  assert (Z.log2 b < 64) by (apply Z.log2_lt_pow2; lia). lia.
Qed.

Lemma U64_land_l (a b : Z) : U64 a -> U64 (Z.land a b).
Proof.
  intros [H0 Hh]. split.
  - apply Z.land_nonneg. now left.
  - intros i Hi. rewrite Z.land_spec, Hh by lia. reflexivity.
Qed.

Lemma U64_land_r (a b : Z) : U64 b -> U64 (Z.land a b).
Proof. rewrite Z.land_comm. apply U64_land_l. Qed.

Lemma U64_lor (a b : Z) : U64 a -> U64 b -> U64 (Z.lor a b).
Proof.
  intros [Ha Hha] [Hb Hhb]. split.
  - apply Z.lor_nonneg. tauto.
  - intros i Hi. rewrite Z.lor_spec, Hha, Hhb by lia. reflexivity.
Qed.

Lemma U64_not64 (b : Z) : U64 (not64 b).
Proof.
  unfold not64. apply U64_land_r. split.
  - vm_compute. discriminate.
  - intros i Hi. apply Z.ones_spec_high. lia.
Qed.

Lemma testbit_not64 (b s : Z) :
  0 <= s < 64 -> Z.testbit (not64 b) s = negb (Z.testbit b s).
Proof.
  intros Hs. unfold not64.
  rewrite Z.land_spec, Z.lnot_spec, Z.ones_spec_low by lia.
  apply andb_true_r.
Qed.

Lemma U64_nonzero_bit (b : Z) :
  U64 b -> b <> 0 -> exists j, 0 <= j < 64 /\ Z.testbit b j = true.
Proof.
  intros [H0 Hh] Hne. exists (Z.log2 b).
  assert (Hb : Z.testbit b (Z.log2 b) = true) by (apply Z.bit_log2; lia).
  split; [|exact Hb]. split; [apply Z.log2_nonneg|].
  destruct (Z_lt_le_dec (Z.log2 b) 64) as [Hlt|Hge]; [exact Hlt|].
  rewrite Hh in Hb by lia. discriminate.
Qed.

Lemma ctz_from_spec (n : nat) (b : Z) : forall i,
  (exists j, i <= j < i + Z.of_nat n /\ Z.testbit b j = true) ->
  i <= ctz_from n i b < i + Z.of_nat n /\ Z.testbit b (ctz_from n i b) = true.
Proof.
  induction n as [|n IH]; intros i [j [Hj Hb]]; [lia|].
  cbn [ctz_from]. destruct (Z.testbit b i) eqn:E.
  - split; [lia|exact E].
  - assert (j <> i) by (intro; subst; congruence).
    destruct (IH (i + 1)) as [H1 H2]; [exists j; split; [lia|exact Hb]|].
    split; [lia|exact H2].
Qed.

Lemma lsb_spec (b : Z) :
  U64 b -> b <> 0 -> 0 <= lsb b < 64 /\ Z.testbit b (lsb b) = true.
Proof.
  intros Hu Hne. destruct (U64_nonzero_bit b Hu Hne) as [j [Hj Hb]].
  unfold lsb. apply (ctz_from_spec 64 b 0). exists j. split; [lia|exact Hb].
Qed.

Lemma squares_loop_spec (n : nat) (s : Z) : forall b,
  U64 b -> In s (squares_loop n b) -> 0 <= s < 64 /\ Z.testbit b s = true.
Proof.
  induction n as [|n IH]; intros b Hb Hin; cbn [squares_loop] in Hin; [contradiction|].
  destruct (b =? 0) eqn:E; [contradiction|]. apply Z.eqb_neq in E.
  unfold pop_lsb in Hin. destruct Hin as [<-|Hin]; [now apply lsb_spec|].
  destruct (IH (Z.land b (b - 1))) as [H1 H2]; [now apply U64_land_l|exact Hin|].
  split; [exact H1|]. rewrite Z.land_spec in H2. apply andb_true_iff in H2. tauto.
Qed.

Lemma squares_spec (b s : Z) :
  U64 b -> In s (squares b) -> 0 <= s < 64 /\ Z.testbit b s = true.
Proof. apply squares_loop_spec. Qed.

Lemma bit_pow2 (e : Z) : bit e = 2 ^ e.
Proof. unfold bit. apply Z.shiftl_1_l. Qed.

Lemma land_bit_nonzero (a e : Z) :
  Z.land a (bit e) <> 0 -> 0 <= e /\ Z.testbit a e = true.
Proof.
  intros H. rewrite bit_pow2 in H.
  destruct (Z_lt_le_dec e 0) as [Hneg|Hpos].
  - exfalso. apply H. rewrite Z.pow_neg_r by lia. apply Z.land_0_r.
  - split; [exact Hpos|]. destruct (Z.testbit a e) eqn:E; [reflexivity|].
    exfalso. apply H. apply Z.bits_inj'. intros n Hn.
    rewrite Z.land_spec, Z.pow2_bits_eqb, Z.bits_0 by lia.
    destruct (Z.eqb_spec e n) as [->|Hne]; [now rewrite E|apply andb_false_r].
Qed.

(** ** Lists *)

Lemma filter_all {A : Type} (f : A -> bool) (l : list A) :
  (forall x, In x l -> f x = true) -> filter f l = l.
Proof.
  induction l as [|a l IH]; intros H; cbn [filter]; [reflexivity|].
  rewrite (H a (or_introl eq_refl)), IH; [reflexivity|].
  intros x Hx. apply H. now right.
Qed.

Lemma filter_none {A : Type} (f : A -> bool) (l : list A) :
  (forall x, In x l -> f x = false) -> filter f l = [].
Proof.
  induction l as [|a l IH]; intros H; cbn [filter]; [reflexivity|].
  rewrite (H a (or_introl eq_refl)). apply IH.
  intros x Hx. apply H. now right.
Qed.

Lemma filter_flat_map {A B : Type} (f : B -> bool) (g h : A -> list B) (l : list A) :
  (forall x, In x l -> filter f (g x) = h x) ->
  filter f (flat_map g l) = flat_map h l.
Proof.
  induction l as [|a l IH]; intros H; cbn [flat_map]; [reflexivity|].
  rewrite filter_app, (H a (or_introl eq_refl)), IH; [reflexivity|].
  intros x Hx. apply H. now right.
Qed.

Lemma in_all_squares (s : Z) : 0 <= s < 64 -> In s all_squares.
Proof.
  intros Hs. unfold all_squares.
  replace s with (Z.of_nat (Z.to_nat s)) by lia.
  apply in_map. apply in_seq. lia.
Qed.

Lemma enc_check_all :
  forallb (fun f => forallb (enc_check f) all_squares) all_squares = true.
Proof. vm_compute. reflexivity. Qed.

Lemma enc_facts (f t : Z) : 0 <= f < 64 -> 0 <= t < 64 -> enc_check f t = true.
Proof.
  intros Hf Ht. pose proof enc_check_all as H.
  rewrite forallb_forall in H. specialize (H f (in_all_squares f Hf)).
  rewrite forallb_forall in H. exact (H t (in_all_squares t Ht)).
Qed.

Lemma origin_check_all : forallb origin_check all_squares = true.
Proof. vm_compute. reflexivity. Qed.

Lemma origin_facts (f : Z) : 0 <= f < 64 -> origin_check f = true.
Proof.
  intros Hf. pose proof origin_check_all as H.
  rewrite forallb_forall in H. exact (H f (in_all_squares f Hf)).
Qed.

(** ** What the invariants say about one square *)

Lemma in_piece_types (pt : Z) : 1 <= pt <= 6 -> In pt piece_types.
Proof. unfold piece_types, PAWN, KNIGHT, BISHOP, ROOK, QUEEN, KING. simpl. lia. Qed.

Lemma in_colors (c : Color) : In c colors.
Proof. destruct c; simpl; auto. Qed.

Lemma position_ok_bb (p : Position) (c : Color) (pt s : Z) :
  position_ok p = true -> 0 <= s < 64 -> 1 <= pt <= 6 ->
  Z.testbit (bb p c pt) s = (piece_on p s =? piece_code c pt).
Proof.
  intros Hok Hs Hpt. unfold position_ok in Hok.
  apply andb_true_iff in Hok as [Hsq _].
  rewrite forallb_forall in Hsq. specialize (Hsq s (in_all_squares s Hs)).
  unfold square_ok in Hsq. apply andb_true_iff in Hsq as [Hb _].
  rewrite forallb_forall in Hb. specialize (Hb c (in_colors c)).
  rewrite forallb_forall in Hb. specialize (Hb pt (in_piece_types pt Hpt)).
  now apply Bool.eqb_prop in Hb.
Qed.

Lemma position_ok_occ (p : Position) (s : Z) :
  position_ok p = true -> 0 <= s < 64 ->
  Z.testbit (occupied_bb p) s = negb (piece_on p s =? 0).
Proof.
  intros Hok Hs. unfold position_ok in Hok.
  apply andb_true_iff in Hok as [Hsq _].
  rewrite forallb_forall in Hsq. specialize (Hsq s (in_all_squares s Hs)).
  unfold square_ok in Hsq. apply andb_true_iff in Hsq as [_ Ho].
  now apply Bool.eqb_prop in Ho.
Qed.

Lemma position_ok_u64 (p : Position) (c : Color) (pt : Z) :
  position_ok p = true -> 1 <= pt <= 6 -> U64 (bb p c pt).
Proof.
  intros Hok Hpt. unfold position_ok in Hok.
  apply andb_true_iff in Hok as [_ Hu].
  rewrite forallb_forall in Hu. specialize (Hu c (in_colors c)).
  rewrite forallb_forall in Hu. apply is_u64_U64.
  exact (Hu pt (in_piece_types pt Hpt)).
Qed.

Lemma enemy_piece_on_code (p : Position) (s : Z) (c : Color) (pt : Z) :
  1 <= pt <= 6 -> piece_on p s = piece_code c pt ->
  enemy_piece_on p s = color_eqb c (flip (side_to_move p)).
Proof.
  intros Hpt E. unfold enemy_piece_on. rewrite E.
  assert (Hc : In pt piece_types) by now apply in_piece_types.
  unfold piece_types in Hc. simpl in Hc.
  destruct Hc as [<-|[<-|[<-|[<-|[<-|[<-|[]]]]]]]; destruct c; reflexivity.
Qed.

Lemma enemy_piece_on_empty (p : Position) (s : Z) :
  piece_on p s = 0 -> enemy_piece_on p s = false.
Proof. intros E. unfold enemy_piece_on. now rewrite E. Qed.

Lemma enemy_of_bb (p : Position) (c : Color) (pt s : Z) :
  position_ok p = true -> 0 <= s < 64 -> 1 <= pt <= 6 ->
  Z.testbit (bb p c pt) s = true ->
  enemy_piece_on p s = color_eqb c (flip (side_to_move p)).
Proof.
  intros Hok Hs Hpt Hb. rewrite (position_ok_bb p c pt s Hok Hs Hpt) in Hb.
  apply Z.eqb_eq in Hb. now apply enemy_piece_on_code with (pt := pt).
Qed.

Lemma color_eqb_flip (c : Color) : color_eqb (flip c) (flip c) = true /\ color_eqb c (flip c) = false.
Proof. destruct c; split; reflexivity. Qed.

(** The capture targets of [generate_moves] *)
Lemma enemy_of_targets (p : Position) (s : Z) :
  position_ok p = true -> 0 <= s < 64 ->
  let them := flip (side_to_move p) in
  Z.testbit (Z.lor (Z.lor (Z.lor (Z.lor (bb p them PAWN) (bb p them KNIGHT))
                                 (bb p them BISHOP)) (bb p them ROOK)) (bb p them QUEEN)) s
  = true ->
  enemy_piece_on p s = true.
Proof.
  intros Hok Hs them H. subst them.
  rewrite !Z.lor_spec in H.
  destruct (color_eqb_flip (side_to_move p)) as [Ht _].
  repeat (apply orb_true_iff in H; destruct H as [H|H]);
    (erewrite enemy_of_bb; [exact Ht|exact Hok|exact Hs| |exact H]);
    unfold PAWN, KNIGHT, BISHOP, ROOK, QUEEN; lia.
Qed.

Lemma U64_targets (p : Position) :
  position_ok p = true ->
  let them := flip (side_to_move p) in
  U64 (Z.lor (Z.lor (Z.lor (Z.lor (bb p them PAWN) (bb p them KNIGHT))
                           (bb p them BISHOP)) (bb p them ROOK)) (bb p them QUEEN)).
Proof.
  intros Hok them.
  repeat apply U64_lor; apply position_ok_u64; try exact Hok;
    unfold PAWN, KNIGHT, BISHOP, ROOK, QUEEN; lia.
Qed.

Lemma not_enemy_of_empty (p : Position) (s : Z) :
  position_ok p = true -> 0 <= s < 64 ->
  Z.testbit (not64 (occupied_bb p)) s = true -> enemy_piece_on p s = false.
Proof.
  intros Hok Hs H. rewrite testbit_not64 in H by exact Hs.
  rewrite (position_ok_occ p s Hok Hs) in H. rewrite negb_involutive in H.
  apply Z.eqb_eq in H. now apply enemy_piece_on_empty.
Qed.

Lemma not_enemy_of_own (p : Position) (pt s : Z) :
  position_ok p = true -> 0 <= s < 64 -> 1 <= pt <= 6 ->
  Z.testbit (bb p (side_to_move p) pt) s = true -> enemy_piece_on p s = false.
Proof.
  intros Hok Hs Hpt H. rewrite (enemy_of_bb p _ pt s Hok Hs Hpt H).
  apply color_eqb_flip.
Qed.

(** ** The captures-only list is the capture part of the full list *)

Lemma enc_quiet (f t : Z) :
  0 <= f < 64 -> 0 <= t < 64 ->
  to_sq (mk_move f t) = t /\ is_en_passant (mk_move f t) = false.
Proof.
  intros Hf Ht. pose proof (enc_facts f t Hf Ht) as H. unfold enc_check in H.
  repeat (apply andb_true_iff in H; destruct H as [H ?]).
  split; [now apply Z.eqb_eq|now apply negb_true_iff].
Qed.

Lemma enc_promo (f t m : Z) :
  0 <= f < 64 -> 0 <= t < 64 -> In m (promotions f t) ->
  to_sq m = t /\ is_en_passant m = false.
Proof.
  intros Hf Ht Hm. pose proof (enc_facts f t Hf Ht) as H. unfold enc_check in H.
  repeat (apply andb_true_iff in H; destruct H as [H ?]).
  match goal with
  | Hp : forallb _ _ = true |- _ => rewrite forallb_forall in Hp; rename Hp into Hprom
  end.
  unfold promotions in Hm. simpl in Hm.
  destruct Hm as [<-|[<-|[<-|[<-|[]]]]];
    (match goal with
     | |- to_sq (make_promotion _ _ ?pt) = _ /\ _ =>
         assert (Hin : In pt [QUEEN; ROOK; BISHOP; KNIGHT]) by (simpl; tauto);
         specialize (Hprom pt Hin)
     end);
    apply andb_true_iff in Hprom; destruct Hprom as [Hq1 Hq2];
    (split; [now apply Z.eqb_eq|now apply negb_true_iff]).
Qed.

Lemma enc_castle (f t : Z) :
  0 <= f < 64 -> 0 <= t < 64 ->
  to_sq (Z.lor (mk_move f t) CASTLE_FLAG) = t
  /\ is_en_passant (Z.lor (mk_move f t) CASTLE_FLAG) = false.
Proof.
  intros Hf Ht. pose proof (enc_facts f t Hf Ht) as H. unfold enc_check in H.
  repeat (apply andb_true_iff in H; destruct H as [H ?]).
  split; [now apply Z.eqb_eq|now apply negb_true_iff].
Qed.

Lemma enc_ep (f t : Z) :
  0 <= f < 64 -> 0 <= t < 64 ->
  is_en_passant (Z.lor (mk_move f t) ENPASSANT_FLAG) = true.
Proof.
  intros Hf Ht. pose proof (enc_facts f t Hf Ht) as H. unfold enc_check in H.
  repeat (apply andb_true_iff in H; destruct H as [H ?]). assumption.
Qed.

Lemma is_capture_quiet (p : Position) (f t : Z) :
  0 <= f < 64 -> 0 <= t < 64 -> is_capture p (mk_move f t) = enemy_piece_on p t.
Proof.
  intros Hf Ht. unfold is_capture.
  destruct (enc_quiet f t Hf Ht) as [-> ->]. apply orb_false_r.
Qed.

Lemma is_capture_promo (p : Position) (f t m : Z) :
  0 <= f < 64 -> 0 <= t < 64 -> In m (promotions f t) ->
  is_capture p m = enemy_piece_on p t.
Proof.
  intros Hf Ht Hm. unfold is_capture.
  destruct (enc_promo f t m Hf Ht Hm) as [-> ->]. apply orb_false_r.
Qed.

Section CapturesOnly.
Variable p : Position.
Hypothesis Hok : position_ok p = true.

Let their_pieces_no_king : Z :=
  Z.lor (Z.lor (Z.lor (Z.lor (bb p (flip (side_to_move p)) PAWN)
                             (bb p (flip (side_to_move p)) KNIGHT))
                      (bb p (flip (side_to_move p)) BISHOP))
               (bb p (flip (side_to_move p)) ROOK))
        (bb p (flip (side_to_move p)) QUEEN).

Lemma target_is_enemy (attacks s : Z) :
  In s (squares (Z.land attacks their_pieces_no_king)) ->
  0 <= s < 64 /\ enemy_piece_on p s = true.
Proof.
  intros Hin. apply squares_spec in Hin; [|apply U64_land_r, U64_targets, Hok].
  destruct Hin as [Hs Hb]. split; [exact Hs|].
  rewrite Z.land_spec in Hb. apply andb_true_iff in Hb as [_ Hb].
  now apply enemy_of_targets.
Qed.

Lemma empty_is_not_enemy (attacks s : Z) :
  In s (squares (Z.land attacks (not64 (occupied_bb p)))) ->
  0 <= s < 64 /\ enemy_piece_on p s = false.
Proof.
  intros Hin. apply squares_spec in Hin; [|apply U64_land_r, U64_not64].
  destruct Hin as [Hs Hb]. split; [exact Hs|].
  rewrite Z.land_spec in Hb. apply andb_true_iff in Hb as [_ Hb].
  now apply not_enemy_of_empty.
Qed.

Lemma gen_targets_filter (from attacks : Z) :
  0 <= from < 64 ->
  filter (is_capture p)
         (gen_targets false from attacks their_pieces_no_king (not64 (occupied_bb p)))
  = gen_targets true from attacks their_pieces_no_king (not64 (occupied_bb p)).
Proof.
  intros Hf. unfold gen_targets. rewrite filter_app, filter_all, filter_none.
  - apply app_nil_r.
  - intros m Hm. apply in_map_iff in Hm as [t [<- Ht]].
    apply empty_is_not_enemy in Ht as [Ht He].
    now rewrite is_capture_quiet.
  - intros m Hm. apply in_map_iff in Hm as [t [<- Ht]].
    apply target_is_enemy in Ht as [Ht He].
    now rewrite is_capture_quiet.
Qed.

Lemma gen_pawn_filter (from : Z) :
  0 <= from < 64 ->
  filter (is_capture p) (gen_pawn p false (side_to_move p) their_pieces_no_king from)
  = gen_pawn p true (side_to_move p) their_pieces_no_king from.
Proof.
  intros Hf. unfold gen_pawn. cbn [negb andb].
  pose proof (origin_facts from Hf) as Ho. unfold origin_check in Ho.
  apply andb_true_iff in Ho as [Ho Hr6]. apply andb_true_iff in Ho as [Ho Hr1].
  apply andb_true_iff in Ho as [Hpw Hpb].
  apply is_u64_U64 in Hpw, Hpb.
  rewrite !filter_app. f_equal; [|f_equal].
  - (* pushes *)
    apply filter_none. intros m Hm.
    set (to := from + (match side_to_move p with WHITE => 8 | BLACK => -8 end)) in *.
    destruct ((0 <=? to) && (to <? 64) && (piece_on p to =? 0)) eqn:E; [|contradiction].
    apply andb_true_iff in E as [E E0]. apply andb_true_iff in E as [Elo Ehi].
    apply Z.leb_le in Elo. apply Z.ltb_lt in Ehi. apply Z.eqb_eq in E0.
    destruct (has _ (bit to)).
    + rewrite (is_capture_promo p from to m Hf (conj Elo Ehi) Hm).
      now apply enemy_piece_on_empty.
    + destruct Hm as [<-|Hm].
      * rewrite is_capture_quiet by lia. now apply enemy_piece_on_empty.
      * destruct (side_to_move p).
        -- destruct (rank_of from =? 1); [|contradiction]. cbn [implb] in Hr1.
           apply andb_true_iff in Hr1 as [Ha Hb].
           apply Z.leb_le in Ha. apply Z.ltb_lt in Hb.
           replace (from + 2 * 8) with (from + 16) in Hm by lia.
           destruct (piece_on p (from + 16) =? 0) eqn:E2; [|contradiction].
           apply Z.eqb_eq in E2. destruct Hm as [<-|[]].
           rewrite is_capture_quiet by lia. now apply enemy_piece_on_empty.
        -- destruct (rank_of from =? 6); [|contradiction]. cbn [implb] in Hr6.
           apply andb_true_iff in Hr6 as [Ha Hb].
           apply Z.leb_le in Ha. apply Z.ltb_lt in Hb.
           replace (from + 2 * -8) with (from - 16) in Hm by lia.
           destruct (piece_on p (from - 16) =? 0) eqn:E2; [|contradiction].
           apply Z.eqb_eq in E2. destruct Hm as [<-|[]].
           rewrite is_capture_quiet by lia. now apply enemy_piece_on_empty.
  - (* captures *)
    apply filter_all. intros m Hm. apply in_flat_map in Hm as [t [Ht Hm]].
    apply target_is_enemy in Ht as [Ht He].
    destruct (has _ (bit t)).
    + now rewrite (is_capture_promo p from t m Hf Ht Hm).
    + destruct Hm as [<-|[]]. now rewrite is_capture_quiet.
  - (* en passant *)
    apply filter_all. intros m Hm.
    destruct (negb (ep_sq p =? -1)); [|contradiction].
    destruct (Z.land (pawn_attacks (side_to_move p) from) (bit (ep_sq p)) =? 0) eqn:E;
      [contradiction|].
    apply Z.eqb_neq in E. apply land_bit_nonzero in E as [Hlo Hb].
    assert (Hhi : ep_sq p < 64).
    { destruct (Z_lt_le_dec (ep_sq p) 64) as [Hlt|Hge]; [exact Hlt|].
      destruct (side_to_move p); [destruct Hpw as [_ Hh]|destruct Hpb as [_ Hh]];
        rewrite Hh in Hb by lia; discriminate. }
    destruct Hm as [<-|[]]. unfold is_capture.
    rewrite enc_ep by lia. apply orb_true_r.
Qed.
End CapturesOnly.

(** The chain of checks in the castling block of [generate_moves]: when the
    move is emitted, the king's destination is the king's own square, or an
    empty square, or the castling rook's square. *)
Lemma castle_ok_chain (same_sq path_ok dest_empty dest_rook dest_att rook_home rook_ok king_att : bool) :
  (let ok :=
     if negb same_sq then
       let ok := path_ok in
       let ok := if ok && negb dest_empty && negb dest_rook then false else ok in
       if ok && dest_att then false else ok
     else true in
   let ok := if ok && negb rook_home then rook_ok else ok in
   let ok := if ok && king_att then false else ok in
   ok) = true ->
  same_sq = true \/ dest_empty = true \/ dest_rook = true.
Proof.
  destruct same_sq, path_ok, dest_empty, dest_rook, dest_att, rook_home, rook_ok, king_att;
    cbn; intros H; auto; discriminate.
Qed.

Section CastlingIsQuiet.
Variable p : Position.
Hypothesis Hok : position_ok p = true.

Lemma gen_castle_filter (side_idx : Z) :
  side_idx = 0 \/ side_idx = 1 ->
  bb p (side_to_move p) KING <> 0 ->
  filter (is_capture p) (gen_castle p (side_to_move p) side_idx) = [].
Proof.
  intros Hs Hk. apply filter_none. intros m Hm. unfold gen_castle in Hm.
  assert (HuK : U64 (bb p (side_to_move p) KING))
    by (apply position_ok_u64; [exact Hok|unfold KING; lia]).
  assert (HuR : U64 (bb p (side_to_move p) ROOK))
    by (apply position_ok_u64; [exact Hok|unfold ROOK; lia]).
  destruct (lsb_spec _ HuK Hk) as [Hksq Hkbit].
  set (ksq := lsb (bb p (side_to_move p) KING)) in *.
  set (rook_sq := castle_rook p (side_to_move p) side_idx) in *.
  destruct (rook_sq =? -1); [contradiction|].
  destruct (Z.land (bb p (side_to_move p) ROOK) (bit rook_sq) =? 0) eqn:Er; [contradiction|].
  apply Z.eqb_neq in Er. apply land_bit_nonzero in Er as [Hrlo Hrbit].
  assert (Hrhi : rook_sq < 64).
  { destruct (Z_lt_le_dec rook_sq 64) as [Hlt|Hge]; [exact Hlt|].
    destruct HuR as [_ Hh]. rewrite Hh in Hrbit by lia. discriminate. }
  destruct (negb _); [contradiction|].
  set (king_dest :=
         make_square (if side_idx =? 0 then 6 else 2)
                     (match side_to_move p with WHITE => 0 | BLACK => 7 end)) in *.
  assert (Hkd : 0 <= king_dest < 64).
  { unfold king_dest, make_square.
    destruct Hs as [-> | ->]; destruct (side_to_move p); cbn; lia. }
  match type of Hm with
  | In _ (if ?ok then _ else _) => destruct ok eqn:Eok; [|contradiction]
  end.
  destruct Hm as [<-|[]]. unfold is_capture.
  destruct (enc_castle ksq king_dest Hksq Hkd) as [-> ->]. rewrite orb_false_r.
  apply castle_ok_chain in Eok. destruct Eok as [E|[E|E]].
  - apply Z.eqb_eq in E. rewrite E.
    apply (not_enemy_of_own p KING ksq Hok Hksq); [unfold KING; lia|exact Hkbit].
  - apply Z.eqb_eq in E. now apply enemy_piece_on_empty.
  - apply Z.eqb_eq in E. rewrite E.
    apply (not_enemy_of_own p ROOK rook_sq Hok); [lia|unfold ROOK; lia|exact Hrbit].
Qed.
End CastlingIsQuiet.

(** C8: for every position that satisfies the mailbox/bitboard invariants of
    the data model, the list [generate_moves] produces with
    [captures_only = true] is exactly, and in the same order, the part of the
    list it produces with [captures_only = false] whose destination holds an
    enemy piece or that are en-passant captures: quiet moves, pushes, double
    pushes, castling and non-capturing promotions occur only in the full
    list, and every capture of the full list occurs in the captures list. *)
Theorem captures_only_is_capture_part (p : Position) :
  position_ok p = true ->
  generate_moves p true = filter (is_capture p) (generate_moves p false).
Proof.
  intros Hok. unfold generate_moves. cbv zeta.
  assert (Hfrom : forall pt s, 1 <= pt <= 6 ->
            In s (squares (bb p (side_to_move p) pt)) -> 0 <= s < 64).
  { intros pt s Hpt Hs. apply squares_spec in Hs; [tauto|].
    now apply position_ok_u64. }
  symmetry. rewrite !filter_app. cbn [negb andb].
  f_equal; [|f_equal; [|f_equal; [|f_equal; [|f_equal; [|f_equal]]]]].
  - apply filter_flat_map. intros s Hs. apply gen_targets_filter; [exact Hok|].
    apply (Hfrom KNIGHT); [unfold KNIGHT; lia|exact Hs].
  - apply filter_flat_map. intros s Hs. apply gen_targets_filter; [exact Hok|].
    apply (Hfrom BISHOP); [unfold BISHOP; lia|exact Hs].
  - apply filter_flat_map. intros s Hs. apply gen_targets_filter; [exact Hok|].
    apply (Hfrom ROOK); [unfold ROOK; lia|exact Hs].
  - apply filter_flat_map. intros s Hs. apply gen_targets_filter; [exact Hok|].
    apply (Hfrom QUEEN); [unfold QUEEN; lia|exact Hs].
  - destruct (bb p (side_to_move p) KING =? 0) eqn:Ek; cbn [negb]; [reflexivity|].
    apply Z.eqb_neq in Ek. apply gen_targets_filter; [exact Hok|].
    apply lsb_spec; [|exact Ek]. apply position_ok_u64; [exact Hok|unfold KING; lia].
  - apply filter_flat_map. intros s Hs. apply gen_pawn_filter; [exact Hok|].
    apply (Hfrom PAWN); [unfold PAWN; lia|exact Hs].
  - destruct (negb (is_check p) && negb (bb p (side_to_move p) KING =? 0)) eqn:E;
      [|reflexivity].
    apply andb_true_iff in E as [_ Ek]. apply negb_true_iff, Z.eqb_neq in Ek.
    cbn [flat_map]. rewrite app_nil_r, filter_app.
    rewrite !gen_castle_filter by (auto; lia). reflexivity.
Qed.

Lemma captures_only_witness :
  position_ok en_passant_pos = true
  /\ generate_moves en_passant_pos true
     = filter (is_capture en_passant_pos) (generate_moves en_passant_pos false).
Proof.
  split.
  - vm_compute. reflexivity.
  - apply (captures_only_is_capture_part en_passant_pos). vm_compute. reflexivity.
Defined.

(** ** Search: the transposition stage and the singular extension *)

Lemma zlist_eqb_eq (a b : list Z) : zlist_eqb a b = true -> a = b.
Proof.
  revert b. induction a as [|x a IH]; intros [|y b] H; cbn in H;
    try discriminate; [reflexivity|].
  apply andb_true_iff in H as [Hx Hr]. apply Z.eqb_eq in Hx.
  now rewrite Hx, (IH b Hr).
Qed.

Lemma color_eqb_eq (a b : Color) : color_eqb a b = true -> a = b.
Proof. destruct a, b; cbn; intros H; try reflexivity; discriminate. Qed.

Lemma position_eqb_eq (a b : Position) : position_eqb a b = true -> a = b.
Proof.
  unfold position_eqb. intros H.
  repeat (apply andb_true_iff in H; destruct H as [H ?]).
  destruct a, b; cbn in *.
  repeat match goal with
         | E : zlist_eqb _ _ = true |- _ => apply zlist_eqb_eq in E
         | E : (_ =? _) = true |- _ => apply Z.eqb_eq in E
         | E : color_eqb _ _ = true |- _ => apply color_eqb_eq in E
         | E : Bool.eqb _ _ = true |- _ => apply Bool.eqb_prop in E
         end.
  subst. reflexivity.
Qed.

Section SearchFacts.
Variable zk : ZobristKeys.
Variable eval_evaluate : Position -> Z.
Variable learning_probe : Z -> Z.
Variable tm_stop_early : Z -> bool.
Variable node_limit : Z.
Variable tb_can_probe : Position -> bool.
Variable tb_probe_wdl : Position -> Z.
Variable tb_probe_dtz : Position -> Z * bool.

(** When [negamax_probe] goes on, the probe did not hit. *)
Lemma negamax_probe_goes_on_without_hit
      (st : Search) (pos : Position) (depth alpha beta ply : Z)
      (st' : Search) (pr : Probed) :
  negamax_probe eval_evaluate learning_probe tb_can_probe tb_probe_dtz
                st pos depth alpha beta ply = Go (st', pr) ->
  pr_tt_hit pr = false.
Proof.
  unfold negamax_probe.
  destruct (probe _ _ _ _ _ _) as [hit out].
  destruct hit.
  - destruct (negb (o_dtz out =? 0)); [discriminate|].
    destruct (MATE_OFFSET <? o_score out); [discriminate|].
    destruct (o_score out <? - MATE_OFFSET); discriminate.
  - destruct (negb (o_dtz out =? 0) && (Z.abs (o_dtz out) <=? depth) && (0 <? o_dtz out));
      [discriminate|].
    intros H. injection H as _ <-. reflexivity.
Qed.

(** C3 (code defect): the claim asks that negamax, holding a transposition
    hit of depth at least 8 with a best move, no excluded move, not in check
    and a non-mate score, searches the other moves at half depth around
    [tt_score - 50] and extends by one ply when none reaches it.  In the
    source every hit returns the stored score before the singular block is
    reached, so the block's guard [tt_hit && ...] is never true: from the
    probe to the end of the block the result does not depend on the search
    function the block would call, and when the search goes on, it does so
    without a hit, at the depth and on the position it came with. *)
Theorem singular_extension_never_runs
        (nrec nrec' : NegamaxFn) (st : Search) (pos : Position)
        (depth alpha beta ply excluded : Z) :
  negamax_probe_and_singular eval_evaluate learning_probe tb_can_probe tb_probe_dtz
                             nrec st pos depth alpha beta ply excluded
  = negamax_probe_and_singular eval_evaluate learning_probe tb_can_probe tb_probe_dtz
                               nrec' st pos depth alpha beta ply excluded
  /\ match negamax_probe_and_singular eval_evaluate learning_probe tb_can_probe
                                      tb_probe_dtz nrec st pos depth alpha beta ply
                                      excluded with
     | Ret _ => True
     | Go (_, pos', depth', pr) => pr_tt_hit pr = false /\ depth' = depth /\ pos' = pos
     end.
Proof.
  unfold negamax_probe_and_singular.
  destruct (negamax_probe eval_evaluate learning_probe tb_can_probe tb_probe_dtz
                          st pos depth alpha beta ply) as [r|[st' pr]] eqn:E.
  - split; [reflexivity|exact I].
  - apply negamax_probe_goes_on_without_hit in E.
    unfold negamax_singular. rewrite E. cbn [andb].
    split; [reflexivity|]. repeat split. exact E.
Qed.
(** *** Terminal nodes *)

Lemma sort_desc_in {A : Type} (key : A -> Z) (x : A) (l : list A) :
  In x (sort_desc key l) -> In x l.
Proof.
  assert (Hins : forall y t, In x (insert_desc key y t) -> x = y \/ In x t).
  { intros y t. induction t as [|z t IH]; cbn [insert_desc].
    - intros [->|[]]. now left.
    - destruct (key z <? key y).
      + intros [->|H]; [now left|now right].
      + intros [->|H]; [right; now left|].
        destruct (IH H) as [->|Ht]; [now left|right; now right]. }
  induction l as [|y l IH]; cbn [sort_desc fold_right]; [auto|].
  intros H. apply Hins in H as [->|H]; [now left|right; now apply IH].
Qed.

Lemma blocked_either (pos : Position) (m : Z) :
  move_is_illegal zk pos m && position_eqb (make_then_undo zk pos m) pos = true ->
  (takes_king pos m = true \/ mover_in_check (make_move zk pos m) = true)
  /\ undo_move zk (make_move zk pos m) m (piece_on pos (to_sq m)) (castling_rights pos)
               (ep_sq pos) (halfmove_clock pos) = pos.
Proof.
  intros H. apply andb_true_iff in H as [Hi He]. split.
  - unfold move_is_illegal in Hi. now apply orb_true_iff in Hi.
  - apply position_eqb_eq in He. exact He.
Qed.

(** A round of the move loop of [negamax] on a move that is not legal leaves
    the window, the best score, the best move, the bound and the position
    as they were. *)
Lemma negamax_move_blocked
      (nrec : NegamaxFn) (scored : list ScoredMove) (depth beta ply : Z)
      (in_check_ : bool) (static_eval_ : Z) (improving : bool)
      (st : Search) (pos : Position) (alpha best best_move : Z) (bound : Bound)
      (i : Z) (sm : ScoredMove) :
  move_is_illegal zk pos (sm_move sm)
  && position_eqb (make_then_undo zk pos (sm_move sm)) pos = true ->
  exists st',
    negamax_move zk nrec scored depth beta ply in_check_ static_eval_ improving
      (Go {| l_st := st; l_pos := pos; l_alpha := alpha; l_best_score := best;
             l_best_move := best_move; l_bound := bound; l_break := false |})
      (i, sm)
    = Go {| l_st := st'; l_pos := pos; l_alpha := alpha; l_best_score := best;
            l_best_move := best_move; l_bound := bound; l_break := false |}.
Proof.
  intros H. apply blocked_either in H as [Hill Hundo].
  unfold negamax_move. cbn [l_break l_st l_pos l_alpha l_best_score l_best_move l_bound].
  destruct (takes_king pos (sm_move sm)) eqn:Ek; [eexists; reflexivity|].
  destruct Hill as [Hk|Hc]; [discriminate|].
  match goal with
  | |- context [if ?c then Go ?l else _] => destruct c; [eexists; reflexivity|]
  end.
  match goal with
  | |- context [if ?c then Go ?l else _] => destruct c; [eexists; reflexivity|]
  end.
  rewrite Hc, Hundo. eexists; reflexivity.
Qed.

Lemma negamax_loop_blocked
      (nrec : NegamaxFn) (scored : list ScoredMove) (depth beta ply : Z)
      (in_check_ : bool) (static_eval_ : Z) (improving : bool)
      (pos : Position) (alpha best best_move : Z) (bound : Bound)
      (todo : list (Z * ScoredMove)) :
  (forall ism, In ism todo ->
     move_is_illegal zk pos (sm_move (snd ism))
     && position_eqb (make_then_undo zk pos (sm_move (snd ism))) pos = true) ->
  forall st, exists st',
    fold_left (negamax_move zk nrec scored depth beta ply in_check_ static_eval_ improving)
      todo
      (Go {| l_st := st; l_pos := pos; l_alpha := alpha; l_best_score := best;
             l_best_move := best_move; l_bound := bound; l_break := false |})
    = Go {| l_st := st'; l_pos := pos; l_alpha := alpha; l_best_score := best;
            l_best_move := best_move; l_bound := bound; l_break := false |}.
Proof.
  induction todo as [|[i sm] todo IH]; intros Hall st; cbn [fold_left].
  - eexists; reflexivity.
  - destruct (negamax_move_blocked nrec scored depth beta ply in_check_ static_eval_
                improving st pos alpha best best_move bound i sm) as [st1 E].
    { apply (Hall (i, sm)). now left. }
    rewrite E. apply IH. intros ism Hin. apply Hall. now right.
Qed.

(** The same for a round of the move loop of [quiescence]. *)
Lemma quiescence_move_blocked
      (qrec : QuiescenceFn) (in_check_ : bool) (stand_pat beta ply q_depth : Z)
      (st : Search) (pos : Position) (alpha legal_count m : Z) :
  move_is_illegal zk pos m && position_eqb (make_then_undo zk pos m) pos = true ->
  exists st',
    quiescence_move zk qrec in_check_ stand_pat beta ply q_depth
                    (Go (st, pos, alpha, legal_count)) m
    = Go (st', pos, alpha, legal_count).
Proof.
  intros H. apply blocked_either in H as [Hill Hundo].
  unfold quiescence_move.
  destruct (takes_king pos m) eqn:Ek; [eexists; reflexivity|].
  destruct Hill as [Hk|Hc]; [discriminate|].
  destruct (negb in_check_ && _); [eexists; reflexivity|].
  rewrite Hc, Hundo. eexists; reflexivity.
Qed.

Lemma quiescence_loop_blocked
      (qrec : QuiescenceFn) (in_check_ : bool) (stand_pat beta ply q_depth : Z)
      (pos : Position) (alpha legal_count : Z) (todo : list Z) :
  (forall m, In m todo ->
     move_is_illegal zk pos m && position_eqb (make_then_undo zk pos m) pos = true) ->
  forall st, exists st',
    fold_left (quiescence_move zk qrec in_check_ stand_pat beta ply q_depth) todo
              (Go (st, pos, alpha, legal_count))
    = Go (st', pos, alpha, legal_count).
Proof.
  induction todo as [|m todo IH]; intros Hall st; cbn [fold_left].
  - eexists; reflexivity.
  - destruct (quiescence_move_blocked qrec in_check_ stand_pat beta ply q_depth st pos
                alpha legal_count m) as [st1 E]; [apply Hall; now left|].
    rewrite E. apply IH. intros m' Hin. apply Hall. now right.
Qed.

Lemma indexed_in {A : Type} (l : list A) (i : Z) (x : A) :
  In (i, x) (indexed l) -> In x l.
Proof. unfold indexed. apply in_combine_r. Qed.
Lemma no_legal_move_blocks (pos : Position) (m : Z) :
  no_legal_move zk pos = true -> In m (generate_moves pos false) ->
  move_is_illegal zk pos m && position_eqb (make_then_undo zk pos m) pos = true.
Proof.
  unfold no_legal_move. intros H Hin. rewrite forallb_forall in H. now apply H.
Qed.

Section Node.
Variable pos : Position.
Hypothesis Hno : no_legal_move zk pos = true.
Hypothesis Hquiet : is_check pos = true \/ generate_moves pos true = [].

Lemma quiescence_moves_blocked (m : Z) :
  In m (sort_desc (see pos)
          (if is_check pos then generate_moves pos false else generate_moves pos true)) ->
  move_is_illegal zk pos m && position_eqb (make_then_undo zk pos m) pos = true.
Proof.
  intros Hm. apply sort_desc_in in Hm.
  assert (Ec : is_check pos = true \/ is_check pos = false)
    by (destruct (is_check pos); [now left|now right]).
  destruct Ec as [Ec|Ec]; rewrite Ec in Hm.
  - now apply no_legal_move_blocks.
  - assert (Hcap : generate_moves pos true = [])
      by (destruct Hquiet as [H|H]; [congruence|exact H]).
    rewrite Hcap in Hm. contradiction.
Qed.

Lemma quiescence_body_keeps (qrec : QuiescenceFn) (st : Search)
      (alpha beta ply q_depth : Z) :
  snd (fst (quiescence_body zk eval_evaluate learning_probe tm_stop_early node_limit
                            tb_can_probe tb_probe_dtz qrec st pos alpha beta ply q_depth))
  = pos.
Proof.
  unfold quiescence_body.
  destruct (poll _ _); [reflexivity|].
  destruct (over_node_limit _ _); [reflexivity|].
  destruct (is_repetition pos 2); [reflexivity|].
  destruct (tb_can_probe pos && snd (tb_probe_dtz pos)); [reflexivity|].
  destruct (negb (is_check pos) && (beta <=? static_evaluation eval_evaluate learning_probe pos)); [reflexivity|].
  match goal with
  | |- context [fold_left (quiescence_move zk ?q ?ic ?sp ?b ?pl ?qd) ?l (Go (?s, pos, ?a, 0))] =>
      destruct (quiescence_loop_blocked q ic sp b pl qd pos a 0 l
                  quiescence_moves_blocked s) as [st' E]
  end.
  rewrite E. destruct (is_check pos && (0 =? 0)); reflexivity.
Qed.

Lemma quiescence_keeps (st : Search) (alpha beta ply q_depth : Z) :
  snd (fst (quiescence zk eval_evaluate learning_probe tm_stop_early node_limit
      tb_can_probe tb_probe_dtz st pos alpha beta ply q_depth)) = pos.
Proof.
  unfold quiescence. destruct (Z.to_nat _) as [|n]; cbn [quiescence_rounds]; [reflexivity|].
  destruct (MAX_PLY <=? ply); [reflexivity|]. apply quiescence_body_keeps.
Qed.


Lemma negamax_probe_facts (st : Search) (depth alpha beta ply : Z) :
  match negamax_probe eval_evaluate learning_probe tb_can_probe tb_probe_dtz
                      st pos depth alpha beta ply with
  | Ret r => snd (fst r) = pos
  | Go (_, pr) => pr_tt_hit pr = false /\ pr_in_check pr = is_check pos
                  /\ pr_static_eval pr = static_evaluation eval_evaluate learning_probe pos
  end.
Proof.
  unfold negamax_probe.
  destruct (probe _ _ _ _ _ _) as [hit out].
  destruct hit.
  - destruct (negb (o_dtz out =? 0)); [reflexivity|].
    destruct (MATE_OFFSET <? o_score out); [reflexivity|].
    destruct (o_score out <? - MATE_OFFSET); reflexivity.
  - destruct (negb (o_dtz out =? 0) && (Z.abs (o_dtz out) <=? depth) && (0 <? o_dtz out));
      [reflexivity|].
    cbn [pr_tt_hit pr_in_check pr_static_eval]. repeat split.
Qed.

Lemma probcut_without_captures (nrec : NegamaxFn) (st : Search)
      (depth alpha beta ply : Z) :
  generate_moves pos true = [] ->
  probcut zk nrec st pos depth alpha beta ply = (st, pos, - INF).
Proof.
  intros H. unfold probcut. rewrite H. cbn [fold_left].
  destruct (depth <? PROBCUT_DEPTH); [reflexivity|].
  destruct (beta <=? - INF); reflexivity.
Qed.

(** With [cut = false] the pruning block gives the position back. *)
Lemma negamax_pruning_keeps (nrec : NegamaxFn) (st : Search)
      (depth alpha beta ply : Z) (pr : Probed) :
  (forall st d a b e, snd (fst (nrec st pos d a b ply false e)) = pos) ->
  pr_in_check pr = is_check pos ->
  match negamax_pruning zk eval_evaluate learning_probe tm_stop_early node_limit
                        tb_can_probe tb_probe_dtz nrec st pos depth alpha beta ply false pr with
  | Ret r => snd (fst r) = pos
  | Go (_, pos') => pos' = pos
  end.
Proof.
  intros Hrec Hic. unfold negamax_pruning. rewrite Hic.
  destruct (depth <=? 0); [apply quiescence_keeps|].
  assert (Ec : is_check pos = true \/ is_check pos = false)
    by (destruct (is_check pos); [now left|now right]).
  destruct Ec as [Ec|Ec]; rewrite Ec.
  - cbn [negb andb]. rewrite !andb_false_r. cbn [andb]. reflexivity.
  - assert (Hcap : generate_moves pos true = [])
      by (destruct Hquiet as [H|H]; [congruence|exact H]).
    rewrite (probcut_without_captures nrec st depth alpha beta ply Hcap).
    cbn [negb andb]. rewrite !andb_false_r.
    change (negb (- INF =? - INF)) with false. cbv iota.
    destruct ((PROBCUT_DEPTH <=? depth) && true && (Z.abs beta <? MATE_SCORE - 1000));
      cbn [andb];
      (destruct (depth <=? 6);
        [destruct (_ <? alpha);
          [destruct (depth <=? 3);
            [pose proof (quiescence_keeps st alpha (alpha + 1) ply 0) as Hq;
             destruct (quiescence zk eval_evaluate learning_probe tm_stop_early node_limit
      tb_can_probe tb_probe_dtz st pos alpha (alpha + 1) ply 0) as [[st2 pos2] rscore];
             cbn [fst snd] in Hq; subst pos2;
             destruct (rscore <=? alpha); [reflexivity|]
            |pose proof (Hrec st (depth - 4) (- alpha - 1) (- alpha) NO_MOVE) as Hq;
             destruct (nrec st pos (depth - 4) (- alpha - 1) (- alpha) ply false NO_MOVE)
               as [[st2 pos2] v];
             cbn [fst snd] in Hq; subst pos2;
             destruct (- v <=? alpha); [reflexivity|]]
          |]
        |]);
      (destruct ((7 <? depth) && _); [reflexivity|]);
      (destruct ((depth <=? 7) && _); reflexivity).
Qed.


Lemma score_moves_in (st : Search) (moves : list Z) (ply tt_move excluded : Z)
      (sm : ScoredMove) :
  In sm (score_moves zk st pos moves ply tt_move excluded) -> In (sm_move sm) moves.
Proof.
  unfold score_moves. intros H. apply sort_desc_in in H.
  apply in_flat_map in H as [[i m] [Him H]].
  destruct (m =? excluded); [contradiction|].
  destruct H as [<-|[]]. cbn [sm_move]. now apply indexed_in in Him.
Qed.

(** Generation and ordering: with multi-cut out of the way and an internal
    search that gives the position back, the block either returns the mate
    or stalemate score on an empty move list, or goes on with moves that
    were generated for the position. *)
Lemma negamax_ordering_keeps (nrec : NegamaxFn) (st : Search)
      (depth alpha beta ply : Z) (cut : bool) (excluded : Z) (pr : Probed) :
  cut = false \/ pr_tt_move pr = NO_MOVE ->
  depth < IID_DEPTH
  \/ (forall st d a b e, snd (fst (nrec st pos d a b ply false e)) = pos) ->
  match negamax_ordering zk nrec st pos depth alpha beta ply cut excluded pr with
  | Ret r => r = (st, pos, if pr_in_check pr then - MATE_SCORE + ply else 0)
  | Go (_, pos', scored) =>
      pos' = pos
      /\ forall sm, In sm scored -> In (sm_move sm) (generate_moves pos false)
  end.
Proof.
  intros Hmc Hrec. unfold negamax_ordering.
  destruct (generate_moves pos false) as [|m0 moves] eqn:Eg; [reflexivity|].
  assert (Hskip : (6 <=? depth) && negb (pr_in_check pr) && cut
                  && negb (pr_tt_move pr =? NO_MOVE) = false).
  { destruct Hmc as [-> | ->]; [now rewrite andb_false_r|].
    rewrite Z.eqb_refl. apply andb_false_r. }
  rewrite Hskip.
  destruct ((pr_tt_move pr =? NO_MOVE) && (IID_DEPTH <=? depth)) eqn:Eiid.
  - apply andb_true_iff in Eiid as [_ Eiid]. apply Z.leb_le in Eiid.
    destruct Hrec as [Hlow|Hrec]; [lia|].
    pose proof (Hrec st (depth - IID_REDUCTION) alpha beta NO_MOVE) as Hk.
    destruct (nrec st pos (depth - IID_REDUCTION) alpha beta ply false NO_MOVE)
      as [[st1 pos1] v].
    cbn [fst snd] in Hk. split; [exact Hk|]. intros sm. apply score_moves_in.
  - split; [reflexivity|]. intros sm. apply score_moves_in.
Qed.

(** The move loop on moves none of which is legal, and what follows it *)
Lemma negamax_search_moves_blocked (nrec : NegamaxFn) (st : Search)
      (scored : list ScoredMove) (depth alpha beta ply : Z) (pr : Probed) :
  (forall sm, In sm scored -> In (sm_move sm) (generate_moves pos false)) ->
  exists st',
    negamax_search_moves zk nrec st pos scored depth alpha beta ply pr
    = (st', pos, if pr_in_check pr then - MATE_SCORE + ply else 0).
Proof.
  intros Hfrom. unfold negamax_search_moves.
  destruct (negamax_loop_blocked nrec scored depth beta ply (pr_in_check pr)
              (pr_static_eval pr)
              ((2 <=? ply) && (static_eval (frame st (ply - 2)) <? pr_static_eval pr))
              pos alpha (- INF) NO_MOVE BOUND_UPPER (indexed scored)) with (st := st)
    as [st' E].
  { intros [i sm] Hin. cbn [snd]. apply no_legal_move_blocks; [exact Hno|].
    apply Hfrom. now apply indexed_in in Hin. }
  rewrite E. unfold negamax_finish.
  cbn [l_best_score l_st l_pos l_bound l_best_move].
  rewrite Z.eqb_refl. eexists. reflexivity.
Qed.

(** A search entered with [cut = false] on such a node gives the position
    back, whatever it returns. *)
Lemma negamax_keeps (fuel : nat) : forall (st : Search) (depth alpha beta ply excluded : Z),
  snd (fst (negamax zk eval_evaluate learning_probe tm_stop_early node_limit
      tb_can_probe tb_probe_wdl tb_probe_dtz fuel st pos depth alpha beta ply false excluded)) = pos.
Proof.
  induction fuel as [|fuel IH]; intros st depth alpha beta ply excluded; [reflexivity|].
  cbn [negamax]. unfold negamax_body.
  destruct (negamax_entry _ _ _ _ _ _ _ _ _ _ _ _) as [r|[[st1 a1] b1]] eqn:Ee.
  { unfold negamax_entry in Ee.
    repeat match type of Ee with
    | (if ?c then _ else _) = _ => destruct c
    | match ?c with Some _ => _ | None => _ end = _ => destruct c
    end; inversion Ee; reflexivity. }
  unfold negamax_probe_and_singular.
  pose proof (negamax_probe_facts st1 depth a1 b1 ply) as Hp.
  destruct (negamax_probe _ _ _ _ _ _ _ _ _ _) as [r|[st2 pr]]; [exact Hp|].
  destruct Hp as [Hhit [Hic Hse]].
  unfold negamax_singular. rewrite Hhit. cbn [andb].
  pose proof (negamax_pruning_keeps (negamax zk eval_evaluate learning_probe tm_stop_early node_limit
      tb_can_probe tb_probe_wdl tb_probe_dtz fuel) st2 depth a1 b1 ply pr
                (fun s d a b e => IH s d a b ply e) Hic) as Hpr.
  destruct (negamax_pruning _ _ _ _ _ _ _ _ _ _ _ _ _ _ _ _) as [r|[st3 pos3]];
    [exact Hpr|]. subst pos3.
  pose proof (negamax_ordering_keeps (negamax zk eval_evaluate learning_probe tm_stop_early node_limit
      tb_can_probe tb_probe_wdl tb_probe_dtz fuel) st3 depth a1 b1 ply false excluded pr
                (or_introl eq_refl) (or_intror (fun s d a b e => IH s d a b ply e))) as Ho.
  destruct (negamax_ordering _ _ _ _ _ _ _ _ _ _ _) as [r|[[st4 pos4] scored]].
  { rewrite Ho. reflexivity. }
  destruct Ho as [-> Hfrom].
  destruct (negamax_search_moves_blocked (negamax zk eval_evaluate learning_probe tm_stop_early node_limit
      tb_can_probe tb_probe_wdl tb_probe_dtz fuel) st4 scored depth a1 b1 ply pr Hfrom)
    as [st5 E].
  rewrite E. reflexivity.
Qed.


End Node.

Lemma negamax_entry_goes_on (st : Search) (pos : Position) (depth alpha beta ply : Z) :
  ply < MAX_PLY ->
  poll tm_stop_early st = None -> over_node_limit node_limit st = false ->
  is_repetition pos 2 = false -> 0 < depth ->
  Z.max alpha (- MATE_SCORE + ply) < Z.min beta (MATE_SCORE - ply - 1) ->
  negamax_entry eval_evaluate learning_probe tm_stop_early node_limit tb_can_probe
                tb_probe_wdl st pos depth alpha beta ply
  = Go (st, Z.max alpha (- MATE_SCORE + ply), Z.min beta (MATE_SCORE - ply - 1)).
Proof.
  intros Hply Hpoll Hlim Hrep Hd Hwin. unfold negamax_entry.
  replace (MAX_PLY <=? ply) with false by (symmetry; apply Z.leb_gt; exact Hply).
  rewrite Hpoll, Hlim, Hrep.
  replace (depth <=? 0) with false by (symmetry; apply Z.leb_gt; exact Hd).
  rewrite andb_false_r. cbn [andb].
  replace (Z.min beta (MATE_SCORE - ply - 1) <=? Z.max alpha (- MATE_SCORE + ply))
    with false by (symmetry; apply Z.leb_gt; exact Hwin).
  reflexivity.
Qed.

Lemma negamax_probe_misses (st : Search) (pos : Position) (depth alpha beta ply : Z) :
  (e_key (bucket (tt st) (get_hash pos)) =? get_hash pos) = false ->
  exists st' pr,
    negamax_probe eval_evaluate learning_probe tb_can_probe tb_probe_dtz
                  st pos depth alpha beta ply = Go (st', pr)
    /\ pr_tt_hit pr = false /\ pr_in_check pr = is_check pos
    /\ pr_static_eval pr = static_evaluation eval_evaluate learning_probe pos /\ pr_tt_move pr = NO_MOVE.
Proof.
  intros Hk. unfold negamax_probe.
  change (tt (note_eval st ply (static_evaluation eval_evaluate learning_probe pos) (is_check pos))) with (tt st).
  unfold probe. unfold bucket in Hk. rewrite Hk.
  cbn [o_score o_move o_dtz andb negb Z.eqb]. cbv iota.
  eexists. eexists. split; [reflexivity|]. repeat split.
Qed.

(** The pruning block does nothing when the side to move is in check, and
    when none of its guards holds. *)
Lemma negamax_pruning_idle (nrec : NegamaxFn) (st : Search) (pos : Position)
      (depth alpha beta ply : Z) (cut : bool) (pr : Probed) :
  0 < depth ->
  pr_in_check pr = is_check pos -> pr_static_eval pr = static_evaluation eval_evaluate learning_probe pos ->
  is_check pos = true
  \/ no_forward_pruning pos depth alpha beta cut (static_evaluation eval_evaluate learning_probe pos) = true ->
  negamax_pruning zk eval_evaluate learning_probe tm_stop_early node_limit
                  tb_can_probe tb_probe_dtz nrec st pos depth alpha beta ply cut pr
  = Go (st, pos).
Proof.
  intros Hd Hic Hse Hcase. unfold negamax_pruning. rewrite Hic, Hse.
  replace (depth <=? 0) with false by (symmetry; apply Z.leb_gt; exact Hd).
  destruct (is_check pos) eqn:Ec.
  - cbn [negb andb]. rewrite !andb_false_r. cbn [andb]. reflexivity.
  - destruct Hcase as [H|H]; [discriminate|].
    unfold no_forward_pruning, razor_margin in H.
    apply andb_true_iff in H as [H H5]. apply andb_true_iff in H as [H H4].
    apply andb_true_iff in H as [H H3]. apply andb_true_iff in H as [H1 H2].
    apply negb_true_iff in H2, H3, H4, H5.
    cbn [negb andb].
    assert (Epc : (if (PROBCUT_DEPTH <=? depth) && true && (Z.abs beta <? MATE_SCORE - 1000)
                   then let '(st0, pos0, pc_score) := probcut zk nrec st pos depth alpha beta ply in
                        if negb (pc_score =? - INF) then Ret (st0, pos0, pc_score)
                        else Go (st0, pos0)
                   else Go (st, pos)) = @Go (Search * Position) (st, pos)).
    { destruct (PROBCUT_DEPTH <=? depth) eqn:E5; [|reflexivity].
      destruct (Z.abs beta <? MATE_SCORE - 1000); [|reflexivity]. cbn [andb].
      apply Z.leb_le in E5.
      replace (depth <? PROBCUT_DEPTH) with false in H1 by (symmetry; apply Z.ltb_ge; exact E5).
      cbn [orb] in H1. destruct (generate_moves pos true) eqn:Eg; [|discriminate].
      rewrite (probcut_without_captures pos nrec st depth alpha beta ply Eg). reflexivity. }
    rewrite Epc. cbv beta iota. rewrite H2. cbn [andb]. cbv beta iota.
    rewrite H4, H5.
    destruct (depth <=? 6); [|reflexivity].
    cbn [andb] in H3. rewrite H3. reflexivity.
Qed.


(** C10: when the key asked for differs from the resident entry's key,
    [probe] returns [false] and the three reference parameters keep the
    values they had; so in negamax, which seeds them with the static
    evaluation, no move and dtz 0 before probing, the search goes on with
    exactly those values. *)
Theorem probe_key_mismatch_is_frame
        (t : TranspositionTable) (key depth alpha beta : Z) (out : ProbeOut) :
  (e_key (bucket t key) =? key) = false ->
  probe t key depth alpha beta out = (false, out)
  /\ forall (st : Search) (pos : Position) (ply : Z),
       tt st = t -> get_hash pos = key ->
       match negamax_probe eval_evaluate learning_probe tb_can_probe tb_probe_dtz
                           st pos depth alpha beta ply with
       | Ret _ => False
       | Go (_, pr) =>
           pr_tt_hit pr = false
           /\ pr_tt_score pr = static_evaluation eval_evaluate learning_probe pos
           /\ pr_tt_move pr = NO_MOVE /\ pr_tt_dtz pr = 0
       end.
Proof.
  intros Hk.
  assert (Hp : forall o, probe t key depth alpha beta o = (false, o)).
  { intros o. unfold probe. unfold bucket in Hk. now rewrite Hk. }
  split; [apply Hp|].
  intros st pos ply Ht Hh. unfold negamax_probe.
  replace (tt (note_eval st ply (static_evaluation eval_evaluate learning_probe pos)
                         (is_check pos))) with t by (symmetry; exact Ht).
  rewrite Hh, Hp. cbn [o_score o_move o_dtz]. cbn.
  repeat split.
Qed.
End SearchFacts.

(** ** The theorems on concrete inputs *)

(** The start position with [startpos_table], searched to depth 8 with no
    excluded move and not in check: every condition of the singular block
    holds for the stored entry, and negamax returns the stored score 30 at
    the hit. *)
Example tt_hit_returns_before_singular :
  snd (negamax sample_keys (evaluate 0) no_learning never_stop 0 no_tablebase no_wdl no_dtz
               1 (new_search_thread startpos_table) (init_startpos sample_keys)
               8 (- INF) INF 0 true NO_MOVE) = 30
  /\ is_check (init_startpos sample_keys) = false
  /\ e_depth (bucket startpos_table (get_hash (init_startpos sample_keys))) = 10
  /\ e_move (bucket startpos_table (get_hash (init_startpos sample_keys))) = mk_move 12 28.
Proof. vm_compute. repeat split; reflexivity. Qed.



Lemma probe_key_mismatch_witness :
  (e_key (bucket startpos_table 7) =? 7) = false
  /\ probe startpos_table 7 3 (-50) 50 {| o_score := 12; o_move := 34; o_dtz := 0 |}
     = (false, {| o_score := 12; o_move := 34; o_dtz := 0 |}).
Proof.
  split.
  - vm_compute. reflexivity.
  - apply (probe_key_mismatch_is_frame (evaluate 0) no_learning no_tablebase no_dtz
             startpos_table 7 3 (-50) 50 {| o_score := 12; o_move := 34; o_dtz := 0 |}).
    vm_compute. reflexivity.
Defined.

(** ** [pop_lsb] loops visit exactly the set bits, lowest first *)

Lemma low_pos_nonneg (p : positive) : 0 <= low_pos p.
Proof. induction p; cbn [low_pos]; lia. Qed.

Lemma low_pos_spec (p : positive) :
  Z.testbit (Zpos p) (low_pos p) = true
  /\ forall j, 0 <= j < low_pos p -> Z.testbit (Zpos p) j = false.
Proof.
  induction p as [q IH|q IH|]; cbn [low_pos].
  - split; [reflexivity|intros j Hj; lia].
  - destruct IH as [IH1 IH2]. pose proof (low_pos_nonneg q) as Hq.
    rewrite Pos2Z.inj_xO. split.
    + replace (1 + low_pos q) with (Z.succ (low_pos q)) by lia.
      rewrite Z.testbit_even_succ by exact Hq. exact IH1.
    + intros j Hj. destruct (Z.eq_dec j 0) as [->|Hne]; [apply Z.testbit_even_0|].
      replace j with (Z.succ (j - 1)) by lia.
      rewrite Z.testbit_even_succ by lia. apply IH2. lia.
  - split; [reflexivity|intros j Hj; lia].
Qed.

Lemma land_pred_pos (p : positive) (i : Z) :
  0 <= i ->
  Z.testbit (Z.land (Zpos p) (Zpos p - 1)) i
  = Z.testbit (Zpos p) i && negb (i =? low_pos p).
Proof.
  revert i. induction p as [q IH|q IH|]; intros i Hi; cbn [low_pos].
  - rewrite Z.land_spec, Pos2Z.inj_xI.
    replace (2 * Zpos q + 1 - 1) with (2 * Zpos q) by lia.
    destruct (Z.eq_dec i 0) as [->|Hne].
    + rewrite Z.testbit_even_0. apply andb_false_r.
    + replace i with (Z.succ (i - 1)) by lia.
      rewrite Z.testbit_odd_succ, Z.testbit_even_succ by lia.
      destruct (Z.eqb_spec (Z.succ (i - 1)) 0) as [E|E]; [lia|].
      cbn [negb]. rewrite andb_true_r. apply andb_diag.
  - pose proof (low_pos_nonneg q) as Hq.
    rewrite Z.land_spec, Pos2Z.inj_xO.
    replace (2 * Zpos q - 1) with (2 * (Zpos q - 1) + 1) by lia.
    destruct (Z.eq_dec i 0) as [->|Hne].
    + rewrite Z.testbit_even_0. reflexivity.
    + replace i with (Z.succ (i - 1)) by lia.
      rewrite Z.testbit_odd_succ, Z.testbit_even_succ by lia.
      rewrite <- Z.land_spec, IH by lia. f_equal. f_equal.
      destruct (Z.eqb_spec (i - 1) (low_pos q)), (Z.eqb_spec (Z.succ (i - 1)) (1 + low_pos q));
        try reflexivity; lia.
  - change (Z.land 1 (1 - 1)) with 0. rewrite Z.bits_0.
    destruct (Z.eq_dec i 0) as [->|Hne]; [reflexivity|].
    replace i with (Z.succ (i - 1)) by lia.
    change 1 with (2 * 0 + 1). rewrite Z.testbit_odd_succ by lia.
    rewrite Z.bits_0. reflexivity.
Qed.

Lemma ctz_from_min (n : nat) (b : Z) : forall i j,
  i <= j < i + Z.of_nat n -> Z.testbit b j = true ->
  forall k, i <= k < ctz_from n i b -> Z.testbit b k = false.
Proof.
  induction n as [|n IH]; intros i j Hj Hb k Hk; [lia|].
  cbn [ctz_from] in Hk. destruct (Z.testbit b i) eqn:E; [lia|].
  destruct (Z.eq_dec k i) as [->|Hne]; [exact E|].
  assert (j <> i) by (intro; subst; congruence).
  apply (IH (i + 1) j); [lia|exact Hb|lia].
Qed.

(** [lsb] is the least set bit of a word that has one below 64. *)
Lemma lsb_least (b j : Z) :
  0 <= j < 64 -> Z.testbit b j = true ->
  0 <= lsb b <= j /\ Z.testbit b (lsb b) = true
  /\ forall k, 0 <= k < lsb b -> Z.testbit b k = false.
Proof.
  intros Hj Hb. unfold lsb.
  destruct (ctz_from_spec 64 b 0) as [H1 H2]; [exists j; split; [lia|exact Hb]|].
  assert (Hmin : forall k, 0 <= k < ctz_from 64 0 b -> Z.testbit b k = false).
  { intros k Hk. apply (ctz_from_min 64 b 0 j); [lia|exact Hb|exact Hk]. }
  split; [|split; [exact H2|exact Hmin]].
  split; [lia|]. destruct (Z_le_gt_dec (ctz_from 64 0 b) j) as [Hle|Hgt]; [exact Hle|].
  rewrite Hmin in Hb by lia. discriminate.
Qed.

(** [b & (b - 1)] clears the lowest set bit and nothing else. *)
Lemma pop_lsb_clears_lsb (b j i : Z) :
  0 <= b -> 0 <= j < 64 -> Z.testbit b j = true -> 0 <= i ->
  Z.testbit (snd (pop_lsb b)) i = Z.testbit b i && negb (i =? fst (pop_lsb b)).
Proof.
  intros H0 Hj Hb Hi. unfold pop_lsb. cbn [fst snd].
  destruct b as [|p|p]; [rewrite Z.bits_0 in Hb; discriminate| |lia].
  rewrite land_pred_pos by exact Hi.
  destruct (lsb_least (Zpos p) j Hj Hb) as [Hl [Hlb Hlmin]].
  destruct (low_pos_spec p) as [Hpb Hpmin]. pose proof (low_pos_nonneg p) as Hp0.
  assert (E : lsb (Zpos p) = low_pos p).
  { destruct (Z.lt_trichotomy (lsb (Zpos p)) (low_pos p)) as [Hlt|[Heq|Hgt]].
    - rewrite Hpmin in Hlb by lia. discriminate.
    - exact Heq.
    - rewrite Hlmin in Hpb by lia. discriminate. }
  now rewrite E.
Qed.

Lemma negative_high_bit (b : Z) :
  b < 0 -> exists i, 64 <= i /\ Z.testbit b i = true.
Proof.
  intro Hneg. pose proof (Z.log2_nonneg (Z.abs b)) as Hl.
  exists (Z.log2 (Z.abs b) + 64). split; [lia|].
  apply Z.bits_iff_neg; [lia|exact Hneg].
Qed.

Lemma squares_loop_upfrom (len : nat) : forall (n : nat) (b m : Z),
  0 <= m -> m + Z.of_nat len <= 64 -> (len <= n)%nat ->
  (forall i, 0 <= i -> Z.testbit b i = true -> m <= i < m + Z.of_nat len) ->
  squares_loop n b = filter (Z.testbit b) (upfrom len m).
Proof.
  induction len as [|l IH]; intros n b m Hm Hlen Hn Hbits.
  - assert (b = 0).
    { apply Z.bits_inj'. intros i Hi. rewrite Z.bits_0.
      destruct (Z.testbit b i) eqn:E; [|reflexivity].
      specialize (Hbits i Hi E). lia. }
    subst b. destruct n; reflexivity.
  - destruct n as [|n]; [lia|]. cbn [squares_loop upfrom filter].
    destruct (Z.eqb_spec b 0) as [->|Hne].
    + rewrite Z.bits_0. symmetry. apply filter_none.
      intros x _. apply Z.bits_0.
    + assert (Hb0 : 0 <= b).
      { destruct (Z_lt_le_dec b 0) as [Hneg|Hpos]; [|exact Hpos]. exfalso.
        destruct (negative_high_bit b Hneg) as [i [Hi Hti]].
        assert (Hi0 : 0 <= i) by lia.
        specialize (Hbits i Hi0 Hti). lia. }
      assert (Hset : exists j, 0 <= j < 64 /\ Z.testbit b j = true).
      { exists (Z.log2 b). pose proof (Z.log2_nonneg b) as Hl0.
        assert (Hlb : Z.testbit b (Z.log2 b) = true) by (apply Z.bit_log2; lia).
        specialize (Hbits _ Hl0 Hlb). split; [lia|exact Hlb]. }
      destruct Hset as [j [Hj Hjb]].
      destruct (lsb_least b j Hj Hjb) as [Hl [Hlb Hlmin]].
      pose proof (fun i Hi => pop_lsb_clears_lsb b j i Hb0 Hj Hjb Hi) as Hpop.
      unfold pop_lsb in *. cbn [fst snd] in Hpop.
      pose proof (Hbits (lsb b) ltac:(lia) Hlb) as Hk.
      destruct (Z.testbit b m) eqn:Em.
      * assert (lsb b = m).
        { destruct (Z.eq_dec (lsb b) m) as [E|E]; [exact E|].
          rewrite Hlmin in Em by lia. discriminate. }
        f_equal; [assumption|].
        rewrite (IH n (Z.land b (b - 1)) (m + 1)); try lia.
        -- apply filter_ext_in. intros a Ha.
           assert (Ha' : m + 1 <= a).
           { clear -Ha. revert Ha. generalize (m + 1). induction l as [|l IHl]; intros z Ha;
               cbn [upfrom] in Ha; [contradiction|].
             destruct Ha as [<-|Ha]; [lia|]. apply IHl in Ha. lia. }
           rewrite Hpop by lia.
           destruct (Z.eqb_spec a (lsb b)); [lia|]. apply andb_true_r.
        -- intros i Hi Hti. rewrite Hpop in Hti by exact Hi.
           apply andb_true_iff in Hti as [Hti Hne'].
           apply negb_true_iff, Z.eqb_neq in Hne'.
           specialize (Hbits i Hi Hti). lia.
      * rewrite <- (IH (S n) b (m + 1)); try lia.
        -- cbn [squares_loop]. destruct (Z.eqb_spec b 0); [contradiction|]. reflexivity.
        -- intros i Hi Hti. specialize (Hbits i Hi Hti).
           destruct (Z.eq_dec i m) as [->|]; [congruence|lia].
Qed.

Lemma all_squares_upfrom : all_squares = upfrom 64 0.
Proof. vm_compute. reflexivity. Qed.

(** The loop [while (b) { s = pop_lsb(b); ... }] visits the set bits of a
    64-bit word, each once, in increasing order. *)
Lemma squares_filter (b : Z) :
  U64 b -> squares b = filter (Z.testbit b) all_squares.
Proof.
  intros [H0 Hh]. rewrite all_squares_upfrom. unfold squares.
  apply squares_loop_upfrom; try lia.
  intros i Hi Ht. split; [lia|].
  destruct (Z_lt_le_dec i 64) as [Hlt|Hge]; [lia|].
  rewrite Hh in Ht by lia. discriminate.
Qed.

(** ** The evaluator on the mirrored position

    [evaluate] scores from the side to move, so mirroring a position (colours
    swapped, board reflected, other side to move) should leave the score as
    it is.  The terms of the evaluator are taken one by one. *)

(** ** Reflected bitboards *)

Lemma U64_ext (a b : Z) :
  U64 a -> U64 b -> (forall s, 0 <= s < 64 -> Z.testbit a s = Z.testbit b s) -> a = b.
Proof.
  intros [_ Ha] [_ Hb] H. apply Z.bits_inj'. intros n Hn.
  destruct (Z_lt_le_dec n 64) as [Hlt|Hge]; [apply H; lia|].
  now rewrite Ha, Hb by lia.
Qed.

Lemma testbit_bit (s i : Z) : 0 <= s -> Z.testbit (bit s) i = (s =? i).
Proof.
  intros Hs. rewrite bit_pow2. destruct (Z_lt_le_dec i 0) as [Hneg|Hpos].
  - rewrite Z.testbit_neg_r by lia. symmetry. apply Z.eqb_neq. lia.
  - apply Z.pow2_bits_eqb. lia.
Qed.

Lemma bb_of_fold (f : Z -> bool) (l : list Z) : forall acc i,
  (forall s, In s l -> 0 <= s) ->
  Z.testbit (fold_left (fun acc s => if f s then Z.lor acc (bit s) else acc) l acc) i
  = Z.testbit acc i || existsb (fun s => f s && (s =? i)) l.
Proof.
  induction l as [|a l IH]; intros acc i Hl; cbn [fold_left existsb].
  - now rewrite orb_false_r.
  - rewrite IH by (intros s Hs; apply Hl; now right).
    assert (Ha : 0 <= a) by (apply Hl; now left).
    destruct (f a); cbn [andb orb]; [|reflexivity].
    rewrite Z.lor_spec, testbit_bit by exact Ha. now rewrite orb_assoc.
Qed.

Lemma all_squares_range (s : Z) : In s all_squares -> 0 <= s < 64.
Proof.
  unfold all_squares. intros H. apply in_map_iff in H as [n [<- Hn]].
  apply in_seq in Hn. lia.
Qed.

Lemma testbit_bb_of (f : Z -> bool) (i : Z) :
  Z.testbit (bb_of f) i = (0 <=? i) && (i <? 64) && f i.
Proof.
  unfold bb_of. rewrite bb_of_fold by (intros s Hs; apply all_squares_range in Hs; lia).
  rewrite Z.bits_0. cbn [orb].
  destruct ((0 <=? i) && (i <? 64)) eqn:Er; cbn [andb].
  - apply andb_true_iff in Er as [E1 E2]. apply Z.leb_le in E1. apply Z.ltb_lt in E2.
    destruct (f i) eqn:Ef.
    + apply existsb_exists. exists i. split; [apply in_all_squares; lia|].
      now rewrite Ef, Z.eqb_refl.
    + destruct (existsb _ all_squares) eqn:Ee; [|reflexivity].
      apply existsb_exists in Ee as [x [_ Hx]]. apply andb_true_iff in Hx as [Hx1 Hx2].
      apply Z.eqb_eq in Hx2. subst x. congruence.
  - destruct (existsb _ all_squares) eqn:Ee; [|reflexivity].
    apply existsb_exists in Ee as [x [Hin Hx]]. apply andb_true_iff in Hx as [Hx1 Hx2].
    apply Z.eqb_eq in Hx2. subst x. apply all_squares_range in Hin.
    assert ((0 <=? i) && (i <? 64) = true)
      by (apply andb_true_iff; split; [apply Z.leb_le|apply Z.ltb_lt]; lia).
    congruence.
Qed.

Lemma bb_of_nonneg_fold (f : Z -> bool) (l : list Z) : forall acc,
  0 <= acc -> 0 <= fold_left (fun acc s => if f s then Z.lor acc (bit s) else acc) l acc.
Proof.
  induction l as [|a l IH]; intros acc Hacc; cbn [fold_left]; [exact Hacc|].
  apply IH. destruct (f a); [|exact Hacc].
  apply Z.lor_nonneg. split; [exact Hacc|]. unfold bit. apply Z.shiftl_nonneg. lia.
Qed.

Lemma U64_bb_of (f : Z -> bool) : U64 (bb_of f).
Proof.
  split.
  - apply bb_of_nonneg_fold. lia.
  - intros i Hi. rewrite testbit_bb_of.
    replace (i <? 64) with false by (symmetry; apply Z.ltb_ge; lia).
    now rewrite andb_false_r.
Qed.

Lemma U64_vflip (b : Z) : U64 (vflip b).
Proof. apply U64_bb_of. Qed.

Lemma testbit_vflip (b s : Z) :
  0 <= s < 64 -> Z.testbit (vflip b) s = Z.testbit b (flip_sq s).
Proof.
  intros Hs. unfold vflip. rewrite testbit_bb_of.
  replace (0 <=? s) with true by (symmetry; apply Z.leb_le; lia).
  replace (s <? 64) with true by (symmetry; apply Z.ltb_lt; lia).
  reflexivity.
Qed.

Lemma flip_sq_facts (s : Z) :
  0 <= s < 64 ->
  0 <= flip_sq s < 64 /\ flip_sq (flip_sq s) = s
  /\ file_of (flip_sq s) = file_of s /\ rank_of (flip_sq s) = 7 - rank_of s
  /\ 0 <= file_of s < 8 /\ 0 <= rank_of s < 8
  /\ make_square (file_of s) (rank_of s) = s.
Proof.
  intros Hs.
  assert (H : forallb (fun s =>
     (0 <=? flip_sq s) && (flip_sq s <? 64) && (flip_sq (flip_sq s) =? s)
     && (file_of (flip_sq s) =? file_of s) && (rank_of (flip_sq s) =? 7 - rank_of s)
     && (0 <=? file_of s) && (file_of s <? 8) && (0 <=? rank_of s) && (rank_of s <? 8)
     && (make_square (file_of s) (rank_of s) =? s))
     all_squares = true) by (vm_compute; reflexivity).
  rewrite forallb_forall in H. specialize (H s (in_all_squares s Hs)).
  repeat (apply andb_true_iff in H as [H ?]).
  repeat match goal with
  | E : (_ <=? _) = true |- _ => apply Z.leb_le in E
  | E : (_ <? _) = true |- _ => apply Z.ltb_lt in E
  | E : (_ =? _) = true |- _ => apply Z.eqb_eq in E
  end.
  repeat split; assumption.
Qed.

Lemma flip_sq_range (s : Z) : 0 <= s < 64 -> 0 <= flip_sq s < 64.
Proof. intros H. apply (flip_sq_facts s H). Qed.

Lemma flip_sq_invol (s : Z) : 0 <= s < 64 -> flip_sq (flip_sq s) = s.
Proof. intros H. apply (flip_sq_facts s H). Qed.

Lemma flip_make_square (f r : Z) :
  0 <= f < 8 -> 0 <= r < 8 -> flip_sq (make_square f r) = make_square f (7 - r).
Proof.
  intros Hf Hr.
  assert (H : forallb (fun f => forallb (fun r =>
     flip_sq (make_square f r) =? make_square f (7 - r)) files) files = true)
    by (vm_compute; reflexivity).
  rewrite forallb_forall in H.
  assert (Hin : forall x, 0 <= x < 8 -> In x files).
  { intros x Hx. unfold files.
    assert (x = 0 \/ x = 1 \/ x = 2 \/ x = 3 \/ x = 4 \/ x = 5 \/ x = 6 \/ x = 7) by lia.
    cbn [In]. intuition. }
  specialize (H f (Hin f Hf)). rewrite forallb_forall in H.
  specialize (H r (Hin r Hr)). now apply Z.eqb_eq in H.
Qed.

Lemma make_square_range (f r : Z) : 0 <= f < 8 -> 0 <= r < 8 -> 0 <= make_square f r < 64.
Proof. unfold make_square. lia. Qed.

Lemma vflip_lor (a b : Z) : vflip (Z.lor a b) = Z.lor (vflip a) (vflip b).
Proof.
  apply U64_ext; [apply U64_vflip|apply U64_lor; apply U64_vflip|].
  intros s Hs. now rewrite Z.lor_spec, !testbit_vflip, Z.lor_spec by exact Hs.
Qed.

Lemma vflip_land (a b : Z) : vflip (Z.land a b) = Z.land (vflip a) (vflip b).
Proof.
  apply U64_ext; [apply U64_vflip|apply U64_land_l; apply U64_vflip|].
  intros s Hs. now rewrite Z.land_spec, !testbit_vflip, Z.land_spec by exact Hs.
Qed.

Lemma vflip_not64 (a : Z) : vflip (not64 a) = not64 (vflip a).
Proof.
  apply U64_ext; [apply U64_vflip|apply U64_not64|].
  intros s Hs. pose proof (flip_sq_range s Hs).
  now rewrite testbit_not64, !testbit_vflip, testbit_not64 by assumption.
Qed.

Lemma vflip_0 : vflip 0 = 0.
Proof. vm_compute. reflexivity. Qed.

Lemma vflip_vflip (a : Z) : U64 a -> vflip (vflip a) = a.
Proof.
  intros Ha. apply U64_ext; [apply U64_vflip|exact Ha|].
  intros s Hs. pose proof (flip_sq_range s Hs).
  now rewrite !testbit_vflip, flip_sq_invol by assumption.
Qed.

Lemma U64_bit (s : Z) : 0 <= s < 64 -> U64 (bit s).
Proof.
  intros Hs. split; [unfold bit; apply Z.shiftl_nonneg; lia|].
  intros i Hi. rewrite testbit_bit by lia. apply Z.eqb_neq. lia.
Qed.

Lemma vflip_bit (s : Z) : 0 <= s < 64 -> vflip (bit s) = bit (flip_sq s).
Proof.
  intros Hs. pose proof (flip_sq_range s Hs) as Hf.
  apply U64_ext; [apply U64_vflip|now apply U64_bit|].
  intros i Hi. pose proof (flip_sq_range i Hi).
  rewrite testbit_vflip, !testbit_bit by lia.
  destruct (Z.eqb_spec s (flip_sq i)) as [->|Hne].
  - rewrite flip_sq_invol by exact Hi. symmetry. apply Z.eqb_refl.
  - symmetry. apply Z.eqb_neq. intros E. apply Hne. rewrite <- E.
    now rewrite flip_sq_invol.
Qed.

Lemma vflip_eq0 (a : Z) : U64 a -> (vflip a =? 0) = (a =? 0).
Proof.
  intros Ha. destruct (Z.eqb_spec a 0) as [->|Hne]; [now rewrite vflip_0|].
  apply Z.eqb_neq. intros E. apply Hne. rewrite <- (vflip_vflip a Ha), E. apply vflip_0.
Qed.

Lemma has_bit (b s : Z) : 0 <= s -> has b (bit s) = Z.testbit b s.
Proof.
  intros Hs. unfold has. destruct (Z.testbit b s) eqn:E.
  - apply negb_true_iff, Z.eqb_neq. intros H0.
    assert (Ht : Z.testbit (Z.land b (bit s)) s = true)
      by (rewrite Z.land_spec, E, testbit_bit, Z.eqb_refl by lia; reflexivity).
    rewrite H0, Z.bits_0 in Ht. discriminate.
  - apply negb_false_iff, Z.eqb_eq. apply Z.bits_inj'. intros n Hn.
    rewrite Z.land_spec, testbit_bit, Z.bits_0 by lia.
    destruct (Z.eqb_spec s n) as [->|]; [now rewrite E|apply andb_false_r].
Qed.

(** ** Sums and unions over the squares of a bitboard *)

Lemma fold_add_filter (f : Z -> Z) (t : Z -> bool) (l : list Z) : forall acc,
  fold_left (fun a s => a + f s) (filter t l) acc
  = fold_left (fun a s => a + (if t s then f s else 0)) l acc.
Proof.
  induction l as [|x l IH]; intros acc; cbn [filter fold_left]; [reflexivity|].
  destruct (t x); cbn [fold_left]; rewrite IH; [reflexivity|]. now rewrite Z.add_0_r.
Qed.

Lemma sum_over_all (b : Z) (f : Z -> Z) :
  U64 b ->
  sum_over b f
  = fold_left (fun a s => a + (if Z.testbit b s then f s else 0)) all_squares 0.
Proof.
  intros Hb. unfold sum_over. rewrite squares_filter by exact Hb.
  apply fold_add_filter.
Qed.

Lemma fold_add_ext (g h : Z -> Z) (l : list Z) : forall acc,
  (forall s, In s l -> g s = h s) ->
  fold_left (fun a s => a + g s) l acc = fold_left (fun a s => a + h s) l acc.
Proof.
  induction l as [|x l IH]; intros acc H; cbn [fold_left]; [reflexivity|].
  rewrite (H x (or_introl eq_refl)). apply IH. intros s Hs. apply H. now right.
Qed.

Lemma fold_add_flip (g : Z -> Z) :
  fold_left (fun a s => a + g (flip_sq s)) all_squares 0
  = fold_left (fun a s => a + g s) all_squares 0.
Proof.
  set (l := all_squares). vm_compute in l. subst l.
  cbn [fold_left].
  repeat match goal with
  | |- context [flip_sq ?k] =>
      let v := eval vm_compute in (flip_sq k) in change (flip_sq k) with v
  end.
  lia.
Qed.

Lemma sum_over_ext (b : Z) (f g : Z -> Z) :
  U64 b -> (forall s, 0 <= s < 64 -> Z.testbit b s = true -> f s = g s) ->
  sum_over b f = sum_over b g.
Proof.
  intros Hb H. rewrite !sum_over_all by exact Hb. apply fold_add_ext.
  intros s Hs. apply all_squares_range in Hs.
  destruct (Z.testbit b s) eqn:E; [now apply H|reflexivity].
Qed.

(** Summing over the reflected board is summing over the board, with each
    square reflected. *)
Lemma sum_over_vflip (b : Z) (f : Z -> Z) :
  U64 b -> sum_over (vflip b) f = sum_over b (fun s => f (flip_sq s)).
Proof.
  intros Hb. rewrite !sum_over_all by (exact Hb || apply U64_vflip).
  rewrite <- (fold_add_flip (fun s => if Z.testbit b s then f (flip_sq s) else 0)).
  apply fold_add_ext. intros s Hs. apply all_squares_range in Hs.
  rewrite testbit_vflip, flip_sq_invol by exact Hs. reflexivity.
Qed.

Lemma sum_over_0 (f : Z -> Z) : sum_over 0 f = 0.
Proof. reflexivity. Qed.

Lemma fold_add_scale (k : Z) (g : Z -> Z) (l : list Z) : forall acc,
  fold_left (fun a s => a + k * g s) l (k * acc) = k * fold_left (fun a s => a + g s) l acc.
Proof.
  induction l as [|x l IH]; intros acc; cbn [fold_left]; [reflexivity|].
  rewrite <- IH. f_equal. lia.
Qed.

Lemma sum_over_opp (b : Z) (f : Z -> Z) :
  sum_over b (fun s => - f s) = - sum_over b f.
Proof.
  unfold sum_over.
  pose proof (fold_add_scale (-1) f (squares b) 0) as H.
  replace (-1 * 0) with 0 in H by lia.
  replace (- fold_left (fun acc sq => acc + f sq) (squares b) 0)
    with (-1 * fold_left (fun a s => a + f s) (squares b) 0) by lia.
  rewrite <- H. apply fold_add_ext. intros; lia.
Qed.

(** *** Counting *)

Lemma upfrom_shift (g : Z -> Z) (n : nat) : forall m acc,
  fold_left (fun a s => a + g s) (upfrom n (m + 1)) acc
  = fold_left (fun a s => a + g (s + 1)) (upfrom n m) acc.
Proof.
  induction n as [|n IH]; intros m acc; cbn [upfrom fold_left]; [reflexivity|].
  apply IH.
Qed.

Lemma upfrom_ge (n : nat) : forall m s, In s (upfrom n m) -> m <= s.
Proof.
  induction n as [|n IH]; intros m s H; cbn [upfrom] in H; [contradiction|].
  destruct H as [<-|H]; [lia|]. apply IH in H. lia.
Qed.

Lemma fold_add_acc (g : Z -> Z) (l : list Z) : forall acc,
  fold_left (fun a s => a + g s) l acc = acc + fold_left (fun a s => a + g s) l 0.
Proof.
  induction l as [|x l IH]; intros acc; cbn [fold_left]; [lia|].
  rewrite IH, (IH (0 + g x)). lia.
Qed.

Lemma bitsum_0 (n : nat) : forall m,
  fold_left (fun a s => a + b2z (Z.testbit 0 s)) (upfrom n m) 0 = 0.
Proof.
  induction n as [|n IH]; intros m; cbn [upfrom fold_left]; [reflexivity|].
  rewrite Z.bits_0. apply IH.
Qed.

Lemma popcount_pos_bits (n : nat) : forall p,
  Zpos p < 2 ^ Z.of_nat n ->
  popcount_pos p = fold_left (fun a s => a + b2z (Z.testbit (Zpos p) s)) (upfrom n 0) 0.
Proof.
  induction n as [|n IH]; intros p Hp; [cbn in Hp; lia|].
  rewrite Nat2Z.inj_succ, Z.pow_succ_r in Hp by lia.
  cbn [upfrom fold_left]. rewrite fold_add_acc.
  change (0 + 1) with (0 + 1). rewrite upfrom_shift.
  destruct p as [q|q|]; cbn [popcount_pos].
  - rewrite (IH q) by lia. rewrite Pos2Z.inj_xI.
    rewrite Z.testbit_odd_0. cbn [b2z]. f_equal.
    apply fold_add_ext. intros s Hs.
    pose proof (upfrom_ge n 0 s Hs).
    replace (s + 1) with (Z.succ s) by lia. now rewrite Z.testbit_odd_succ.
  - rewrite (IH q) by lia. rewrite Pos2Z.inj_xO.
    rewrite Z.testbit_even_0. cbn [b2z]. rewrite Z.add_0_l.
    apply fold_add_ext. intros s Hs.
    pose proof (upfrom_ge n 0 s Hs).
    replace (s + 1) with (Z.succ s) by lia. now rewrite Z.testbit_even_succ.
  - cbn [Z.testbit b2z].
    assert (E : fold_left (fun a s => a + b2z (Z.testbit 1 (s + 1))) (upfrom n 0) 0 = 0).
    { transitivity (fold_left (fun a s => a + b2z (Z.testbit 0 s)) (upfrom n 0) 0);
        [|apply bitsum_0].
      apply fold_add_ext. intros s Hs.
      pose proof (upfrom_ge n 0 s Hs).
      replace (s + 1) with (Z.succ s) by lia.
      change 1 with (2 * 0 + 1) at 1. rewrite Z.testbit_odd_succ by lia. reflexivity. }
    rewrite E. reflexivity.
Qed.

(** [popcount] counts the set bits of a 64-bit word. *)
Lemma popcount_bits (b : Z) :
  U64 b ->
  popcount b = fold_left (fun a s => a + b2z (Z.testbit b s)) all_squares 0.
Proof.
  intros [H0 Hh]. rewrite all_squares_upfrom.
  destruct b as [|p|p]; [symmetry; apply bitsum_0| |lia].
  cbn [popcount]. apply (popcount_pos_bits 64).
  destruct (Z_lt_le_dec (Zpos p) (2 ^ 64)) as [Hlt|Hge]; [exact Hlt|exfalso].
  assert (Hl : 64 <= Z.log2 (Zpos p)) by (apply Z.log2_le_pow2; lia).
  assert (Hb : Z.testbit (Zpos p) (Z.log2 (Zpos p)) = true) by (apply Z.bit_log2; lia).
  rewrite Hh in Hb by lia. discriminate.
Qed.

Lemma popcount_vflip (b : Z) : U64 b -> popcount (vflip b) = popcount b.
Proof.
  intros Hb. rewrite !popcount_bits by (exact Hb || apply U64_vflip).
  rewrite <- (fold_add_flip (fun s => b2z (Z.testbit b s))).
  apply fold_add_ext. intros s Hs. apply all_squares_range in Hs.
  now rewrite testbit_vflip.
Qed.

(** *** Unions *)

Lemma fold_lor_testbit (g : Z -> Z) (l : list Z) (i : Z) : forall acc,
  Z.testbit (fold_left (fun a s => Z.lor a (g s)) l acc) i
  = Z.testbit acc i || existsb (fun s => Z.testbit (g s) i) l.
Proof.
  induction l as [|x l IH]; intros acc; cbn [fold_left existsb].
  - now rewrite orb_false_r.
  - rewrite IH, Z.lor_spec. now rewrite orb_assoc.
Qed.

Lemma testbit_union_over (b : Z) (f : Z -> Z) (i : Z) :
  U64 b ->
  Z.testbit (union_over b f) i
  = existsb (fun s => Z.testbit b s && Z.testbit (f s) i) all_squares.
Proof.
  intros Hb. unfold union_over. rewrite fold_lor_testbit, Z.bits_0.
  rewrite squares_filter by exact Hb. cbn [orb].
  induction all_squares as [|x l IH]; cbn [filter existsb]; [reflexivity|].
  destruct (Z.testbit b x); cbn [existsb andb orb]; now rewrite IH.
Qed.

Lemma U64_fold_lor (g : Z -> Z) (l : list Z) : forall acc,
  U64 acc -> (forall s, In s l -> U64 (g s)) ->
  U64 (fold_left (fun a s => Z.lor a (g s)) l acc).
Proof.
  induction l as [|x l IH]; intros acc Ha H; cbn [fold_left]; [exact Ha|].
  apply IH; [apply U64_lor; [exact Ha|apply H; now left]|].
  intros s Hs. apply H. now right.
Qed.

Lemma U64_0 : U64 0.
Proof. split; [lia|intros; apply Z.bits_0]. Qed.

Lemma U64_union_over (b : Z) (f : Z -> Z) :
  U64 b -> (forall s, 0 <= s < 64 -> U64 (f s)) -> U64 (union_over b f).
Proof.
  intros Hb H. unfold union_over. apply U64_fold_lor; [apply U64_0|].
  intros s Hs. apply squares_spec in Hs; [|exact Hb]. apply H. tauto.
Qed.

(** The union over the reflected board of [g] is the reflection of the union
    over the board of [f], when [g] at a reflected square is the reflection
    of [f] at the square. *)
Lemma union_over_vflip (b : Z) (f g : Z -> Z) :
  U64 b ->
  (forall s, 0 <= s < 64 -> Z.testbit b s = true -> g (flip_sq s) = vflip (f s)) ->
  (forall s, 0 <= s < 64 -> U64 (g s)) ->
  union_over (vflip b) g = vflip (union_over b f).
Proof.
  intros Hb H Hg.
  apply U64_ext; [apply U64_union_over; [apply U64_vflip|exact Hg]|apply U64_vflip|].
  intros i Hi. pose proof (flip_sq_range i Hi) as Hfi.
  rewrite testbit_vflip, !testbit_union_over by (exact Hi || exact Hb || apply U64_vflip).
  apply eq_iff_eq_true. rewrite !existsb_exists. split.
  - intros [x [Hx Hxb]]. apply all_squares_range in Hx.
    pose proof (flip_sq_range x Hx) as Hfx.
    exists (flip_sq x). split; [apply in_all_squares; exact Hfx|].
    apply andb_true_iff in Hxb as [H1 H2].
    rewrite testbit_vflip in H1 by exact Hx.
    rewrite H1. cbn [andb].
    specialize (H (flip_sq x) Hfx H1). rewrite flip_sq_invol in H by exact Hx.
    rewrite H in H2. now rewrite testbit_vflip in H2 by exact Hi.
  - intros [x [Hx Hxb]]. apply all_squares_range in Hx.
    pose proof (flip_sq_range x Hx) as Hfx.
    exists (flip_sq x). split; [apply in_all_squares; exact Hfx|].
    apply andb_true_iff in Hxb as [H1 H2].
    rewrite testbit_vflip, flip_sq_invol, H1 by assumption. cbn [andb].
    rewrite (H x Hx H1), testbit_vflip by exact Hi. exact H2.
Qed.

(** ** Attack sets under reflection *)

Lemma attack_flip_all : forallb attack_flip_check all_squares = true.
Proof. vm_compute. reflexivity. Qed.

Lemma attack_flip (s : Z) :
  0 <= s < 64 ->
  knight_attacks (flip_sq s) = vflip (knight_attacks s)
  /\ king_attacks (flip_sq s) = vflip (king_attacks s)
  /\ (forall c, pawn_attacks (flip c) (flip_sq s) = vflip (pawn_attacks c s))
  /\ U64 (knight_attacks s) /\ U64 (king_attacks s)
  /\ (forall c, U64 (pawn_attacks c s)).
Proof.
  intros Hs. pose proof attack_flip_all as H. rewrite forallb_forall in H.
  specialize (H s (in_all_squares s Hs)). unfold attack_flip_check in H.
  repeat (apply andb_true_iff in H as [H ?]).
  repeat match goal with
  | E : (_ =? _) = true |- _ => apply Z.eqb_eq in E
  | E : is_u64 _ = true |- _ => apply is_u64_U64 in E
  end.
  pose proof (origin_facts s Hs) as Ho. unfold origin_check in Ho.
  apply andb_true_iff in Ho as [Ho _]. apply andb_true_iff in Ho as [Ho _].
  apply andb_true_iff in Ho as [Ho1 Ho2].
  apply is_u64_U64 in Ho1. apply is_u64_U64 in Ho2.
  split; [assumption|]. split; [assumption|].
  split; [intros [|]; assumption|].
  split; [assumption|]. split; [assumption|].
  intros [|]; assumption.
Qed.

Lemma on_board_flip (f r : Z) : on_board f (7 - r) = on_board f r.
Proof.
  unfold on_board.
  destruct (Z.leb_spec 0 f), (Z.ltb_spec f 8), (Z.leb_spec 0 r), (Z.ltb_spec r 8),
    (Z.leb_spec 0 (7 - r)), (Z.ltb_spec (7 - r) 8); cbn; try reflexivity; lia.
Qed.

Lemma on_board_range (f r : Z) : on_board f r = true -> 0 <= f < 8 /\ 0 <= r < 8.
Proof.
  unfold on_board. intros H. repeat (apply andb_true_iff in H as [H ?]).
  repeat match goal with
  | E : (_ <=? _) = true |- _ => apply Z.leb_le in E
  | E : (_ <? _) = true |- _ => apply Z.ltb_lt in E
  end. lia.
Qed.

Lemma U64_ray (n : nat) : forall f r df dr occ, U64 (ray n f r df dr occ).
Proof.
  induction n as [|n IH]; intros f r df dr occ; cbn [ray]; [apply U64_0|].
  destruct (on_board (f + df) (r + dr)) eqn:E; [|apply U64_0].
  apply on_board_range in E as [Hf Hr].
  pose proof (make_square_range _ _ Hf Hr).
  destruct (has occ _); [now apply U64_bit|].
  apply U64_lor; [now apply U64_bit|apply IH].
Qed.

Lemma ray_flip (n : nat) : forall f r df dr occ,
  ray n f (7 - r) df (- dr) (vflip occ) = vflip (ray n f r df dr occ).
Proof.
  induction n as [|n IH]; intros f r df dr occ; cbn [ray]; [now rewrite vflip_0|].
  replace (7 - r + - dr) with (7 - (r + dr)) by lia.
  rewrite on_board_flip.
  destruct (on_board (f + df) (r + dr)) eqn:E; [|now rewrite vflip_0].
  apply on_board_range in E as [Hf Hr].
  pose proof (make_square_range _ _ Hf Hr) as Hm.
  rewrite <- flip_make_square by assumption.
  pose proof (flip_sq_range _ Hm) as Hfm.
  rewrite !has_bit by lia. rewrite testbit_vflip by exact Hfm.
  rewrite flip_sq_invol by exact Hm.
  destruct (Z.testbit occ _).
  - now rewrite vflip_bit.
  - rewrite vflip_lor, vflip_bit by exact Hm. f_equal.
    apply IH.
Qed.

Lemma rook_attacks_flip (s occ : Z) :
  0 <= s < 64 ->
  rook_attacks_magic (flip_sq s) (vflip occ) = vflip (rook_attacks_magic s occ).
Proof.
  intros Hs. destruct (flip_sq_facts s Hs) as [_ [_ [Hf [Hr _]]]].
  unfold rook_attacks_magic. rewrite Hf, Hr, !vflip_lor.
  rewrite <- !ray_flip. cbn [Z.opp].
  apply U64_ext; [repeat apply U64_lor; apply U64_ray|repeat apply U64_lor; apply U64_ray|].
  intros i Hi. rewrite !Z.lor_spec.
  repeat match goal with |- context [Z.testbit ?x i] =>
    is_var x || (let t := fresh "t" in generalize (Z.testbit x i); intros t) end.
  repeat match goal with t : bool |- _ => destruct t end; reflexivity.
Qed.

Lemma bishop_attacks_flip (s occ : Z) :
  0 <= s < 64 ->
  bishop_attacks_magic (flip_sq s) (vflip occ) = vflip (bishop_attacks_magic s occ).
Proof.
  intros Hs. destruct (flip_sq_facts s Hs) as [_ [_ [Hf [Hr _]]]].
  unfold bishop_attacks_magic. rewrite Hf, Hr, !vflip_lor.
  rewrite <- !ray_flip. cbn [Z.opp].
  apply U64_ext; [repeat apply U64_lor; apply U64_ray|repeat apply U64_lor; apply U64_ray|].
  intros i Hi. rewrite !Z.lor_spec.
  repeat match goal with |- context [Z.testbit ?x i] =>
    is_var x || (let t := fresh "t" in generalize (Z.testbit x i); intros t) end.
  repeat match goal with t : bool |- _ => destruct t end; reflexivity.
Qed.

Lemma queen_attacks_flip (s occ : Z) :
  0 <= s < 64 ->
  queen_attacks_magic (flip_sq s) (vflip occ) = vflip (queen_attacks_magic s occ).
Proof.
  intros Hs. unfold queen_attacks_magic.
  now rewrite vflip_lor, rook_attacks_flip, bishop_attacks_flip.
Qed.

Lemma U64_rook_attacks (s occ : Z) : U64 (rook_attacks_magic s occ).
Proof. unfold rook_attacks_magic. repeat apply U64_lor; apply U64_ray. Qed.

Lemma U64_bishop_attacks (s occ : Z) : U64 (bishop_attacks_magic s occ).
Proof. unfold bishop_attacks_magic. repeat apply U64_lor; apply U64_ray. Qed.

Lemma U64_queen_attacks (s occ : Z) : U64 (queen_attacks_magic s occ).
Proof.
  unfold queen_attacks_magic. apply U64_lor; [apply U64_rook_attacks|apply U64_bishop_attacks].
Qed.

(** ** A board with one square *)

Lemma popcount_pos_pos (p : positive) : 1 <= popcount_pos p.
Proof. induction p; cbn [popcount_pos]; lia. Qed.

Lemma popcount_pos_one (p : positive) : popcount_pos p = 1 -> Zpos p = bit (low_pos p).
Proof.
  induction p as [q IH|q IH|]; cbn [popcount_pos low_pos]; intros H.
  - pose proof (popcount_pos_pos q). lia.
  - rewrite Pos2Z.inj_xO, (IH H), !bit_pow2.
    rewrite Z.pow_add_r by (pose proof (low_pos_nonneg q); lia). reflexivity.
  - reflexivity.
Qed.

Lemma at_most_one (b : Z) :
  U64 b -> popcount b <= 1 -> b = 0 \/ exists k, 0 <= k < 64 /\ b = bit k.
Proof.
  intros Hb Hp. destruct b as [|p|p]; [now left| |destruct Hb; lia].
  right. cbn [popcount] in Hp. pose proof (popcount_pos_pos p).
  assert (E : Zpos p = bit (low_pos p)) by (apply popcount_pos_one; lia).
  exists (low_pos p). split; [|exact E].
  pose proof (low_pos_nonneg p). split; [lia|].
  destruct (Z_lt_le_dec (low_pos p) 64) as [Hlt|Hge]; [exact Hlt|exfalso].
  destruct Hb as [_ Hh]. specialize (Hh (low_pos p) Hge).
  rewrite E, testbit_bit, Z.eqb_refl in Hh by lia. discriminate.
Qed.

Lemma lsb_bit (k : Z) : 0 <= k < 64 -> lsb (bit k) = k.
Proof.
  intros Hk.
  assert (Hb : Z.testbit (bit k) k = true) by (rewrite testbit_bit, Z.eqb_refl by lia; reflexivity).
  destruct (lsb_least (bit k) k Hk Hb) as [Hl [Hlb _]].
  rewrite testbit_bit in Hlb by lia. apply Z.eqb_eq in Hlb. now symmetry.
Qed.

Lemma bit_nonzero (k : Z) : 0 <= k -> bit k <> 0.
Proof. intros Hk. rewrite bit_pow2. apply Z.pow_nonzero; lia. Qed.

(** ** What the mirrored position holds *)

Lemma bb_mirror (zk : ZobristKeys) (p : Position) (c : Color) (pt : Z) :
  0 <= pt <= 6 -> bb (mirror zk p) c pt = vflip (bb p (flip c) pt).
Proof.
  intros Hpt.
  assert (E : pt = 0 \/ pt = 1 \/ pt = 2 \/ pt = 3 \/ pt = 4 \/ pt = 5 \/ pt = 6) by lia.
  destruct c; decompose [or] E; subst pt; reflexivity.
Qed.

Lemma occupied_mirror (zk : ZobristKeys) (p : Position) :
  occupied_bb (mirror zk p) = vflip (occupied_bb p).
Proof. reflexivity. Qed.

Lemma side_mirror (zk : ZobristKeys) (p : Position) :
  side_to_move (mirror zk p) = flip (side_to_move p).
Proof. reflexivity. Qed.

Lemma halfmove_mirror (zk : ZobristKeys) (p : Position) :
  halfmove_clock (mirror zk p) = halfmove_clock p.
Proof. reflexivity. Qed.

Lemma aget_map_squares (g : Z -> Z) (s : Z) :
  0 <= s < 64 -> aget 0 (map g all_squares) s = g s.
Proof.
  intros Hs. unfold aget. replace (s <? 0) with false by (symmetry; apply Z.ltb_ge; lia).
  unfold all_squares. rewrite map_map.
  rewrite nth_indep with (d' := g (Z.of_nat 0))
    by (rewrite length_map, length_seq; lia).
  rewrite (map_nth (fun x => g (Z.of_nat x))). rewrite seq_nth by lia.
  f_equal. lia.
Qed.

Lemma piece_on_mirror (zk : ZobristKeys) (p : Position) (s : Z) :
  0 <= s < 64 -> piece_on (mirror zk p) s = recolor (piece_on p (flip_sq s)).
Proof.
  intros Hs. unfold piece_on, mirror, compute_hash, set_history, set_hash. cbn [board].
  unfold mirror_board. now rewrite aget_map_squares.
Qed.

Lemma repetition_mirror (zk : ZobristKeys) (p : Position) (n : Z) :
  is_repetition (mirror zk p) n = false.
Proof. reflexivity. Qed.

Ltac pt_range := unfold PAWN, KNIGHT, BISHOP, ROOK, QUEEN, KING; lia.

Lemma sum_flip (b b' : Z) (f g : Z -> Z) :
  U64 b -> b' = vflip b ->
  (forall s, 0 <= s < 64 -> Z.testbit b s = true -> g (flip_sq s) = f s) ->
  sum_over b' g = sum_over b f.
Proof.
  intros Hb -> H. rewrite sum_over_vflip by exact Hb. now apply sum_over_ext.
Qed.

Lemma sum_flip_opp (b b' : Z) (f g : Z -> Z) :
  U64 b -> b' = vflip b ->
  (forall s, 0 <= s < 64 -> Z.testbit b s = true -> g (flip_sq s) = - f s) ->
  sum_over b' g = - sum_over b f.
Proof.
  intros Hb -> H. rewrite sum_over_vflip, <- sum_over_opp by exact Hb.
  now apply sum_over_ext.
Qed.

Lemma pst_flip_all : forallb pst_flip_check all_squares = true.
Proof. vm_compute. reflexivity. Qed.

Lemma pst_value_flip (pt s a b : Z) :
  0 <= s < 64 -> 1 <= pt <= 6 -> pt <> QUEEN ->
  pst_value pt (flip_sq s) a b = pst_value pt (63 - s) a b
  /\ pst_value pt (63 - flip_sq s) a b = pst_value pt s a b.
Proof.
  intros Hs Hpt Hq. pose proof pst_flip_all as H. rewrite forallb_forall in H.
  specialize (H s (in_all_squares s Hs)). unfold pst_flip_check in H.
  cbn [forallb] in H.
  repeat match goal with
  | E : (_ && _) = true |- _ => apply andb_true_iff in E as [? ?]
  | E : (_ =? _) = true |- _ => apply Z.eqb_eq in E
  end.
  unfold QUEEN in Hq.
  assert (E : pt = 1 \/ pt = 2 \/ pt = 3 \/ pt = 4 \/ pt = 6) by lia.
  decompose [or] E; subst pt; unfold pst_value;
    cbn [Z.eqb PAWN KNIGHT BISHOP ROOK QUEEN KING Pos.eqb]; split; congruence.
Qed.

Lemma quot_opp (a b : Z) : b <> 0 -> Z.quot (- a) b = - Z.quot a b.
Proof. intros Hb. now apply Z.quot_opp_l. Qed.

Lemma flip_flip (c : Color) : flip (flip c) = c.
Proof. now destruct c. Qed.

Lemma signed_flip (c : Color) (x : Z) : signed (flip c) x = - signed c x.
Proof. destruct c; cbn [signed flip]; lia. Qed.

Lemma slider_flip (pt s occ : Z) :
  0 <= s < 64 ->
  (if pt =? KNIGHT then knight_attacks (flip_sq s)
   else if pt =? BISHOP then bishop_attacks_magic (flip_sq s) (vflip occ)
   else if pt =? ROOK then rook_attacks_magic (flip_sq s) (vflip occ)
   else queen_attacks_magic (flip_sq s) (vflip occ))
  = vflip (if pt =? KNIGHT then knight_attacks s
           else if pt =? BISHOP then bishop_attacks_magic s occ
           else if pt =? ROOK then rook_attacks_magic s occ
           else queen_attacks_magic s occ).
Proof.
  intros Hs. destruct (attack_flip s Hs) as [Ek _].
  destruct (pt =? KNIGHT); [exact Ek|].
  destruct (pt =? BISHOP); [now apply bishop_attacks_flip|].
  destruct (pt =? ROOK); [now apply rook_attacks_flip|now apply queen_attacks_flip].
Qed.

Lemma popcount_land_vflip (a m : Z) :
  U64 a -> U64 m -> popcount (Z.land (vflip a) m) = popcount (Z.land a (vflip m)).
Proof.
  intros Ha Hm. transitivity (popcount (vflip (Z.land a (vflip m)))).
  - rewrite vflip_land, (vflip_vflip m Hm). reflexivity.
  - apply popcount_vflip. now apply U64_land_l.
Qed.

Lemma seventh_ranks :
  vflip (Z.shiftl 255 48) = Z.shiftl 255 8 /\ vflip (Z.shiftl 255 8) = Z.shiftl 255 48
  /\ U64 (Z.shiftl 255 48) /\ U64 (Z.shiftl 255 8).
Proof.
  split; [vm_compute; reflexivity|]. split; [vm_compute; reflexivity|].
  split; apply is_u64_U64; vm_compute; reflexivity.
Qed.

Lemma file_mask_flip (f : Z) :
  0 <= f < 8 -> vflip (file_mask f) = file_mask f /\ U64 (file_mask f).
Proof.
  intros Hf.
  assert (H : forallb (fun f => (vflip (file_mask f) =? file_mask f) && is_u64 (file_mask f))
                      files = true) by (vm_compute; reflexivity).
  rewrite forallb_forall in H.
  assert (Hin : In f files).
  { unfold files.
    assert (f = 0 \/ f = 1 \/ f = 2 \/ f = 3 \/ f = 4 \/ f = 5 \/ f = 6 \/ f = 7) by lia.
    cbn [In]. intuition. }
  specialize (H f Hin). apply andb_true_iff in H as [H1 H2].
  apply Z.eqb_eq in H1. apply is_u64_U64 in H2. now split.
Qed.

Lemma land_eq0_vflip (a m : Z) :
  U64 a -> (Z.land (vflip a) (vflip m) =? 0) = (Z.land a m =? 0).
Proof.
  intros Ha. rewrite <- vflip_land. apply vflip_eq0. now apply U64_land_l.
Qed.

Lemma fold_left_opp {A : Type} (f g : Z -> A -> Z) (l : list A) : forall a,
  (forall acc x, In x l -> g (- acc) x = - f acc x) ->
  fold_left g l (- a) = - fold_left f l a.
Proof.
  induction l as [|x l IH]; intros a H; cbn [fold_left]; [reflexivity|].
  rewrite (H a x (or_introl eq_refl)). apply IH.
  intros acc y Hy. apply H. now right.
Qed.

Lemma files_range (f : Z) : In f files -> 0 <= f < 8.
Proof. unfold files. cbn [In]. intros H. decompose [or] H; subst; lia || contradiction. Qed.

Lemma sum6_opp (a1 a2 a3 a4 a5 a6 b1 b2 b3 b4 b5 b6 : Z) :
  a1 = - b1 -> a2 = - b2 -> a3 = - b3 -> a4 = - b4 -> a5 = - b5 -> a6 = - b6 ->
  a1 + a2 + a3 + a4 + a5 + a6 = - (b1 + b2 + b3 + b4 + b5 + b6).
Proof. lia. Qed.

Lemma recolor_facts (pc : Z) :
  In pc valid_codes ->
  (recolor pc =? 0) = (pc =? 0)
  /\ Z.land (recolor pc) 7 = Z.land pc 7
  /\ forall c,
       negb (recolor pc =? 0) && (Z.land (recolor pc) 7 =? PAWN)
       && (Z.shiftr (recolor pc) 3 =? color_z (flip c))
       = negb (pc =? 0) && (Z.land pc 7 =? PAWN) && (Z.shiftr pc 3 =? color_z c)
       /\ negb (recolor pc =? 0) && (Z.land (recolor pc) 7 =? PAWN)
          && negb (Z.shiftr (recolor pc) 3 =? color_z (flip c))
          = negb (pc =? 0) && (Z.land pc 7 =? PAWN) && negb (Z.shiftr pc 3 =? color_z c).
Proof.
  unfold valid_codes. cbn [In]. intros H.
  repeat (destruct H as [H|H];
          [subst pc; split; [reflexivity|split; [reflexivity|intros [|]; split; reflexivity]]|]).
  contradiction.
Qed.

Lemma in_zrange (lo hi x : Z) : In x (zrange lo hi) <-> lo <= x <= hi.
Proof.
  unfold zrange. rewrite in_map_iff. split.
  - intros [i [<- Hi]]. apply in_seq in Hi. lia.
  - intros Hx. exists (Z.to_nat (x - lo)). split; [lia|]. apply in_seq. lia.
Qed.

Lemma forallb_same {A : Type} (f g : A -> bool) (l : list A) :
  (forall x, In x l -> f x = g x) -> forallb f l = forallb g l.
Proof.
  induction l as [|x l IH]; intros H; cbn [forallb]; [reflexivity|].
  rewrite (H x (or_introl eq_refl)), IH; [reflexivity|].
  intros y Hy. apply H. now right.
Qed.

Lemma forallb_reindex {A : Type} (f g : A -> bool) (l1 l2 : list A) (h : A -> A) :
  (forall x, In x l1 -> In (h x) l2 /\ g (h x) = f x) ->
  (forall y, In y l2 -> In (h y) l1 /\ f (h y) = g y) ->
  forallb f l1 = forallb g l2.
Proof.
  intros H1 H2. apply eq_iff_eq_true. rewrite !forallb_forall. split.
  - intros H y Hy. destruct (H2 y Hy) as [Hin <-]. now apply H.
  - intros H x Hx. destruct (H1 x Hx) as [Hin <-]. now apply H.
Qed.

Lemma fold_left_same {A B : Type} (f g : A -> B -> A) (l : list B) : forall a,
  (forall acc x, In x l -> f acc x = g acc x) -> fold_left f l a = fold_left g l a.
Proof.
  induction l as [|x l IH]; intros a H; cbn [fold_left]; [reflexivity|].
  rewrite (H a x (or_introl eq_refl)). apply IH. intros acc y Hy. apply H. now right.
Qed.

Lemma attacks_by_type_flip (pt s occ : Z) :
  0 <= s < 64 ->
  attacks_by_type pt (flip_sq s) (vflip occ) = vflip (attacks_by_type pt s occ).
Proof.
  intros Hs. unfold attacks_by_type. destruct (attack_flip s Hs) as [Ek _].
  destruct (pt =? KNIGHT); [exact Ek|].
  destruct (pt =? BISHOP); [now apply bishop_attacks_flip|].
  destruct (pt =? ROOK); [now apply rook_attacks_flip|].
  destruct (pt =? QUEEN); [now apply queen_attacks_flip|].
  symmetry. apply vflip_0.
Qed.

Lemma U64_attacks_by_type (pt s occ : Z) : 0 <= s < 64 -> U64 (attacks_by_type pt s occ).
Proof.
  intros Hs. unfold attacks_by_type. destruct (attack_flip s Hs) as [_ [_ [_ [Uk _]]]].
  destruct (pt =? KNIGHT); [exact Uk|].
  destruct (pt =? BISHOP); [apply U64_bishop_attacks|].
  destruct (pt =? ROOK); [apply U64_rook_attacks|].
  destruct (pt =? QUEEN); [apply U64_queen_attacks|apply U64_0].
Qed.

Lemma board_halves :
  vflip 18446744069414584320 = 4294967295 /\ vflip 4294967295 = 18446744069414584320.
Proof. split; vm_compute; reflexivity. Qed.

Lemma central_flip :
  vflip central_squares = central_squares /\ U64 central_squares
  /\ vflip (not64 central_squares) = not64 central_squares.
Proof.
  split; [vm_compute; reflexivity|]. split; [apply is_u64_U64; vm_compute; reflexivity|].
  vm_compute; reflexivity.
Qed.

Section Symmetry.

Variables p q : Position.
Hypothesis Hbb : forall c pt, 1 <= pt <= 6 -> bb q c pt = vflip (bb p (flip c) pt).
Hypothesis Hocc : occupied_bb q = vflip (occupied_bb p).
Hypothesis Hpc : forall s, 0 <= s < 64 -> piece_on q s = recolor (piece_on p (flip_sq s)).
Hypothesis Hside : side_to_move q = flip (side_to_move p).
Hypothesis Hu : forall c pt, 1 <= pt <= 6 -> U64 (bb p c pt).
Hypothesis Huo : U64 (occupied_bb p).
Hypothesis Hking : forall c, popcount (bb p c KING) <= 1.
Hypothesis Hcode : forall s, 0 <= s < 64 -> In (piece_on p s) valid_codes.

Lemma bb_of_flipped (c : Color) (pt : Z) : 1 <= pt <= 6 -> bb q (flip c) pt = vflip (bb p c pt).
Proof. intros H. now rewrite Hbb, flip_flip. Qed.

Lemma U64_bb_mirrored (c : Color) (pt : Z) : 1 <= pt <= 6 -> U64 (bb q c pt).
Proof. intros H. rewrite Hbb by exact H. apply U64_vflip. Qed.

Lemma popcount_bb (c : Color) (pt : Z) :
  1 <= pt <= 6 -> popcount (bb q c pt) = popcount (bb p (flip c) pt).
Proof. intros H. rewrite Hbb by exact H. apply popcount_vflip. now apply Hu. Qed.

Lemma bb_eq0 (c : Color) (pt : Z) :
  1 <= pt <= 6 -> (bb q c pt =? 0) = (bb p (flip c) pt =? 0).
Proof. intros H. rewrite Hbb by exact H. apply vflip_eq0. now apply Hu. Qed.

Lemma game_phase_flip : game_phase q = game_phase p.
Proof.
  unfold game_phase. cbn [fold_left].
  rewrite !popcount_bb by pt_range. cbn [flip]. f_equal. lia.
Qed.

Lemma is_endgame_flip : is_endgame q = is_endgame p.
Proof. unfold is_endgame. now rewrite game_phase_flip. Qed.

(** The king of the mirrored position stands on the reflected square. *)
Lemma king_flip (c : Color) :
  bb p c KING <> 0 ->
  0 <= lsb (bb p c KING) < 64
  /\ lsb (bb q (flip c) KING) = flip_sq (lsb (bb p c KING)).
Proof.
  intros Hne. assert (Hk : 1 <= KING <= 6) by pt_range.
  destruct (at_most_one (bb p c KING) (Hu c KING Hk) (Hking c)) as [E|[k [Hr E]]];
    [contradiction|].
  rewrite bb_of_flipped, E by exact Hk. rewrite vflip_bit by exact Hr.
  rewrite !lsb_bit by (exact Hr || now apply flip_sq_range). split; [exact Hr|reflexivity].
Qed.

Lemma king_or_none_flip (c : Color) :
  (king_or_none p c = NO_SQUARE /\ king_or_none q (flip c) = NO_SQUARE)
  \/ (0 <= king_or_none p c < 64 /\ king_or_none q (flip c) = flip_sq (king_or_none p c)).
Proof.
  unfold king_or_none. rewrite bb_eq0, flip_flip by pt_range.
  destruct (Z.eqb_spec (bb p c KING) 0) as [E|E]; cbn [negb]; [now left|right].
  now apply king_flip.
Qed.

Lemma king_square_flip (c : Color) :
  bb p c KING <> 0 ->
  0 <= king_square p c < 64 /\ king_square q (flip c) = flip_sq (king_square p c).
Proof.
  intros Hne. unfold king_square. rewrite bb_eq0, flip_flip by pt_range.
  destruct (Z.eqb_spec (bb p c KING) 0) as [E|E]; [contradiction|].
  now apply king_flip.
Qed.

(** *** Material and piece-square tables *)

Hypothesis Hnoq : forall c, bb p c QUEEN = 0.

Lemma no_queens_mirrored (c : Color) : bb q c QUEEN = 0.
Proof. rewrite Hbb by pt_range. rewrite Hnoq. apply vflip_0. Qed.

Lemma pst_sum_flip (c : Color) (pt ph : Z) :
  1 <= pt <= 6 ->
  sum_over (bb q c pt) (fun sq =>
    let idx := match c with WHITE => sq | BLACK => 63 - sq end in
    signed c (pst_value pt idx ph (TOTAL_PHASE - ph) + aget 0 PIECE_VALUES pt))
  = - sum_over (bb p (flip c) pt) (fun sq =>
    let idx := match flip c with WHITE => sq | BLACK => 63 - sq end in
    signed (flip c) (pst_value pt idx ph (TOTAL_PHASE - ph) + aget 0 PIECE_VALUES pt)).
Proof.
  intros Hpt. destruct (Z.eq_dec pt QUEEN) as [->|Hq].
  - rewrite Hnoq, no_queens_mirrored. reflexivity.
  - apply sum_flip_opp; [now apply Hu|now apply Hbb|].
    intros s Hs _. cbv zeta.
    destruct (pst_value_flip pt s ph (TOTAL_PHASE - ph) Hs Hpt Hq) as [E1 E2].
    destruct c; cbn [flip signed]; rewrite ?E1, ?E2; lia.
Qed.

Lemma material_pst_flip : material_pst q = - material_pst p.
Proof.
  unfold material_pst, colors, piece_types. rewrite game_phase_flip.
  cbn [fold_left].
  pose proof (fun c pt H => pst_sum_flip c pt (game_phase p) H) as E.
  pose proof (E WHITE PAWN ltac:(pt_range)) as E1.
  pose proof (E WHITE KNIGHT ltac:(pt_range)) as E2.
  pose proof (E WHITE BISHOP ltac:(pt_range)) as E3.
  pose proof (E WHITE ROOK ltac:(pt_range)) as E4.
  pose proof (E WHITE QUEEN ltac:(pt_range)) as E5.
  pose proof (E WHITE KING ltac:(pt_range)) as E6.
  pose proof (E BLACK PAWN ltac:(pt_range)) as F1.
  pose proof (E BLACK KNIGHT ltac:(pt_range)) as F2.
  pose proof (E BLACK BISHOP ltac:(pt_range)) as F3.
  pose proof (E BLACK ROOK ltac:(pt_range)) as F4.
  pose proof (E BLACK QUEEN ltac:(pt_range)) as F5.
  pose proof (E BLACK KING ltac:(pt_range)) as F6.
  cbv zeta in *. cbn [flip] in *.
  rewrite E1, E2, E3, E4, E5, E6, F1, F2, F3, F4, F5, F6. lia.
Qed.


(** *** Mobility *)

Lemma mobility_of_flip (c : Color) : mobility_of q c = mobility_of p (flip c).
Proof.
  unfold mobility_of. cbn [fold_left].
  repeat match goal with |- (_ + _ = _ + _) => apply (f_equal2 Z.add) end;
    try reflexivity;
    (apply sum_flip; [apply Hu; pt_range|apply Hbb; pt_range|]);
    intros s Hs _; rewrite Hocc;
    rewrite (slider_flip _ s (occupied_bb p) Hs);
    rewrite <- vflip_not64, <- vflip_land, popcount_vflip;
    try reflexivity; apply U64_land_r; apply U64_not64.
Qed.

(** *** Counting terms *)

Lemma bishop_pair_flip : bishop_pair q = - bishop_pair p.
Proof.
  unfold bishop_pair. rewrite !popcount_bb by pt_range. cbn [flip]. lia.
Qed.

Lemma imbalance_flip : imbalance q = - imbalance p.
Proof.
  unfold imbalance. rewrite !popcount_bb by pt_range. cbn [flip]. lia.
Qed.

Lemma rooks_on_seventh_flip : rooks_on_seventh q = - rooks_on_seventh p.
Proof.
  unfold rooks_on_seventh. rewrite Hside, !Hbb by pt_range.
  destruct seventh_ranks as [E1 [E2 [U1 U2]]].
  destruct (side_to_move p); cbn [flip];
    rewrite !popcount_land_vflip by (assumption || (apply Hu; pt_range));
    rewrite ?E1, ?E2; lia.
Qed.

Lemma knights_on_rim_flip (c : Color) :
  knights_on_rim q c = - knights_on_rim p (flip c).
Proof.
  unfold knights_on_rim. rewrite game_phase_flip.
  apply sum_flip_opp; [apply Hu; pt_range|apply Hbb; pt_range|].
  intros s Hs _. destruct (flip_sq_facts s Hs) as [_ [_ [Hf _]]]. rewrite Hf.
  rewrite signed_flip. destruct ((file_of s =? 0) || (file_of s =? 7)); lia.
Qed.

Lemma queens_on_open_files_flip (c : Color) :
  queens_on_open_files q c = - queens_on_open_files p (flip c).
Proof.
  unfold queens_on_open_files. rewrite Hnoq, no_queens_mirrored. reflexivity.
Qed.

Lemma has_bb_flip (c : Color) (pt s : Z) :
  1 <= pt <= 6 -> 0 <= s < 64 ->
  has (bb q c pt) (bit s) = has (bb p (flip c) pt) (bit (flip_sq s)).
Proof.
  intros Hpt Hs. pose proof (flip_sq_range s Hs).
  rewrite !has_bit, Hbb, testbit_vflip by (lia || exact Hpt). reflexivity.
Qed.

Lemma trapped_bishops_flip : trapped_bishops q = - trapped_bishops p.
Proof.
  unfold trapped_bishops. rewrite game_phase_flip.
  rewrite !has_bb_flip by (pt_range || (unfold make_square; lia)).
  cbn [flip].
  change (flip_sq (make_square 0 1)) with (make_square 0 6).
  change (flip_sq (make_square 1 2)) with (make_square 1 5).
  change (flip_sq (make_square 7 1)) with (make_square 7 6).
  change (flip_sq (make_square 6 2)) with (make_square 6 5).
  change (flip_sq (make_square 0 6)) with (make_square 0 1).
  change (flip_sq (make_square 1 5)) with (make_square 1 2).
  change (flip_sq (make_square 7 6)) with (make_square 7 1).
  change (flip_sq (make_square 6 5)) with (make_square 6 2).
  repeat match goal with |- context [has ?a ?b] =>
    let t := fresh "t" in generalize (has a b); intros t end.
  repeat match goal with t : bool |- _ => destruct t end; cbn [andb]; lia.
Qed.


(** *** Pawns *)

Lemma pawns_on_file (c : Color) (f : Z) :
  0 <= f < 8 ->
  Z.land (bb q c PAWN) (file_mask f) = vflip (Z.land (bb p (flip c) PAWN) (file_mask f)).
Proof.
  intros Hf. destruct (file_mask_flip f Hf) as [E _].
  rewrite Hbb by pt_range. rewrite vflip_land, E. reflexivity.
Qed.

Lemma pawns_on_file_count (c : Color) (f : Z) :
  0 <= f < 8 ->
  popcount (Z.land (bb q c PAWN) (file_mask f))
  = popcount (Z.land (bb p (flip c) PAWN) (file_mask f)).
Proof.
  intros Hf. rewrite pawns_on_file by exact Hf.
  apply popcount_vflip. apply U64_land_l. apply Hu; pt_range.
Qed.

Lemma pawns_on_file_none (c : Color) (f : Z) :
  0 <= f < 8 ->
  (Z.land (bb q c PAWN) (file_mask f) =? 0)
  = (Z.land (bb p (flip c) PAWN) (file_mask f) =? 0).
Proof.
  intros Hf. rewrite pawns_on_file by exact Hf.
  apply vflip_eq0. apply U64_land_l. apply Hu; pt_range.
Qed.

Lemma pawn_attackers_flip (c c' : Color) (s : Z) :
  0 <= s < 64 ->
  (Z.land (pawn_attacks (flip c) (flip_sq s)) (bb q c' PAWN) =? 0)
  = (Z.land (pawn_attacks c s) (bb p (flip c') PAWN) =? 0).
Proof.
  intros Hs. destruct (attack_flip s Hs) as [_ [_ [Ep [_ [_ Up]]]]].
  rewrite Ep, Hbb by pt_range. apply land_eq0_vflip. apply Up.
Qed.

Lemma piece_on_flip (s : Z) :
  0 <= s < 64 ->
  (piece_on q (flip_sq s) =? 0) = (piece_on p s =? 0)
  /\ Z.land (piece_on q (flip_sq s)) 7 = Z.land (piece_on p s) 7
  /\ forall c,
       negb (piece_on q (flip_sq s) =? 0) && (Z.land (piece_on q (flip_sq s)) 7 =? PAWN)
       && (Z.shiftr (piece_on q (flip_sq s)) 3 =? color_z (flip c))
       = negb (piece_on p s =? 0) && (Z.land (piece_on p s) 7 =? PAWN)
         && (Z.shiftr (piece_on p s) 3 =? color_z c)
       /\ negb (piece_on q (flip_sq s) =? 0) && (Z.land (piece_on q (flip_sq s)) 7 =? PAWN)
          && negb (Z.shiftr (piece_on q (flip_sq s)) 3 =? color_z (flip c))
          = negb (piece_on p s =? 0) && (Z.land (piece_on p s) 7 =? PAWN)
            && negb (Z.shiftr (piece_on p s) 3 =? color_z c).
Proof.
  intros Hs. rewrite Hpc by (now apply flip_sq_range).
  rewrite flip_sq_invol by exact Hs. apply recolor_facts. now apply Hcode.
Qed.


Lemma is_passed_pawn_flip (c : Color) (s : Z) :
  0 <= s < 64 ->
  is_passed_pawn q (flip_sq s) c = is_passed_pawn p s (flip c).
Proof.
  intros Hs. destruct (flip_sq_facts s Hs) as [_ [_ [Hf [Hr [Hfr [Hrr _]]]]]].
  unfold is_passed_pawn. rewrite Hf, Hr.
  apply forallb_same. intros df Hdf.
  destruct ((file_of s + df <? 0) || (7 <? file_of s + df)) eqn:Eb; [reflexivity|].
  apply orb_false_iff in Eb as [Eb1 Eb2]. apply Z.ltb_ge in Eb1, Eb2.
  apply (forallb_reindex _ _ _ _ (fun nr => 7 - nr)).
  - intros nr Hnr. apply in_zrange in Hnr.
    assert (Hnr' : 0 <= nr < 8) by (destruct c; lia).
    split; [apply in_zrange; destruct c; cbn [flip]; lia|].
    assert (Hm : 0 <= make_square (file_of s + df) (7 - nr) < 64)
      by (apply make_square_range; lia).
    destruct (piece_on_flip (make_square (file_of s + df) (7 - nr)) Hm) as [_ [_ Hc]].
    rewrite flip_make_square in Hc by lia.
    replace (7 - (7 - nr)) with nr in Hc by lia.
    destruct (Hc (flip c)) as [_ He]. rewrite flip_flip in He. now rewrite He.
  - intros nr Hnr. apply in_zrange in Hnr.
    assert (Hnr' : 0 <= nr < 8) by (destruct c; cbn [flip] in Hnr; lia).
    split; [apply in_zrange; destruct c; cbn [flip] in Hnr; lia|].
    assert (Hm : 0 <= make_square (file_of s + df) nr < 64)
      by (apply make_square_range; lia).
    destruct (piece_on_flip (make_square (file_of s + df) nr) Hm) as [_ [_ Hc]].
    rewrite flip_make_square in Hc by lia.
    destruct (Hc (flip c)) as [_ He]. rewrite flip_flip in He. now rewrite He.
Qed.


Lemma pawn_structure_flip (c : Color) :
  pawn_structure q c = - pawn_structure p (flip c).
Proof.
  unfold pawn_structure. cbv zeta. apply sum6_opp.
  - (* doubled *)
    change 0 with (- 0) at 1. apply fold_left_opp. intros acc f Hf.
    apply files_range in Hf. rewrite pawns_on_file_count by exact Hf.
    rewrite signed_flip. destruct (1 <? _); lia.
  - (* isolated *)
    apply sum_flip_opp; [apply Hu; pt_range|apply Hbb; pt_range|].
    intros s Hs _. destruct (flip_sq_facts s Hs) as [_ [_ [Hf [_ [Hfr _]]]]].
    rewrite Hf, signed_flip.
    assert (E1 : (0 <? file_of s) && negb (Z.land (bb q c PAWN) (file_mask (file_of s - 1)) =? 0)
                 = (0 <? file_of s)
                   && negb (Z.land (bb p (flip c) PAWN) (file_mask (file_of s - 1)) =? 0)).
    { destruct (Z.ltb_spec 0 (file_of s)); [|reflexivity].
      now rewrite pawns_on_file_none by lia. }
    assert (E2 : (file_of s <? 7) && negb (Z.land (bb q c PAWN) (file_mask (file_of s + 1)) =? 0)
                 = (file_of s <? 7)
                   && negb (Z.land (bb p (flip c) PAWN) (file_mask (file_of s + 1)) =? 0)).
    { destruct (Z.ltb_spec (file_of s) 7); [|reflexivity].
      now rewrite pawns_on_file_none by lia. }
    rewrite E1, E2. destruct (negb (_ || _)); lia.
  - (* backward *)
    apply sum_flip_opp; [apply Hu; pt_range|apply Hbb; pt_range|].
    intros s Hs _. destruct (flip_sq_facts s Hs) as [_ [_ [Hf [Hr [Hfr [Hrr _]]]]]].
    rewrite Hf, Hr. destruct c; cbn [flip].
    + replace (7 - rank_of s <? 6) with (1 <? rank_of s)
        by (destruct (Z.ltb_spec 1 (rank_of s)), (Z.ltb_spec (7 - rank_of s) 6); lia || reflexivity).
      destruct (Z.ltb_spec 1 (rank_of s)) as [H1|H1]; [|lia].
      replace (7 - rank_of s + 1) with (7 - (rank_of s - 1)) by lia.
      rewrite <- flip_make_square by lia.
      assert (Hm : 0 <= make_square (file_of s) (rank_of s - 1) < 64)
        by (apply make_square_range; lia).
      destruct (piece_on_flip _ Hm) as [E0 _]. rewrite E0.
      pose proof (pawn_attackers_flip WHITE BLACK _ Hm) as Ea. cbn [flip] in Ea. rewrite Ea.
      destruct (_ && _); lia.
    + replace (1 <? 7 - rank_of s) with (rank_of s <? 6)
        by (destruct (Z.ltb_spec (rank_of s) 6), (Z.ltb_spec 1 (7 - rank_of s)); lia || reflexivity).
      destruct (Z.ltb_spec (rank_of s) 6) as [H1|H1]; [|lia].
      replace (7 - rank_of s - 1) with (7 - (rank_of s + 1)) by lia.
      rewrite <- flip_make_square by lia.
      assert (Hm : 0 <= make_square (file_of s) (rank_of s + 1) < 64)
        by (apply make_square_range; lia).
      destruct (piece_on_flip _ Hm) as [E0 _]. rewrite E0.
      pose proof (pawn_attackers_flip BLACK WHITE _ Hm) as Ea. cbn [flip] in Ea. rewrite Ea.
      destruct (_ && _); lia.
  - (* connected *)
    apply sum_flip_opp; [apply Hu; pt_range|apply Hbb; pt_range|].
    intros s Hs _.
    pose proof (pawn_attackers_flip (flip c) c s Hs) as E. rewrite flip_flip in E.
    rewrite E, signed_flip. destruct (negb _); lia.
  - (* paired *)
    change 0 with (- 0) at 1. apply fold_left_opp. intros acc f Hf.
    apply files_range in Hf. rewrite pawns_on_file_count by exact Hf.
    rewrite signed_flip. destruct (2 <=? _); lia.
  - (* passed *)
    apply sum_flip_opp; [apply Hu; pt_range|apply Hbb; pt_range|].
    intros s Hs _. destruct (flip_sq_facts s Hs) as [_ [_ [Hf [Hr [Hfr [Hrr _]]]]]].
    rewrite is_passed_pawn_flip by exact Hs.
    destruct (is_passed_pawn p s (flip c)); [|lia].
    rewrite Hf, Hr, signed_flip.
    assert (Eadv : match c with WHITE => 7 - rank_of s | BLACK => 7 - (7 - rank_of s) end
                   = match flip c with WHITE => rank_of s | BLACK => 7 - rank_of s end)
      by (destruct c; cbn [flip]; lia).
    rewrite Eadv.
    assert (Er : match c with WHITE => 7 - rank_of s =? 6 | BLACK => 7 - rank_of s =? 1 end
                 = match flip c with WHITE => rank_of s =? 6 | BLACK => rank_of s =? 1 end).
    { destruct c; cbn [flip];
        [destruct (Z.eqb_spec (7 - rank_of s) 6), (Z.eqb_spec (rank_of s) 1)
        |destruct (Z.eqb_spec (7 - rank_of s) 1), (Z.eqb_spec (rank_of s) 6)];
        lia || reflexivity. }
    rewrite Er, flip_flip.
    destruct (king_or_none_flip c) as [[K1 K2]|[K1 K2]].
    + rewrite K1, K2. change (negb (NO_SQUARE =? NO_SQUARE)) with false. cbv iota. lia.
    + rewrite K2. destruct (flip_sq_facts _ K1) as [Kr [_ [Kf [Krk _]]]].
      rewrite Kf, Krk.
      assert (En : negb (flip_sq (king_or_none p c) =? NO_SQUARE)
                   = negb (king_or_none p c =? NO_SQUARE)).
      { unfold NO_SQUARE. destruct (Z.eqb_spec (flip_sq (king_or_none p c)) (-1)),
          (Z.eqb_spec (king_or_none p c) (-1)); lia || reflexivity. }
      rewrite En.
      replace (7 - rank_of (king_or_none p c) - (7 - rank_of s))
        with (- (rank_of (king_or_none p c) - rank_of s)) by lia.
      rewrite Z.abs_opp. lia.
Qed.


(** *** Outposts and bishops on the long diagonals *)

Lemma outpost_bonus_flip (c : Color) (s : Z) :
  0 <= s < 64 -> outpost_bonus q (flip_sq s) c = outpost_bonus p s (flip c).
Proof.
  intros Hs. destruct (flip_sq_facts s Hs) as [_ [_ [Hf [Hr [Hfr [Hrr _]]]]]].
  unfold outpost_bonus. rewrite Hf, Hr, !flip_flip.
  pose proof (pawn_attackers_flip (flip c) c s Hs) as E1. rewrite flip_flip in E1.
  pose proof (pawn_attackers_flip c (flip c) s Hs) as E2. rewrite flip_flip in E2.
  rewrite E1, E2.
  destruct (Z.land (pawn_attacks (flip c) s) (bb p (flip c) PAWN) =? 0); [reflexivity|].
  assert (Erank : match c with
                  | WHITE => Z.max 0 (7 - rank_of s - 4) * 5
                  | BLACK => Z.max 0 (3 - (7 - rank_of s)) * 5
                  end
                  = match flip c with
                    | WHITE => Z.max 0 (rank_of s - 4) * 5
                    | BLACK => Z.max 0 (3 - rank_of s) * 5
                    end).
  { destruct c; cbn [flip]; f_equal; f_equal; lia. }
  rewrite Erank.
  destruct (king_or_none_flip c) as [[K1 K2]|[K1 K2]].
  - rewrite K1, K2. reflexivity.
  - rewrite K2. destruct (flip_sq_facts _ K1) as [Kr [_ [Kf [Krk _]]]].
    rewrite Kf, Krk.
    assert (En : negb (flip_sq (king_or_none p c) =? NO_SQUARE)
                 = negb (king_or_none p c =? NO_SQUARE)).
    { unfold NO_SQUARE. destruct (Z.eqb_spec (flip_sq (king_or_none p c)) (-1)),
        (Z.eqb_spec (king_or_none p c) (-1)); lia || reflexivity. }
    rewrite En.
    replace (7 - rank_of (king_or_none p c) - (7 - rank_of s))
      with (- (rank_of (king_or_none p c) - rank_of s)) by lia.
    rewrite Z.abs_opp. reflexivity.
Qed.

Lemma outposts_flip (c : Color) : outposts q c = - outposts p (flip c).
Proof.
  unfold outposts. rewrite signed_flip.
  assert (E : forall pt, 1 <= pt <= 6 ->
            sum_over (bb q c pt) (fun sq => outpost_bonus q sq c)
            = sum_over (bb p (flip c) pt) (fun sq => outpost_bonus p sq (flip c))).
  { intros pt Hpt. apply sum_flip; [now apply Hu|now apply Hbb|].
    intros s Hs _. now apply outpost_bonus_flip. }
  rewrite !E by pt_range. lia.
Qed.

Lemma all_pawns_flip :
  Z.lor (bb q WHITE PAWN) (bb q BLACK PAWN)
  = vflip (Z.lor (bb p WHITE PAWN) (bb p BLACK PAWN)).
Proof.
  rewrite !Hbb by pt_range. cbn [flip]. rewrite vflip_lor. apply Z.lor_comm.
Qed.

Lemma long_diagonal_bishops_flip (c : Color) :
  long_diagonal_bishops q c = - long_diagonal_bishops p (flip c).
Proof.
  unfold long_diagonal_bishops. rewrite game_phase_flip.
  apply sum_flip_opp; [apply Hu; pt_range|apply Hbb; pt_range|].
  intros s Hs _. destruct (flip_sq_facts s Hs) as [_ [_ [Hf [Hr [Hfr [Hrr _]]]]]].
  cbv zeta. rewrite Hf, Hr, all_pawns_flip, bishop_attacks_flip by exact Hs.
  rewrite <- vflip_land, popcount_vflip by (apply U64_land_l; apply U64_bishop_attacks).
  rewrite signed_flip.
  replace ((file_of s =? 7 - rank_of s) || (file_of s + (7 - rank_of s) =? 7))
    with ((file_of s =? rank_of s) || (file_of s + rank_of s =? 7)).
  - destruct ((file_of s =? rank_of s) || (file_of s + rank_of s =? 7)); [|lia].
    destruct (0 <? _); lia.
  - destruct (Z.eqb_spec (file_of s) (rank_of s)), (Z.eqb_spec (file_of s + rank_of s) 7),
      (Z.eqb_spec (file_of s) (7 - rank_of s)), (Z.eqb_spec (file_of s + (7 - rank_of s)) 7);
      cbn [orb]; lia || reflexivity.
Qed.

(** *** King safety and initiative *)

Lemma king_safety_flip (c : Color) : king_safety q c = king_safety p (flip c).
Proof.
  unfold king_safety. rewrite bb_eq0 by pt_range.
  destruct (Z.eqb_spec (bb p (flip c) KING) 0) as [E|E]; [reflexivity|].
  destruct (king_square_flip (flip c) E) as [Kr Kq]. rewrite flip_flip in Kq.
  rewrite Kq. destruct (flip_sq_facts _ Kr) as [_ [_ [Kf [Krk [Kfr [Krr _]]]]]].
  rewrite Kf, Krk. cbv zeta.
  set (kf := file_of (king_square p (flip c))) in *.
  set (kr := rank_of (king_square p (flip c))) in *.
  f_equal; [f_equal|].
  - (* shield *)
    apply fold_left_same. intros acc df _.
    destruct ((kf + df <? 0) || (7 <? kf + df)) eqn:Ef; [reflexivity|].
    apply orb_false_iff in Ef as [Ef1 Ef2]. apply Z.ltb_ge in Ef1, Ef2.
    apply fold_left_same. intros acc2 dr _.
    assert (Er : match c with WHITE => 7 - kr + dr | BLACK => 7 - kr - dr end
                 = 7 - match flip c with WHITE => kr + dr | BLACK => kr - dr end)
      by (destruct c; cbn [flip]; lia).
    rewrite Er. set (r := match flip c with WHITE => kr + dr | BLACK => kr - dr end).
    replace ((7 - r <? 0) || (7 <? 7 - r)) with ((r <? 0) || (7 <? r))
      by (destruct (Z.ltb_spec r 0), (Z.ltb_spec 7 r), (Z.ltb_spec (7 - r) 0),
            (Z.ltb_spec 7 (7 - r)); cbn [orb]; lia || reflexivity).
    destruct ((r <? 0) || (7 <? r)) eqn:Erng; [reflexivity|].
    apply orb_false_iff in Erng as [Er1 Er2]. apply Z.ltb_ge in Er1, Er2.
    assert (Hm : 0 <= make_square (kf + df) r < 64) by (apply make_square_range; lia).
    destruct (piece_on_flip _ Hm) as [_ [_ Hc]].
    rewrite flip_make_square in Hc by lia.
    destruct (Hc (flip c)) as [He _]. rewrite flip_flip in He. now rewrite He.
  - (* pawn storm *)
    rewrite flip_flip.
    apply sum_flip; [apply Hu; pt_range|apply bb_of_flipped; pt_range|].
    intros s Hs _. destruct (flip_sq_facts s Hs) as [_ [_ [Hf [Hr _]]]].
    rewrite Hf, Hr.
    replace (7 - rank_of s - (7 - kr)) with (- (rank_of s - kr)) by lia.
    rewrite Z.abs_opp. reflexivity.
  - (* open files *)
    apply fold_left_same. intros acc df _.
    destruct ((kf + df <? 0) || (7 <? kf + df)) eqn:Ef; [reflexivity|].
    apply orb_false_iff in Ef as [Ef1 Ef2]. apply Z.ltb_ge in Ef1, Ef2.
    rewrite pawns_on_file_none by lia. reflexivity.
Qed.

Lemma non_pawn_pieces_flip (c : Color) :
  non_pawn_pieces q c = vflip (non_pawn_pieces p (flip c)).
Proof.
  unfold non_pawn_pieces. rewrite !Hbb by pt_range. now rewrite !vflip_lor.
Qed.

Lemma U64_non_pawn_pieces (c : Color) : U64 (non_pawn_pieces p c).
Proof. unfold non_pawn_pieces. repeat apply U64_lor; apply Hu; pt_range. Qed.

Lemma initiative_flip : initiative q = initiative p.
Proof.
  unfold initiative. rewrite is_endgame_flip, Hside, !non_pawn_pieces_flip.
  rewrite !popcount_vflip by apply U64_non_pawn_pieces.
  rewrite !king_safety_flip. cbn [flip].
  destruct (negb (is_endgame p)); [|reflexivity].
  replace (Z.abs (popcount (non_pawn_pieces p BLACK) - popcount (non_pawn_pieces p WHITE)))
    with (Z.abs (popcount (non_pawn_pieces p WHITE) - popcount (non_pawn_pieces p BLACK)))
    by lia.
  destruct (_ <=? 1); [|reflexivity].
  destruct (side_to_move p); reflexivity.
Qed.


(** *** Attack sets *)

Lemma pawn_attacks_of_flip (c : Color) :
  pawn_attacks_of q c = vflip (pawn_attacks_of p (flip c)).
Proof.
  unfold pawn_attacks_of. rewrite Hbb by pt_range.
  apply union_over_vflip; [apply Hu; pt_range| |].
  - intros s Hs _. destruct (attack_flip s Hs) as [_ [_ [Ep _]]].
    rewrite <- Ep, flip_flip. reflexivity.
  - intros s Hs. destruct (attack_flip s Hs) as [_ [_ [_ [_ [_ Up]]]]]. apply Up.
Qed.

Lemma knight_union_flip (c : Color) :
  union_over (bb q c KNIGHT) knight_attacks
  = vflip (union_over (bb p (flip c) KNIGHT) knight_attacks).
Proof.
  rewrite Hbb by pt_range. apply union_over_vflip; [apply Hu; pt_range| |].
  - intros s Hs _. now destruct (attack_flip s Hs) as [Ek _].
  - intros s Hs. now destruct (attack_flip s Hs) as [_ [_ [_ [Uk _]]]].
Qed.

Lemma bishop_union_flip (b : Z) :
  U64 b ->
  union_over (vflip b) (fun s => bishop_attacks_magic s (occupied_bb q))
  = vflip (union_over b (fun s => bishop_attacks_magic s (occupied_bb p))).
Proof.
  intros Hb. rewrite Hocc. apply union_over_vflip; [exact Hb| |].
  - intros s Hs _. now apply bishop_attacks_flip.
  - intros s Hs. apply U64_bishop_attacks.
Qed.

Lemma rook_union_flip (b : Z) :
  U64 b ->
  union_over (vflip b) (fun s => rook_attacks_magic s (occupied_bb q))
  = vflip (union_over b (fun s => rook_attacks_magic s (occupied_bb p))).
Proof.
  intros Hb. rewrite Hocc. apply union_over_vflip; [exact Hb| |].
  - intros s Hs _. now apply rook_attacks_flip.
  - intros s Hs. apply U64_rook_attacks.
Qed.

Lemma queen_union_flip (b : Z) :
  U64 b ->
  union_over (vflip b) (fun s => queen_attacks_magic s (occupied_bb q))
  = vflip (union_over b (fun s => queen_attacks_magic s (occupied_bb p))).
Proof.
  intros Hb. rewrite Hocc. apply union_over_vflip; [exact Hb| |].
  - intros s Hs _. now apply queen_attacks_flip.
  - intros s Hs. apply U64_queen_attacks.
Qed.

Lemma minor_attacks_of_flip (c : Color) :
  minor_attacks_of q c = vflip (minor_attacks_of p (flip c)).
Proof.
  unfold minor_attacks_of. rewrite knight_union_flip.
  rewrite (Hbb c BISHOP) by pt_range.
  rewrite bishop_union_flip by (apply Hu; pt_range).
  now rewrite vflip_lor.
Qed.

Lemma all_attacks_of_flip (c : Color) :
  all_attacks_of q c = vflip (all_attacks_of p (flip c)).
Proof.
  unfold all_attacks_of. rewrite pawn_attacks_of_flip, minor_attacks_of_flip.
  rewrite (Hbb c ROOK), (Hbb c QUEEN) by pt_range.
  rewrite rook_union_flip, queen_union_flip by (apply Hu; pt_range).
  now rewrite !vflip_lor.
Qed.

(** *** Space *)

Lemma space_bonus_flip (c : Color) : space_bonus q c = space_bonus p (flip c).
Proof.
  unfold space_bonus. cbv zeta. rewrite flip_flip.
  fold (pawn_attacks_of q (flip c)). fold (pawn_attacks_of p c).
  fold (non_pawn_pieces q c). fold (non_pawn_pieces p (flip c)).
  rewrite (pawn_attacks_of_flip (flip c)), flip_flip, non_pawn_pieces_flip, Hocc.
  assert (Eatt :
    union_over (vflip (non_pawn_pieces p (flip c)))
      (fun s => attacks_by_type (Z.land (piece_on q s) 7) s (vflip (occupied_bb p)))
    = vflip (union_over (non_pawn_pieces p (flip c))
               (fun s => attacks_by_type (Z.land (piece_on p s) 7) s (occupied_bb p)))).
  { apply union_over_vflip; [apply U64_non_pawn_pieces| |].
    - intros s Hs _. destruct (piece_on_flip s Hs) as [_ [E7 _]].
      rewrite E7. now apply attacks_by_type_flip.
    - intros s Hs. now apply U64_attacks_by_type. }
  rewrite Eatt.
  assert (Eh : match c with WHITE => 18446744069414584320 | BLACK => 4294967295 end
               = vflip match flip c with
                       | WHITE => 18446744069414584320 | BLACK => 4294967295 end).
  { destruct board_halves as [E1 E2]. destruct c; cbn [flip]; congruence. }
  rewrite Eh. rewrite <- vflip_not64, <- !vflip_land.
  rewrite popcount_vflip; [reflexivity|]. apply U64_land_r. apply U64_not64.
Qed.


(** *** Weak and strong squares *)

Lemma U64_knight_union (b : Z) : U64 b -> U64 (union_over b knight_attacks).
Proof.
  intros Hb. apply U64_union_over; [exact Hb|].
  intros s Hs. now destruct (attack_flip s Hs) as [_ [_ [_ [Uk _]]]].
Qed.

Lemma square_control_flip (c : Color) :
  square_control q c = vflip (square_control p (flip c)).
Proof.
  unfold square_control. rewrite knight_union_flip.
  rewrite (Hbb c BISHOP), (Hbb c QUEEN), (Hbb c ROOK) by pt_range.
  rewrite <- vflip_lor.
  rewrite bishop_union_flip by (apply U64_lor; apply Hu; pt_range).
  rewrite rook_union_flip by (apply Hu; pt_range).
  rewrite bb_eq0 by pt_range. rewrite !vflip_lor. f_equal.
  destruct (Z.eqb_spec (bb p (flip c) KING) 0) as [E|E]; cbn [negb];
    [symmetry; apply vflip_0|].
  destruct (king_square_flip (flip c) E) as [Kr Kq]. rewrite flip_flip in Kq.
  rewrite Kq. now destruct (attack_flip _ Kr) as [_ [Ek _]].
Qed.

Lemma U64_square_control (c : Color) : U64 (square_control q c).
Proof. rewrite square_control_flip. apply U64_vflip. Qed.

Lemma weak_strong_squares_flip : weak_strong_squares q = - weak_strong_squares p.
Proof.
  unfold weak_strong_squares. cbv zeta. fold central_squares.
  rewrite game_phase_flip, Hocc, !square_control_flip. cbn [flip].
  destruct central_flip as [Ec [Uc Enc]].
  rewrite <- !vflip_not64, <- !vflip_land.
  rewrite !popcount_land_vflip
    by first [exact Uc | apply U64_not64 | apply U64_land_r; apply U64_not64].
  rewrite !Ec, !Enc.
  rewrite <- quot_opp by (unfold TOTAL_PHASE; lia). f_equal. lia.
Qed.

(** *** Threats *)

Lemma rook_files_flip (c : Color) : rook_files q c = rook_files p (flip c).
Proof.
  unfold rook_files. apply sum_flip; [apply Hu; pt_range|apply Hbb; pt_range|].
  intros s Hs _. destruct (flip_sq_facts s Hs) as [_ [_ [Hf [_ [Hfr _]]]]].
  cbv zeta. rewrite Hf, !pawns_on_file_none, flip_flip by exact Hfr. reflexivity.
Qed.

Lemma value_sum_flip (b : Z) (d : Z) :
  U64 b ->
  sum_over (vflip b) (fun s => Z.quot (aget 0 PIECE_VALUES (Z.land (piece_on q s) 7)) d)
  = sum_over b (fun s => Z.quot (aget 0 PIECE_VALUES (Z.land (piece_on p s) 7)) d).
Proof.
  intros Hb. apply sum_flip; [exact Hb|reflexivity|].
  intros s Hs _. destruct (piece_on_flip s Hs) as [_ [E7 _]]. now rewrite E7.
Qed.

Lemma threats_flip : threats q = - threats p.
Proof.
  unfold threats. cbv zeta.
  rewrite game_phase_flip, !rook_files_flip, !non_pawn_pieces_flip,
    !pawn_attacks_of_flip, !minor_attacks_of_flip, !all_attacks_of_flip.
  rewrite !Hnoq, !no_queens_mirrored. cbn [flip].
  rewrite <- !vflip_not64, <- !vflip_land.
  rewrite !value_sum_flip by (apply U64_land_l; apply U64_non_pawn_pieces).
  rewrite !popcount_vflip
    by (apply U64_land_r; apply U64_land_l; apply U64_non_pawn_pieces).
  rewrite !Z.land_0_l. cbn [Z.eqb negb].
  rewrite <- quot_opp by (unfold TOTAL_PHASE; lia). f_equal. lia.
Qed.

(** *** Draws *)

Lemma trivial_draw_flip :
  halfmove_clock q = halfmove_clock p ->
  is_repetition q 2 = is_repetition p 2 ->
  trivial_draw q = trivial_draw p.
Proof.
  intros Hh Hr. unfold trivial_draw. rewrite Hh, Hr, Hocc.
  rewrite popcount_vflip by exact Huo.
  rewrite !Hbb by pt_range. cbn [flip]. rewrite <- !vflip_lor.
  rewrite !popcount_vflip by (apply U64_lor; apply Hu; pt_range).
  rewrite (Z.lor_comm (bb p BLACK BISHOP)), (Z.lor_comm (bb p BLACK KNIGHT)).
  reflexivity.
Qed.

(** *** The whole score *)

Lemma white_score_flip : initiative p = 0 -> white_score q = - white_score p.
Proof.
  intros Hi. unfold white_score.
  rewrite material_pst_flip, !mobility_of_flip, !pawn_structure_flip, !outposts_flip,
    !knights_on_rim_flip, !long_diagonal_bishops_flip, !queens_on_open_files_flip,
    bishop_pair_flip, rooks_on_seventh_flip, is_endgame_flip, !king_safety_flip,
    !space_bonus_flip, game_phase_flip, imbalance_flip, weak_strong_squares_flip,
    initiative_flip, trapped_bishops_flip, threats_flip, Hi.
  cbn [flip].
  replace ((space_bonus p BLACK - space_bonus p WHITE) * game_phase p)
    with (- ((space_bonus p WHITE - space_bonus p BLACK) * game_phase p)) by lia.
  rewrite quot_opp by (unfold TOTAL_PHASE; lia).
  destruct (negb (is_endgame p)); lia.
Qed.

Lemma evaluate_flip :
  halfmove_clock q = halfmove_clock p ->
  is_repetition q 2 = is_repetition p 2 ->
  initiative p = 0 ->
  evaluate 0 q = evaluate 0 p.
Proof.
  intros Hh Hr Hi. unfold evaluate.
  rewrite trivial_draw_flip by assumption.
  destruct (trivial_draw p); [reflexivity|].
  rewrite white_score_flip, Hside by exact Hi.
  cbn [Z.mul Z.quot Z.eqb negb andb].
  change (Z.quot 0 24) with 0. cbn [Z.eqb negb andb].
  destruct (side_to_move p); cbn [flip]; lia.
Qed.

End Symmetry.


(** *** From the invariants of a position *)

Lemma testbit_occupied_of (p : Position) (s : Z) :
  Z.testbit (occupied_of (_pieces p)) s = true ->
  exists c pt, 1 <= pt <= 6 /\ Z.testbit (bb p c pt) s = true.
Proof.
  unfold occupied_of. cbn [fold_left]. rewrite !Z.lor_spec, Z.bits_0. cbn [orb].
  fold (bb p WHITE PAWN) (bb p WHITE KNIGHT) (bb p WHITE BISHOP) (bb p WHITE ROOK)
       (bb p WHITE QUEEN) (bb p WHITE KING) (bb p BLACK PAWN) (bb p BLACK KNIGHT)
       (bb p BLACK BISHOP) (bb p BLACK ROOK) (bb p BLACK QUEEN) (bb p BLACK KING).
  intros H.
  repeat (apply orb_true_iff in H as [H|H]);
    match type of H with
    | Z.testbit (bb p ?c ?pt) s = true => exists c, pt; split; [pt_range|exact H]
    end.
Qed.

Lemma U64_occupied_of (p : Position) :
  (forall c pt, 1 <= pt <= 6 -> U64 (bb p c pt)) -> U64 (occupied_of (_pieces p)).
Proof.
  intros Hu. unfold occupied_of. cbn [fold_left].
  repeat apply U64_lor; try apply U64_0; apply (Hu _ _); pt_range.
Qed.

Lemma board_codes (p : Position) (s : Z) :
  position_ok p = true -> occupied_bb p = occupied_of (_pieces p) ->
  0 <= s < 64 -> In (piece_on p s) valid_codes.
Proof.
  intros Hok Hocc Hs. destruct (Z.eqb_spec (piece_on p s) 0) as [E|E].
  - rewrite E. now left.
  - pose proof (position_ok_occ p s Hok Hs) as Ho.
    destruct (piece_on p s =? 0) eqn:E0; [apply Z.eqb_eq in E0; contradiction|].
    cbn [negb] in Ho. rewrite Hocc in Ho.
    destruct (testbit_occupied_of p s Ho) as [c [pt [Hpt Hb]]].
    rewrite (position_ok_bb p c pt s Hok Hs Hpt) in Hb. apply Z.eqb_eq in Hb.
    rewrite Hb. unfold valid_codes.
    assert (Ept : pt = 1 \/ pt = 2 \/ pt = 3 \/ pt = 4 \/ pt = 5 \/ pt = 6) by lia.
    destruct c; decompose [or] Ept; subst pt; vm_compute; tauto.
Qed.

(** [mirror] is what reading the mirrored FEN gives. *)
Example mirror_is_the_mirrored_fen :
  position_eqb
    (mirror sample_keys
       (set_fen sample_keys
          "rnbqkbnr/pppp1ppp/8/4p3/8/8/PPPPPPPP/RNBQKBNR w KQkq e6 0 2"%string))
    (set_fen sample_keys
       "rnbqkbnr/pppppppp/8/8/4P3/8/PPPP1PPP/RNBQKBNR b KQkq e3 0 2"%string)
  = true.
Proof. vm_compute. reflexivity. Qed.




(** ** Further properties of the code *)

(** X1: the loop [while (b) { s = pop_lsb(b); ... }] visits the set bits of a
    64-bit word, each once, lowest first. *)
Theorem pop_lsb_loop_visits_set_bits (b : Z) :
  U64 b -> squares b = filter (Z.testbit b) all_squares.
Proof. apply squares_filter. Qed.

Lemma pop_lsb_loop_witness :
  U64 129 /\ squares 129 = filter (Z.testbit 129) all_squares.
Proof.
  assert (H : U64 129) by (apply is_u64_U64; vm_compute; reflexivity).
  split; [exact H|]. apply (pop_lsb_loop_visits_set_bits 129 H).
Defined.

Lemma fold_b2z_length (t : Z -> bool) (l : list Z) : forall acc,
  fold_left (fun a s => a + b2z (t s)) l acc = acc + Z.of_nat (length (filter t l)).
Proof.
  induction l as [|x l IH]; intros acc; cbn [fold_left filter]; [cbn; lia|].
  rewrite IH. destruct (t x); cbn [b2z length]; lia.
Qed.

(** X2: [popcount] is the number of rounds of the [pop_lsb] loop: the number of
    set bits of a 64-bit word. *)
Theorem popcount_is_loop_length (b : Z) :
  U64 b -> popcount b = Z.of_nat (length (squares b)).
Proof.
  intros Hb. rewrite popcount_bits, squares_filter by exact Hb.
  rewrite fold_b2z_length. lia.
Qed.

Lemma popcount_witness :
  U64 129 /\ popcount 129 = Z.of_nat (length (squares 129)).
Proof.
  assert (H : U64 129) by (apply is_u64_U64; vm_compute; reflexivity).
  split; [exact H|]. apply (popcount_is_loop_length 129 H).
Defined.

(** X3: the classical slider scans commute with reflecting the board top to
    bottom: the attacks from the reflected square on the reflected occupancy
    are the reflected attacks. *)
Theorem slider_attacks_reflect (s occ : Z) :
  0 <= s < 64 ->
  rook_attacks_magic (flip_sq s) (vflip occ) = vflip (rook_attacks_magic s occ)
  /\ bishop_attacks_magic (flip_sq s) (vflip occ) = vflip (bishop_attacks_magic s occ)
  /\ queen_attacks_magic (flip_sq s) (vflip occ) = vflip (queen_attacks_magic s occ).
Proof.
  intros Hs. split; [now apply rook_attacks_flip|].
  split; [now apply bishop_attacks_flip|now apply queen_attacks_flip].
Qed.

Lemma slider_attacks_reflect_witness :
  rook_attacks_magic (flip_sq 27) (vflip 134480385)
  = vflip (rook_attacks_magic 27 134480385).
Proof.
  apply (slider_attacks_reflect 27 134480385). lia.
Defined.

(** *** Null move *)

Lemma position_eta (p : Position) :
  {| _pieces := _pieces p; board := board p; side := side p; occupied := occupied p;
     fifty := fifty p; ply := ply p; game_ply := game_ply p; ep_square := ep_square p;
     castle_rook_sq := castle_rook_sq p; chess960 := chess960 p; hash := hash p;
     history := history p |} = p.
Proof. now destruct p. Qed.

Lemma make_null_move (zk : ZobristKeys) (p : Position) :
  make_move zk p NULL_MOVE =
  compute_hash zk (push_hash
    {| _pieces := _pieces p; board := board p; side := flip (side p);
       occupied := occupied p; fifty := fifty p; ply := ply p + 1;
       game_ply := (match flip (side p) with
                    | WHITE => game_ply p + 1 | BLACK => game_ply p end);
       ep_square := ep_square p; castle_rook_sq := castle_rook_sq p;
       chess960 := chess960 p; hash := hash p; history := history p |}).
Proof. reflexivity. Qed.

(** X4: [undo_null_move] takes back [make_move(NULL_MOVE)]: on a position whose
    stored hash is the hash of the position, the two together change
    nothing. *)
Theorem null_move_round_trip (zk : ZobristKeys) (p : Position) :
  hash_ok zk p = true ->
  undo_null_move zk (make_move zk p NULL_MOVE) = p.
Proof.
  unfold hash_ok. intros Hh. apply Z.eqb_eq in Hh.
  rewrite make_null_move.
  unfold undo_null_move, compute_hash, push_hash, pop_hash, set_hash, set_history.
  cbn [_pieces board side occupied fifty ply game_ply ep_square castle_rook_sq chess960
       hash history].
  rewrite removelast_last, flip_flip, <- Hh.
  replace (ply p + 1 - 1) with (ply p) by lia.
  replace (match side p with
           | WHITE => match flip (side p) with
                      | WHITE => game_ply p + 1 | BLACK => game_ply p end
           | BLACK => match flip (side p) with
                      | WHITE => game_ply p + 1 | BLACK => game_ply p end - 1
           end) with (game_ply p) by (destruct (side p); cbn [flip]; lia).
  apply position_eta.
Qed.

Lemma null_move_round_trip_witness :
  undo_null_move sample_keys (make_move sample_keys after_e4_pos NULL_MOVE) = after_e4_pos.
Proof.
  apply null_move_round_trip. vm_compute. reflexivity.
Defined.

(** *** Castling rights, packed and unpacked *)

Lemma dec_enc_slot (x : Z) : -1 <= x <= 126 -> dec_slot (enc_slot x) = x.
Proof.
  intros Hx. unfold dec_slot, enc_slot.
  change 127 with (Z.ones 7). rewrite !Z.land_ones by lia.
  rewrite Z.mod_mod by (vm_compute; discriminate).
  rewrite Z.mod_small by (change (2 ^ 7) with 128; lia). lia.
Qed.

Lemma enc_slot_small (x : Z) : 0 <= enc_slot x < 128.
Proof.
  unfold enc_slot. change 127 with (Z.ones 7). rewrite Z.land_ones by lia.
  change (2 ^ 7) with 128. apply Z.mod_pos_bound. lia.
Qed.

Lemma dec_slot_low (a b : Z) :
  0 <= a < 128 -> 0 <= b -> dec_slot (Z.lor a (Z.shiftl b 7)) = Z.land a 127 - 1.
Proof.
  intros Ha Hb. unfold dec_slot. f_equal. apply Z.bits_inj'. intros n Hn.
  rewrite !Z.land_spec, Z.lor_spec.
  destruct (Z_lt_le_dec n 7) as [Hlt|Hge].
  - rewrite Z.shiftl_spec_low by exact Hlt. now rewrite orb_false_r.
  - change 127 with (Z.ones 7). rewrite Z.ones_spec_high by lia.
    now rewrite !andb_false_r.
Qed.

Lemma shiftr_lor_slot (a b : Z) :
  0 <= a < 128 -> 0 <= b -> Z.shiftr (Z.lor a (Z.shiftl b 7)) 7 = b.
Proof.
  intros Ha Hb. rewrite Z.shiftr_lor, Z.shiftr_shiftl_l by lia.
  replace (7 - 7) with 0 by lia. rewrite Z.shiftl_0_r.
  rewrite Z.shiftr_div_pow2 by lia. change (2 ^ 7) with 128.
  rewrite Z.div_small by lia. apply Z.lor_0_l.
Qed.

Lemma unpack_packed_castling (p : Position) (cr : list Z) :
  length (castle_rook_sq p) = 4%nat -> length cr = 4%nat ->
  (forall x, In x (castle_rook_sq p) -> -1 <= x <= 63) ->
  unpack_castling cr (castling_rights p) = castle_rook_sq p.
Proof.
  intros Hl Hc Hr. unfold castling_rights, castle_rook.
  destruct (castle_rook_sq p) as [|a [|b [|c [|d [|? ?]]]]]; try discriminate.
  destruct cr as [|a' [|b' [|c' [|d' [|? ?]]]]]; try discriminate.
  assert (Ha : -1 <= a <= 126) by (specialize (Hr a); cbn [In] in Hr; lia).
  assert (Hb : -1 <= b <= 126) by (specialize (Hr b); cbn [In] in Hr; lia).
  assert (Hcc : -1 <= c <= 126) by (specialize (Hr c); cbn [In] in Hr; lia).
  assert (Hd : -1 <= d <= 126) by (specialize (Hr d); cbn [In] in Hr; lia).
  change (aget (-1) [a; b; c; d] (cidx WHITE 0)) with a.
  change (aget (-1) [a; b; c; d] (cidx WHITE 1)) with b.
  change (aget (-1) [a; b; c; d] (cidx BLACK 0)) with c.
  change (aget (-1) [a; b; c; d] (cidx BLACK 1)) with d.
  pose proof (enc_slot_small a) as Ea. pose proof (enc_slot_small b) as Eb.
  pose proof (enc_slot_small c) as Ec. pose proof (enc_slot_small d) as Ed.
  set (A := enc_slot a) in *. set (B := enc_slot b) in *.
  set (C := enc_slot c) in *. set (D := enc_slot d) in *.
  assert (Epack : Z.lor (Z.lor (Z.lor A (Z.shiftl B 7)) (Z.shiftl C 14)) (Z.shiftl D 21)
                  = Z.lor A (Z.shiftl (Z.lor B (Z.shiftl (Z.lor C (Z.shiftl D 7)) 7)) 7)).
  { rewrite !Z.shiftl_lor, !Z.shiftl_shiftl by lia. cbn [Z.add Pos.add Pos.succ].
    now rewrite !Z.lor_assoc. }
  rewrite Epack.
  assert (HC : 0 <= Z.lor C (Z.shiftl D 7))
    by (apply Z.lor_nonneg; split; [lia|apply Z.shiftl_nonneg; lia]).
  assert (HB : 0 <= Z.lor B (Z.shiftl (Z.lor C (Z.shiftl D 7)) 7))
    by (apply Z.lor_nonneg; split; [lia|apply Z.shiftl_nonneg; lia]).
  unfold unpack_castling.
  replace (Z.shiftr (Z.lor A (Z.shiftl (Z.lor B (Z.shiftl (Z.lor C (Z.shiftl D 7)) 7)) 7)) 21)
    with (Z.shiftr (Z.shiftr (Z.shiftr
            (Z.lor A (Z.shiftl (Z.lor B (Z.shiftl (Z.lor C (Z.shiftl D 7)) 7)) 7)) 7) 7) 7)
    by (rewrite !Z.shiftr_shiftr by lia; reflexivity).
  replace (Z.shiftr (Z.lor A (Z.shiftl (Z.lor B (Z.shiftl (Z.lor C (Z.shiftl D 7)) 7)) 7)) 14)
    with (Z.shiftr (Z.shiftr
            (Z.lor A (Z.shiftl (Z.lor B (Z.shiftl (Z.lor C (Z.shiftl D 7)) 7)) 7)) 7) 7)
    by (rewrite !Z.shiftr_shiftr by lia; reflexivity).
  rewrite (shiftr_lor_slot A _ Ea HB), (shiftr_lor_slot B _ Eb HC),
    (shiftr_lor_slot C D Ec) by lia.
  rewrite (dec_slot_low A _ Ea HB), (dec_slot_low B _ Eb HC), (dec_slot_low C D Ec) by lia.
  fold (dec_slot A) (dec_slot B) (dec_slot C). subst A B C D.
  rewrite !dec_enc_slot by assumption.
  reflexivity.
Qed.

(** X5: [restore_castling_rights(castling_rights())] gives back the four rook
    slots, whenever each holds a square or -1. *)
Theorem castling_rights_round_trip (p : Position) (cr : list Z) :
  length (castle_rook_sq p) = 4%nat -> length cr = 4%nat ->
  (forall x, In x (castle_rook_sq p) -> -1 <= x <= 63) ->
  unpack_castling cr (castling_rights p) = castle_rook_sq p.
Proof. apply unpack_packed_castling. Qed.

Lemma castling_rights_round_trip_witness :
  unpack_castling [-1; -1; -1; -1] (castling_rights (init_startpos sample_keys))
  = castle_rook_sq (init_startpos sample_keys).
Proof.
  apply castling_rights_round_trip.
  - vm_compute. reflexivity.
  - vm_compute. reflexivity.
  - assert (E : castle_rook_sq (init_startpos sample_keys) = [7; 0; 63; 56])
      by (vm_compute; reflexivity).
    rewrite E. intros x H. cbn [In] in H.
    destruct H as [H|[H|[H|[H|H]]]]; [lia|lia|lia|lia|contradiction].
Defined.

(** *** The move encoding *)

Lemma codec_check_all :
  forallb (fun f => forallb (codec_check f) all_squares) all_squares = true.
Proof. vm_compute. reflexivity. Qed.

(** X6: a move reads back the squares it was packed from; a plain move carries
    no promotion, castling or en-passant flag; a promotion to knight, bishop,
    rook or queen reads back its piece type; the castling flag is read as
    castling and not as a promotion. *)
Theorem move_encoding_round_trip (f t : Z) :
  0 <= f < 64 -> 0 <= t < 64 ->
  from_sq (mk_move f t) = f /\ to_sq (mk_move f t) = t
  /\ promotion_type (mk_move f t) = NO_PIECE
  /\ is_castling (mk_move f t) = false /\ is_en_passant (mk_move f t) = false
  /\ (forall pt, In pt [KNIGHT; BISHOP; ROOK; QUEEN] ->
        from_sq (make_promotion f t pt) = f /\ to_sq (make_promotion f t pt) = t
        /\ promotion_type (make_promotion f t pt) = pt
        /\ is_castling (make_promotion f t pt) = false
        /\ is_en_passant (make_promotion f t pt) = false)
  /\ from_sq (Z.lor (mk_move f t) CASTLE_FLAG) = f
  /\ to_sq (Z.lor (mk_move f t) CASTLE_FLAG) = t
  /\ is_castling (Z.lor (mk_move f t) CASTLE_FLAG) = true
  /\ promotion_type (Z.lor (mk_move f t) CASTLE_FLAG) = NO_PIECE
  /\ from_sq (Z.lor (mk_move f t) ENPASSANT_FLAG) = f
  /\ to_sq (Z.lor (mk_move f t) ENPASSANT_FLAG) = t
  /\ promotion_type (Z.lor (mk_move f t) ENPASSANT_FLAG) = NO_PIECE.
Proof.
  intros Hf Ht. pose proof codec_check_all as H. rewrite forallb_forall in H.
  specialize (H f (in_all_squares f Hf)). rewrite forallb_forall in H.
  specialize (H t (in_all_squares t Ht)). unfold codec_check in H.
  repeat match goal with
  | E : (_ && _) = true |- _ => apply andb_true_iff in E as [? ?]
  end.
  match goal with E : forallb _ _ = true |- _ => rewrite forallb_forall in E; rename E into Hp end.
  repeat match goal with
  | E : (_ =? _) = true |- _ => apply Z.eqb_eq in E
  | E : negb _ = true |- _ => apply negb_true_iff in E
  end.
  repeat (split; [assumption|]).
  split.
  - intros pt Hpt. specialize (Hp pt Hpt).
    repeat match goal with
    | E : (_ && _) = true |- _ => apply andb_true_iff in E as [? ?]
    end.
    repeat match goal with
    | E : (_ =? _) = true |- _ => apply Z.eqb_eq in E
    | E : negb _ = true |- _ => apply negb_true_iff in E
    end.
    repeat split; assumption.
  - repeat split; assumption.
Qed.

Lemma move_encoding_witness :
  from_sq (mk_move 12 28) = 12 /\ to_sq (mk_move 12 28) = 28.
Proof.
  destruct (move_encoding_round_trip 12 28) as [H1 [H2 _]]; [lia|lia|].
  split; assumption.
Defined.

(** *** Store, then probe *)

Lemma bucket_index_ok (tt : TranspositionTable) (key : Z) :
  tt_ok tt = true -> 0 <= key mod size tt < Z.of_nat (length (table tt)).
Proof.
  unfold tt_ok. intros H. apply andb_true_iff in H as [H1 H2].
  apply Z.ltb_lt in H1. apply Z.eqb_eq in H2. rewrite <- H2.
  apply Z.mod_pos_bound. exact H1.
Qed.

(** X7: after [store] has written an entry (the resident was not a deeper entry
    of the same key), [probe] with the same key finds it: the reference
    parameters receive the stored score, move and dtz, and the hit flag is
    set exactly when the stored depth suffices and the bound allows the
    cutoff. *)
Theorem probe_after_store
        (tt : TranspositionTable) (key depth score : Z) (bound : Bound) (move dtz : Z)
        (depth' alpha beta : Z) (out : ProbeOut) :
  tt_ok tt = true ->
  (e_key (bucket tt key) =? key) && (depth <? e_depth (bucket tt key)) = false ->
  probe (store tt key depth score bound move dtz) key depth' alpha beta out
  = ((depth >=? depth') && bound_allows bound score alpha beta,
     {| o_score := score; o_move := move; o_dtz := dtz |}).
Proof.
  intros Hok Hres. pose proof (bucket_index_ok tt key Hok) as Hidx.
  unfold store. unfold bucket in Hres. rewrite Hres.
  unfold probe. cbn [table size].
  rewrite aget_upd_same by exact Hidx.
  cbn [e_key e_depth e_score e_bound e_move e_dtz]. rewrite Z.eqb_refl. cbn [negb].
  unfold bound_allows.
  destruct (depth >=? depth'); [|reflexivity]. cbn [andb].
  destruct bound; cbn [bound_eqb andb orb]; try reflexivity.
  - destruct (score <=? alpha); reflexivity.
  - destruct (score >=? beta); reflexivity.
Qed.

Lemma probe_after_store_witness :
  probe (store (new_table 1) 5 10 100 BOUND_EXACT 77 0) 5 8 (-50) 50
        {| o_score := 0; o_move := 0; o_dtz := 0 |}
  = ((10 >=? 8) && bound_allows BOUND_EXACT 100 (-50) 50,
     {| o_score := 100; o_move := 77; o_dtz := 0 |}).
Proof.
  apply probe_after_store.
  - vm_compute. reflexivity.
  - vm_compute. reflexivity.
Defined.

(** *** Taking back a plain move *)

Lemma list_ext_aget {A : Type} (d : A) (l l' : list A) :
  length l = length l' ->
  (forall k, 0 <= k < Z.of_nat (length l) -> aget d l k = aget d l' k) ->
  l = l'.
Proof.
  intros Hl H. apply (nth_ext l l' d d Hl). intros n Hn.
  specialize (H (Z.of_nat n) ltac:(lia)). unfold aget in H.
  replace (Z.of_nat n <? 0) with false in H by (symmetry; apply Z.ltb_ge; lia).
  now rewrite Nat2Z.id in H.
Qed.

Lemma aget_aset (l : list Z) (d : Z) (i k v : Z) :
  0 <= i < Z.of_nat (length l) ->
  aget d (aset l i v) k = if k =? i then v else aget d l k.
Proof.
  intros Hi. destruct (Z.eqb_spec k i) as [->|Hne].
  - now apply aget_upd_same.
  - apply aget_upd_other. lia.
Qed.

Lemma xor_or_back (x from to : Z) :
  0 <= from -> 0 <= to -> from <> to ->
  Z.testbit x from = true -> Z.testbit x to = false ->
  Z.lor (Z.lxor (Z.lor (Z.lxor x (bit from)) (bit to)) (bit to)) (bit from) = x.
Proof.
  intros Hf Ht Hne Hxf Hxt. apply Z.bits_inj'. intros n Hn.
  rewrite !Z.lor_spec, !Z.lxor_spec, !Z.lor_spec, !Z.lxor_spec, !testbit_bit by assumption.
  destruct (Z.eqb_spec from n) as [->|H1], (Z.eqb_spec to n) as [->|H2];
    try contradiction; rewrite ?Hxf, ?Hxt; destruct (Z.testbit x n); reflexivity.
Qed.

Lemma xor_or_capture (y to : Z) :
  0 <= to -> Z.testbit y to = true -> Z.lor (Z.lxor y (bit to)) (bit to) = y.
Proof.
  intros Ht Hy. apply Z.bits_inj'. intros n Hn.
  rewrite Z.lor_spec, Z.lxor_spec, testbit_bit by assumption.
  destruct (Z.eqb_spec to n) as [->|H1]; rewrite ?Hy; destruct (Z.testbit y n); reflexivity.
Qed.

Lemma pidx_range (c : Color) (pt : Z) : 1 <= pt <= 6 -> 0 <= pidx c pt < 14.
Proof. unfold pidx. destruct c; cbn [color_z]; lia. Qed.

Lemma pidx_other (c : Color) (pt cpt : Z) :
  1 <= pt <= 6 -> 1 <= cpt <= 6 -> pidx c pt <> pidx (flip c) cpt.
Proof. unfold pidx. destruct c; cbn [flip color_z]; lia. Qed.

(** The bitboards after moving a piece and moving it back *)
Lemma pieces_back (ps : list Z) (us : Color) (pt from to : Z) :
  length ps = 14%nat -> 1 <= pt <= 6 ->
  0 <= from -> 0 <= to -> from <> to ->
  Z.testbit (pieces_get ps us pt) from = true ->
  Z.testbit (pieces_get ps us pt) to = false ->
  pieces_or (pieces_xor (pieces_or (pieces_xor ps us pt (bit from)) us pt (bit to))
                        us pt (bit to)) us pt (bit from) = ps.
Proof.
  intros Hl Hpt Hf Ht Hne Hxf Hxt. pose proof (pidx_range us pt Hpt) as Hi.
  unfold pieces_or, pieces_xor, pieces_get in *.
  apply (list_ext_aget 0); [now rewrite !length_aset|].
  intros k Hk. rewrite !length_aset in Hk.
  rewrite !aget_aset by (rewrite ?length_aset; lia).
  rewrite !Z.eqb_refl.
  destruct (Z.eqb_spec k (pidx us pt)) as [->|Hk']; [|reflexivity].
  now apply xor_or_back.
Qed.

(** The same with a capture on the destination *)
Lemma pieces_back_capture (ps : list Z) (us : Color) (pt cpt from to : Z) :
  length ps = 14%nat -> 1 <= pt <= 6 -> 1 <= cpt <= 6 ->
  0 <= from -> 0 <= to -> from <> to ->
  Z.testbit (pieces_get ps us pt) from = true ->
  Z.testbit (pieces_get ps us pt) to = false ->
  Z.testbit (pieces_get ps (flip us) cpt) to = true ->
  pieces_or
    (pieces_or
       (pieces_xor
          (pieces_xor (pieces_or (pieces_xor ps us pt (bit from)) us pt (bit to))
                      (flip us) cpt (bit to))
          us pt (bit to)) us pt (bit from))
    (flip us) cpt (bit to) = ps.
Proof.
  intros Hl Hpt Hcpt Hf Ht Hne Hxf Hxt Hyt.
  pose proof (pidx_range us pt Hpt) as Hi.
  pose proof (pidx_range (flip us) cpt Hcpt) as Hj.
  pose proof (pidx_other us pt cpt Hpt Hcpt) as Hij.
  unfold pieces_or, pieces_xor, pieces_get in *.
  apply (list_ext_aget 0); [now rewrite !length_aset|].
  intros k Hk. rewrite !length_aset in Hk.
  rewrite !aget_aset by (rewrite ?length_aset; lia).
  rewrite !Z.eqb_refl.
  replace (pidx us pt =? pidx (flip us) cpt) with false by (symmetry; apply Z.eqb_neq; lia).
  replace (pidx (flip us) cpt =? pidx us pt) with false by (symmetry; apply Z.eqb_neq; lia).
  destruct (Z.eqb_spec k (pidx (flip us) cpt)) as [->|Hkj].
  - now apply xor_or_capture.
  - destruct (Z.eqb_spec k (pidx us pt)) as [->|Hki]; [|reflexivity].
    now apply xor_or_back.
Qed.

Lemma board_back (bd : list Z) (from to pc cap : Z) :
  length bd = 64%nat -> 0 <= from < 64 -> 0 <= to < 64 -> from <> to ->
  aget 0 bd from = pc -> aget 0 bd to = cap ->
  aset (aset (aset (aset bd from 0) to pc) to cap) from pc = bd.
Proof.
  intros Hl Hf Ht Hne Hpc Hcap.
  apply (list_ext_aget 0); [now rewrite !length_aset|].
  intros k Hk. rewrite !length_aset in Hk.
  rewrite !aget_aset by (rewrite ?length_aset; lia).
  destruct (Z.eqb_spec k from) as [->|Hkf]; [now symmetry|].
  destruct (Z.eqb_spec k to) as [->|Hkt]; [now symmetry|reflexivity].
Qed.

Lemma plain_move_fields (f t : Z) :
  0 <= f < 64 -> 0 <= t < 64 ->
  from_sq (mk_move f t) = f /\ to_sq (mk_move f t) = t
  /\ promotion_type (mk_move f t) = NO_PIECE
  /\ is_castling (mk_move f t) = false /\ is_en_passant (mk_move f t) = false
  /\ (mk_move f t =? NULL_MOVE) = false.
Proof.
  intros Hf Ht.
  assert (H : forallb (fun f => forallb (fun t =>
     (from_sq (mk_move f t) =? f) && (to_sq (mk_move f t) =? t)
     && (promotion_type (mk_move f t) =? NO_PIECE)
     && negb (is_castling (mk_move f t)) && negb (is_en_passant (mk_move f t))
     && negb (mk_move f t =? NULL_MOVE)) all_squares) all_squares = true)
    by (vm_compute; reflexivity).
  rewrite forallb_forall in H. specialize (H f (in_all_squares f Hf)).
  rewrite forallb_forall in H. specialize (H t (in_all_squares t Ht)).
  repeat match goal with
  | E : (_ && _) = true |- _ => apply andb_true_iff in E as [? ?]
  end.
  repeat match goal with
  | E : (_ =? _) = true |- _ => apply Z.eqb_eq in E
  | E : negb _ = true |- _ => apply negb_true_iff in E
  end.
  repeat split; assumption.
Qed.

Lemma piece_code_type (c : Color) (pt : Z) :
  1 <= pt <= 6 -> Z.land (piece_code c pt) 7 = pt /\ (piece_code c pt =? 0) = false.
Proof.
  intros Hpt. assert (E : pt = 1 \/ pt = 2 \/ pt = 3 \/ pt = 4 \/ pt = 5 \/ pt = 6) by lia.
  destruct c; decompose [or] E; subst pt; split; reflexivity.
Qed.

Lemma length_castle_after (cr : list Z) (us : Color) (pt from : Z) :
  length
    (fold_left (fun cr s =>
        let cr := if from =? aget (-1) cr (cidx us s)
                  then aset cr (cidx us s) (-1) else cr in
        if from =? aget (-1) cr (cidx (flip us) s)
        then aset cr (cidx (flip us) s) (-1) else cr) [0; 1]
      (if pt =? KING then aset (aset cr (cidx us 1) (-1)) (cidx us 0) (-1) else cr))
  = length cr.
Proof.
  cbn [fold_left]. cbv zeta.
  repeat match goal with
  | |- context [if ?c then _ else _] => destruct c
  end; now rewrite ?length_aset.
Qed.

(** X8: [undo_move] takes back [make_move] for a plain move (no promotion,
    castling or en-passant flag): on a position that keeps the data-model
    invariants, when a piece of the side to move stands on [from] and [to]
    is empty or holds an enemy piece, making the move and undoing it with the
    values saved before (captured piece, packed castling rights, en-passant
    square, halfmove clock) gives back the position, field for field. *)
Theorem make_undo_plain_move (zk : ZobristKeys) (p : Position) (from to pt : Z) :
  position_ok p = true ->
  occupied_bb p = occupied_of (_pieces p) ->
  hash_ok zk p = true ->
  length (_pieces p) = 14%nat -> length (board p) = 64%nat ->
  length (castle_rook_sq p) = 4%nat ->
  (forall x, In x (castle_rook_sq p) -> -1 <= x <= 63) ->
  0 <= from < 64 -> 0 <= to < 64 -> from <> to ->
  1 <= pt <= 6 -> piece_on p from = piece_code (side_to_move p) pt ->
  (piece_on p to = 0
   \/ exists cpt, 1 <= cpt <= 6 /\ piece_on p to = piece_code (flip (side_to_move p)) cpt) ->
  make_then_undo zk p (mk_move from to) = p.
Proof.
  intros Hok Hocc Hh Hlp Hlb Hlc Hcr Hf Ht Hne Hpt Hpc Hcap.
  destruct (plain_move_fields from to Hf Ht) as [Efrom [Eto [Epromo [Ecastle [Eep Enull]]]]].
  destruct (piece_code_type (side_to_move p) pt Hpt) as [Etype Enz].
  unfold make_then_undo.
  set (m := mk_move from to) in *.
  remember (piece_on p (to_sq m)) as cap eqn:Ecap.
  remember (let ps := pieces_or (pieces_xor (_pieces p) (side p) pt (bit from))
                                (side p) pt (bit to) in
            if negb (cap =? 0) then pieces_xor ps (flip (side p)) (Z.land cap 7) (bit to)
            else ps) as PS eqn:EPS.
  remember (fold_left (fun cr s =>
              let cr := if from =? aget (-1) cr (cidx (side p) s)
                        then aset cr (cidx (side p) s) (-1) else cr in
              if from =? aget (-1) cr (cidx (flip (side p)) s)
              then aset cr (cidx (flip (side p)) s) (-1) else cr) [0; 1]
            (if pt =? KING
             then aset (aset (castle_rook_sq p) (cidx (side p) 1) (-1)) (cidx (side p) 0) (-1)
             else castle_rook_sq p)) as CR eqn:ECR.
  remember (if negb (cap =? 0) || (pt =? PAWN) then 0 else fifty p + 1) as FF eqn:EFF.
  remember (if (pt =? PAWN) && (Z.abs (to - from) =? 16)
            then (match side p with WHITE => from + 8 | BLACK => from - 8 end)
            else -1) as EP eqn:EEP.
  remember (castling_rights p) as OC eqn:EOC.
  assert (Hmake :
    make_move zk p m =
    compute_hash zk (push_hash
      {| _pieces := PS;
         board := aset (aset (board p) from 0) to (piece_code (side p) pt);
         side := flip (side p); occupied := occupied_of PS; fifty := FF;
         ply := ply p + 1;
         game_ply := (match flip (side p) with
                      | WHITE => game_ply p + 1 | BLACK => game_ply p end);
         ep_square := EP; castle_rook_sq := CR;
         chess960 := chess960 p; hash := hash p; history := history p |})).
  { subst PS CR FF EP cap. unfold make_move.
    rewrite Enull, Efrom, Eto, Ecastle, Eep, Epromo.
    unfold piece_on, side_to_move in *. rewrite Hpc, Etype.
    cbn [negb andb Z.eqb NO_PIECE]. cbv zeta.
    destruct (negb (aget 0 (board p) to =? 0)); reflexivity. }
  rewrite Hmake. clear Hmake.
  unfold undo_move. rewrite Enull, Efrom, Eto, Ecastle, Eep, Epromo.
  unfold compute_hash, push_hash, pop_hash, set_hash, set_history.
  cbn [_pieces board side occupied fifty ply game_ply ep_square castle_rook_sq chess960
       hash history].
  rewrite aget_upd_same by (rewrite length_aset; lia).
  unfold side_to_move in *. rewrite Etype, flip_flip, removelast_last.
  cbn [negb andb Z.eqb NO_PIECE]. cbv zeta. rewrite !andb_true_r.
  assert (Hbf : Z.testbit (pieces_get (_pieces p) (side p) pt) from = true).
  { change (pieces_get (_pieces p) (side p) pt) with (bb p (side p) pt).
    rewrite (position_ok_bb p (side p) pt from Hok Hf Hpt), Hpc. apply Z.eqb_refl. }
  assert (Hbt : Z.testbit (pieces_get (_pieces p) (side p) pt) to = false).
  { change (pieces_get (_pieces p) (side p) pt) with (bb p (side p) pt).
    rewrite (position_ok_bb p (side p) pt to Hok Ht Hpt).
    destruct Hcap as [E|[cpt [Hc E]]]; rewrite E.
    - apply Z.eqb_neq. intros E0. symmetry in E0. apply Z.eqb_eq in E0. congruence.
    - apply Z.eqb_neq. unfold piece_code.
      assert (Ept : pt = 1 \/ pt = 2 \/ pt = 3 \/ pt = 4 \/ pt = 5 \/ pt = 6) by lia.
      assert (Ecp : cpt = 1 \/ cpt = 2 \/ cpt = 3 \/ cpt = 4 \/ cpt = 5 \/ cpt = 6) by lia.
      destruct (side p); decompose [or] Ept; decompose [or] Ecp; subst pt cpt; vm_compute;
        discriminate. }
  assert (Hcastle : unpack_castling CR OC = castle_rook_sq p).
  { subst CR OC. apply unpack_packed_castling; [exact Hlc| |exact Hcr].
    rewrite length_castle_after. exact Hlc. }
  assert (Hboard :
    aset (aset (aset (aset (board p) from 0) to (piece_code (side p) pt)) to cap) from
         (piece_code (side p) pt) = board p).
  { apply board_back; try assumption.
    subst cap. unfold piece_on. now rewrite Eto. }
  assert (Hpieces :
    (if negb (cap =? 0)
     then pieces_or (pieces_or (pieces_xor PS (side p) pt (bit to)) (side p) pt (bit from))
                    (flip (side p)) (Z.land cap 7) (bit to)
     else pieces_or (pieces_xor PS (side p) pt (bit to)) (side p) pt (bit from))
    = _pieces p).
  { subst PS cap. cbv zeta. unfold piece_on. rewrite Eto.
    destruct Hcap as [E|[cpt [Hc E]]]; unfold piece_on in E; rewrite E.
    - cbn [Z.eqb negb]. apply pieces_back; try assumption; lia.
    - destruct (piece_code_type (flip (side p)) cpt Hc) as [Ec7 Ecz].
      rewrite Ecz, Ec7. cbn [negb].
      apply pieces_back_capture; try assumption; try lia.
      change (pieces_get (_pieces p) (flip (side p)) cpt) with (bb p (flip (side p)) cpt).
      rewrite (position_ok_bb p (flip (side p)) cpt to Hok Ht Hc).
      unfold piece_on. rewrite E. apply Z.eqb_refl. }
  rewrite Hcastle, Hboard, Hpieces.
  unfold hash_ok in Hh. apply Z.eqb_eq in Hh.
  unfold halfmove_clock, ep_sq.
  unfold occupied_bb in Hocc. rewrite <- Hocc, <- Hh.
  replace (ply p + 1 - 1) with (ply p) by lia.
  replace (match side p with
           | WHITE => match flip (side p) with
                      | WHITE => game_ply p + 1 | BLACK => game_ply p end
           | BLACK => match flip (side p) with
                      | WHITE => game_ply p + 1 | BLACK => game_ply p end - 1
           end) with (game_ply p) by (destruct (side p); cbn [flip]; lia).
  apply position_eta.
Qed.

Lemma make_undo_plain_move_witness :
  make_then_undo sample_keys queen_takes_rook_pos (mk_move 7 63) = queen_takes_rook_pos.
Proof.
  apply (make_undo_plain_move sample_keys queen_takes_rook_pos 7 63 QUEEN).
  - vm_compute. reflexivity.
  - vm_compute. reflexivity.
  - vm_compute. reflexivity.
  - vm_compute. reflexivity.
  - vm_compute. reflexivity.
  - vm_compute. reflexivity.
  - assert (E : castle_rook_sq queen_takes_rook_pos = [-1; -1; 63; -1])
      by (vm_compute; reflexivity).
    rewrite E. intros x H. cbn [In] in H.
    destruct H as [H|[H|[H|[H|H]]]]; [lia|lia|lia|lia|contradiction].
  - lia.
  - lia.
  - lia.
  - unfold QUEEN. lia.
  - vm_compute. reflexivity.
  - right. exists ROOK. split; [unfold ROOK; lia|vm_compute; reflexivity].
Defined.
